(** * EnvSeal: the envelope-encryption vault and its roster

    A shallow embedding of the Go packages [internal/crypto],
    [internal/config] (secret file and manifest), [pkg/filesystem] and of the
    [rekey] command, followed by the properties of the vault that the
    specification states.

    Conventions of the embedding.
    - A Go [string] is a [string] (a sequence of bytes); a [[]byte] is a
      [list byte]; the conversions [[]byte(s)] and [string(b)] are
      [list_byte_of_string] and [string_of_list_byte].
    - A function returning [(T, error)] returns a [result T]; a method with a
      pointer receiver returns the receiver's new state next to its result.
    - The libraries the code imports (crypto/rand, filippo.io/age,
      chacha20poly1305, encoding/base64, yaml.v3, strings, fmt) are the fields
      of the class [External]: the theorems hold for every implementation of
      them, and one executable implementation, [Sim], is given to run the
      model on concrete inputs. *)

From Stdlib Require Import ZArith List Lia.
From Stdlib Require Import Strings.String Strings.Ascii Strings.Byte.
From stdpp Require Import base option list gmap strings pretty fin_maps sorting.

#[local] Set Warnings "-register-all".
#[local] Open Scope string_scope.
#[local] Open Scope list_scope.
#[local] Open Scope stdpp_scope.

(** ** Errors and results *)

(** One constructor per error value or error message of the source; an
    error built with [%w] keeps the error it wraps. *)
Inductive error : Type :=
  (* internal/crypto *)
  | ErrInvalidDEKSize (got : nat)
  | ErrDecryptDEKDenied
  | ErrCiphertextShort
  | ErrDecryptValue
  | ErrNoRecipients
  | ErrInvalidPublicKey
  (* errors of the imported libraries, returned as they are *)
  | ErrRandRead
  | ErrAgeEncrypt
  | ErrIoCopy
  | ErrBase64Corrupt
  | ErrChachaKeySize
  | ErrYaml
  | ErrOs
  (* internal/config, secret file *)
  | ErrLocked
  | ErrKeyNotFound
  | ErrAccessDenied
  | ErrMissingMetadata
  | ErrIdentityNil
  | ErrEncodingMetadata (inner : error)
  | ErrParsingMetadata (inner : error)
  | ErrInitialRecipientsEmpty
  | ErrRotateLocked
  | ErrRecipientsEmpty
  | ErrEncryptForRecipient (pubKey : string) (inner : error)
  | ErrKeyEmpty
  | ErrReservedName (key : string)
  | ErrUnsetReserved (key : string)
  | ErrReservedRetrieve (key : string)
  | ErrKeyDoesNotExist (key : string)
  | ErrValueNotString
  | ErrSecretsNonStringKey
  | ErrSecretsFormat
  (* internal/config, manifest *)
  | ErrUserExists
  | ErrUserNotFound
  | ErrInvalidName
  | ErrInvalidPubKey
  (* internal/commands *)
  | ErrManifestNoRecipients
  | ErrWrap (context : string) (inner : error).

Inductive result (A : Type) : Type :=
  | Ok (a : A)
  | Err (e : error).
Arguments Ok {A} a.
Arguments Err {A} e.

#[export] Instance result_ret : MRet result := fun A a => Ok a.
#[export] Instance result_bind : MBind result := fun A B f m =>
  match m with Ok a => f a | Err e => Err e end.

#[export] Instance byte_eq_decision : EqDecision byte := Byte.byte_eq_dec.

Definition is_Err {A} (r : result A) : Prop := exists e, r = Err e.

(** ** Values of type [any]

    What a [map[string]any] decoded by yaml.v3 holds (scalars, sequences,
    maps keyed by strings, maps with a key that is not a string), and the
    [Metadata] struct that [rotateRecipientsLocked] stores under the
    metadata key.  Floats and timestamps take the same branches as
    [AInt] everywhere in the code modelled here and are left out. *)

Record Recipient := { Arg : string; Enc : string }.

Record Metadata := { Recipients : list Recipient }.

Inductive any : Type :=
  | ANil
  | ABool (b : bool)
  | AInt (n : Z)
  | AString (s : string)
  | ASlice (l : list any)
  | AMapString (m : gmap string any)
  | AMapAny (m : list (any * any))
  | AMetadata (md : Metadata).

(** ** The imported libraries *)

(** [age.Decrypt] followed by [io.Copy] of the payload: the header does not
    open under the identity, the payload stream fails while it is read, or the
    payload is read whole. *)
Inductive age_outcome : Type :=
  | AgeDenied
  | AgeReadFailed
  | AgePlain (payload : list byte).

(** [yaml.Marshal] of the metadata value followed by [yaml.Unmarshal] into a
    [Metadata] struct, as [Unlock] does. *)
Inductive yaml_outcome : Type :=
  | YamlMarshalFailed
  | YamlUnmarshalFailed
  | YamlMetadata (md : Metadata).

Class External : Type := {
  (* crypto/rand: [io.ReadFull(rand.Reader, b)] with [len(b) = n] *)
  Entropy : Type;
  rand_ReadFull : nat -> Entropy -> option (list byte) * Entropy;
  (* filippo.io/age *)
  X25519Identity : Type;
  X25519Recipient : Type;
  age_ParseX25519Recipient : string -> option X25519Recipient;
  age_Encrypt : list X25519Recipient -> list byte -> Entropy -> option string * Entropy;
  age_Decrypt : string -> X25519Identity -> age_outcome;
  (* golang.org/x/crypto/chacha20poly1305, no associated data *)
  aead_Seal : list byte -> list byte -> list byte -> list byte;
  aead_Open : list byte -> list byte -> list byte -> option (list byte);
  (* encoding/base64, StdEncoding *)
  base64_EncodeToString : list byte -> string;
  base64_DecodeString : string -> option (list byte);
  (* strings, fmt *)
  strings_TrimSpace : string -> string;
  fmt_Sprintf_v : any -> string;
  (* gopkg.in/yaml.v3 *)
  yaml_Metadata : any -> yaml_outcome;
  yaml_Marshal : gmap string any -> option (list byte);
  yaml_Unmarshal : list byte -> option (gmap string any);
}.

(** The contracts of the libraries that the round-trip property relies on. *)
Definition rand_exact `{External} : Prop :=
  forall n e b e', rand_ReadFull n e = (Some b, e') -> length b = n.

Definition base64_roundtrip `{External} : Prop :=
  forall b, base64_DecodeString (base64_EncodeToString b) = Some b.

Definition aead_roundtrip `{External} (keySize nonceSize : nat) : Prop :=
  forall key nonce plaintext,
    length key = keySize -> length nonce = nonceSize ->
    aead_Open key nonce (aead_Seal key nonce plaintext) = Some plaintext.

(** ** Package crypto (src/internal/crypto/keygen.go) *)

Module crypto.
Section Crypto.
Context `{External}.

(** [chacha20poly1305.KeySize], [NonceSize]. *)
Definition dekSize : nat := 32.
Definition NonceSize : nat := 12.

Definition validateDEK (dek : list byte) : result unit :=
  if decide (length dek = dekSize) then Ok tt
  else Err (ErrInvalidDEKSize (length dek)).

(** [fillRandom b] overwrites the [n = len(b)] bytes of [b]; the new
    contents of [b] are returned. *)
Definition fillRandom (n : nat) (e : Entropy) : result (list byte) * Entropy :=
  match rand_ReadFull n e with
  | (Some b, e') => (Ok b, e')
  | (None, e') => (Err ErrRandRead, e')
  end.

Definition GenerateDEK (e : Entropy) : result (list byte) * Entropy :=
  fillRandom dekSize e.

Fixpoint parseRecipients_loop (pubKeys : list string) : result (list X25519Recipient) :=
  match pubKeys with
  | [] => Ok []
  | pubKey :: rest =>
      match age_ParseX25519Recipient pubKey with
      | None => Err ErrInvalidPublicKey
      | Some r => rs ← parseRecipients_loop rest; Ok (r :: rs)
      end
  end.

Definition parseRecipients (pubKeys : list string) : result (list X25519Recipient) :=
  match pubKeys with
  | [] => Err ErrNoRecipients
  | _ => parseRecipients_loop pubKeys
  end.

Definition encryptToAge (dek : list byte) (recipients : list X25519Recipient)
    (e : Entropy) : result string * Entropy :=
  match age_Encrypt recipients dek e with
  | (Some armored, e') => (Ok armored, e')
  | (None, e') => (Err ErrAgeEncrypt, e')
  end.

Definition EncryptDEK (dek : list byte) (recipientPubKeys : list string)
    (e : Entropy) : result string * Entropy :=
  match validateDEK dek with
  | Err err => (Err err, e)
  | Ok _ =>
      match parseRecipients recipientPubKeys with
      | Err err => (Err err, e)
      | Ok recipients => encryptToAge dek recipients e
      end
  end.

(** [identity] is an interface value: [None] is the nil interface. *)
Definition DecryptDEK (encryptedDEK : string) (identity : option X25519Identity)
    : result (list byte) :=
  if decide (encryptedDEK = "") then Err ErrDecryptDEKDenied
  else match identity with
  | None => Err ErrDecryptDEKDenied
  | Some id =>
      match age_Decrypt encryptedDEK id with
      | AgeDenied => Err ErrDecryptDEKDenied
      | AgeReadFailed => Err ErrIoCopy
      | AgePlain b =>
          match validateDEK b with
          | Err _ => Err ErrDecryptDEKDenied
          | Ok _ => Ok b
          end
      end
  end.

(** [chacha20poly1305.New]: the only failure is a key of the wrong size. *)
Definition chacha20poly1305_New (key : list byte) : result (list byte) :=
  if decide (length key = dekSize) then Ok key else Err ErrChachaKeySize.

Definition EncryptValue (plaintext : string) (dek : list byte) (e : Entropy)
    : result string * Entropy :=
  match validateDEK dek with
  | Err err => (Err err, e)
  | Ok _ =>
      match chacha20poly1305_New dek with
      | Err err => (Err err, e)
      | Ok aead =>
          match fillRandom NonceSize e with
          | (Err err, e') => (Err err, e')
          | (Ok nonce, e') =>
              let out := nonce ++ aead_Seal aead nonce (list_byte_of_string plaintext) in
              (Ok (base64_EncodeToString out), e')
          end
      end
  end.

Definition DecryptValue (encryptedBase64 : string) (dek : list byte) : result string :=
  _ ← validateDEK dek;
  match base64_DecodeString encryptedBase64 with
  | None => Err ErrBase64Corrupt
  | Some data =>
      aead ← chacha20poly1305_New dek;
      if decide (length data < NonceSize) then Err ErrCiphertextShort
      else
        let nonce := take NonceSize data in
        let ciphertext := drop NonceSize data in
        match aead_Open aead nonce ciphertext with
        | None => Err ErrDecryptValue
        | Some plaintext => Ok (string_of_list_byte plaintext)
        end
  end.

End Crypto.
End crypto.

(** ** Package filesystem and the files on disk *)

(** A path holds a readable file or something [os.ReadFile] fails on for
    another reason than absence (a directory, a file without read
    permission). *)
Inductive file : Type :=
  | File (data : list byte)
  | Unreadable.

Inductive read_outcome : Type :=
  | ReadNotExist
  | ReadFailed
  | ReadData (data : list byte).

Definition os_ReadFile (disk : gmap string file) (path : string) : read_outcome :=
  match disk !! path with
  | None => ReadNotExist
  | Some Unreadable => ReadFailed
  | Some (File data) => ReadData data
  end.

(** Where a write to disk is made to fail, if anywhere. *)
Inductive io_fault : Type :=
  | NoFault
  | FailMkdirAll
  | FailCreateTemp
  | FailChmod
  | FailWrite
  | FailSync
  | FailClose
  | FailRename.

Module filesystem.

(** [AtomicWriteFile]: [tmpName] is the fresh name [os.CreateTemp] picks in
    the directory of [path]; the deferred [os.Remove(tmpName)] runs on every
    return after the temporary file exists.  The disk does not record
    permissions: [perm] only travels with the call. *)
Definition AtomicWriteFile (path : string) (data : list byte) (perm : N)
    (tmpName : string) (fault : io_fault) (disk : gmap string file)
    : result unit * gmap string file :=
  match fault with
  | FailCreateTemp => (Err ErrOs, disk)
  | _ =>
      let created := <[tmpName := File []]> disk in
      match fault with
      | FailChmod | FailWrite => (Err ErrOs, delete tmpName created)
      | _ =>
          let written := <[tmpName := File data]> created in
          match fault with
          | FailSync | FailClose | FailRename => (Err ErrOs, delete tmpName written)
          | _ =>
              let renamed := <[path := File data]> (delete tmpName written) in
              (Ok tt, delete tmpName renamed)
          end
      end
  end.

End filesystem.

(** ** Package strings: the functions with a fixed meaning on bytes *)

Definition strings_HasPrefix (s prefix : string) : bool := String.prefix prefix s.

Definition strings_HasSuffix (s suffix : string) : bool :=
  (String.length suffix <=? String.length s)%nat
  && String.eqb (substring (String.length s - String.length suffix)
                           (String.length suffix) s) suffix.

(** The slice expression [s[lo:hi]]. *)
Definition slice (s : string) (lo hi : nat) : string := substring lo (hi - lo) s.

(** [sort.Strings] on a list without duplicates: the result is the one
    arrangement of the list that increases in the byte-wise order of Go's
    [<] on strings ([String.le]), whichever algorithm produces it. *)
Definition sort_Strings (l : list string) : list string := merge_sort String.le l.

(** ** Package config: the secret file (src/unnamed/part_007) *)

Module config.
Section SecretFile.
Context `{External}.

Definition MetadataKey : string := "_envseal".
Definition SecretsKey : string := "secrets".
Definition encPrefix : string := "ENC[age,chacha20,".
Definition encSuffix : string := "]".

(** [decryptedDEK] is [None] for the nil slice.  The slice is never shared:
    every assignment stores a [cloneBytes] copy, so writing through it
    changes this field and nothing else. *)
Record SecretFile := {
  RawData : gmap string any;
  decryptedDEK : option (list byte);
  path : string;
}.

Definition set_RawData (raw : gmap string any) (sf : SecretFile) : SecretFile :=
  {| RawData := raw; decryptedDEK := decryptedDEK sf; path := path sf |}.

Definition set_decryptedDEK (dek : option (list byte)) (sf : SecretFile) : SecretFile :=
  {| RawData := RawData sf; decryptedDEK := dek; path := path sf |}.

(** The bytes a callee sees when it is passed [sf.decryptedDEK]. *)
Definition dekBytes (sf : SecretFile) : list byte := default [] (decryptedDEK sf).

Definition zeroBytes (b : option (list byte)) : option (list byte) :=
  match b with
  | None => None
  | Some l => Some (map (fun _ => x00) l)
  end.

Definition cloneBytes (b : option (list byte)) : option (list byte) :=
  match b with
  | None => None
  | Some l => Some l
  end.

(** [converted[ks] = v] for every pair of a [map[any]any], or the error at a
    key that is not a string. *)
Fixpoint convertLegacy (legacy : list (any * any)) (converted : gmap string any)
    : result (gmap string any) :=
  match legacy with
  | [] => Ok converted
  | (AString ks, v) :: rest => convertLegacy rest (<[ks := v]> converted)
  | _ :: _ => Err ErrSecretsNonStringKey
  end.

(** The map returned is the one stored under [SecretsKey]: a caller that
    assigns into it updates [RawData[SecretsKey]]. *)
Definition ensureSecretsMap (create : bool) (sf : SecretFile)
    : result (option (gmap string any)) * SecretFile :=
  match RawData sf !! SecretsKey with
  | None | Some ANil =>
      if create
      then (Ok (Some ∅), set_RawData (<[SecretsKey := AMapString ∅]> (RawData sf)) sf)
      else (Ok None, sf)
  | Some (AMapString m) => (Ok (Some m), sf)
  | Some (AMapAny legacy) =>
      match convertLegacy legacy ∅ with
      | Err err => (Err err, sf)
      | Ok converted =>
          (Ok (Some converted),
           set_RawData (<[SecretsKey := AMapString converted]> (RawData sf)) sf)
      end
  | Some _ => (Err ErrSecretsFormat, sf)
  end.

Definition NewSecretFile (path : string) : SecretFile :=
  let sf := {| RawData := ∅; decryptedDEK := None; path := path |} in
  snd (ensureSecretsMap true sf).

Definition LoadSecretFile (path : string) (disk : gmap string file) : result SecretFile :=
  match os_ReadFile disk path with
  | ReadNotExist => Ok (NewSecretFile path)
  | ReadFailed => Err ErrOs
  | ReadData data =>
      match yaml_Unmarshal data with
      | None => Err ErrYaml
      | Some raw =>
          let sf := {| RawData := raw; decryptedDEK := None; path := path |} in
          Ok (snd (ensureSecretsMap true sf))
      end
  end.

Definition IsUnlocked (sf : SecretFile) : bool :=
  match decryptedDEK sf with
  | None => false
  | Some _ => true
  end.

(** [Lock] in its two statements: the buffer is overwritten in place, then
    the field is set to nil. *)
Definition wipeDEK (sf : SecretFile) : SecretFile :=
  set_decryptedDEK (zeroBytes (decryptedDEK sf)) sf.

Definition Lock (sf : SecretFile) : SecretFile :=
  set_decryptedDEK None (wipeDEK sf).

Fixpoint Unlock_loop (recipients : list Recipient) (identity : X25519Identity)
    (sf : SecretFile) : result unit * SecretFile :=
  match recipients with
  | [] => (Err ErrAccessDenied, sf)
  | recipient :: rest =>
      match crypto.DecryptDEK (Enc recipient) (Some identity) with
      | Ok dek => (Ok tt, set_decryptedDEK (cloneBytes (Some dek)) (wipeDEK sf))
      | Err _ => Unlock_loop rest identity sf
      end
  end.

Definition Unlock (identity : option X25519Identity) (sf : SecretFile)
    : result unit * SecretFile :=
  match identity with
  | None => (Err ErrIdentityNil, sf)
  | Some id =>
      match RawData sf !! MetadataKey with
      | None => (Err ErrMissingMetadata, sf)
      | Some metaInterface =>
          match yaml_Metadata metaInterface with
          | YamlMarshalFailed => (Err (ErrEncodingMetadata ErrYaml), sf)
          | YamlUnmarshalFailed => (Err (ErrParsingMetadata ErrYaml), sf)
          | YamlMetadata meta => Unlock_loop (Recipients meta) id sf
          end
      end
  end.

(** The keys of the set built by the first loop, in [sort.Strings] order. *)
Definition normalizeAndDedupe (keys : list string) : list string :=
  let set : gset string :=
    foldl (fun set k =>
             let k := strings_TrimSpace k in
             if decide (k = "") then set else {[ k ]} ∪ set) ∅ keys in
  sort_Strings (elements set).

Fixpoint rotateRecipients_loop (dek : list byte) (publicKeys : list string)
    (newRecipients : list Recipient) (e : Entropy)
    : result (list Recipient) * Entropy :=
  match publicKeys with
  | [] => (Ok newRecipients, e)
  | pubKey :: rest =>
      match crypto.EncryptDEK dek [pubKey] e with
      | (Err err, e') => (Err (ErrEncryptForRecipient pubKey err), e')
      | (Ok encDEK, e') =>
          rotateRecipients_loop dek rest
            (newRecipients ++ [{| Arg := pubKey; Enc := encDEK |}]) e'
      end
  end.

Definition rotateRecipientsLocked (publicKeys : list string) (sf : SecretFile)
    (e : Entropy) : result unit * SecretFile * Entropy :=
  let publicKeys := normalizeAndDedupe publicKeys in
  match publicKeys with
  | [] => (Err ErrRecipientsEmpty, sf, e)
  | _ =>
      match rotateRecipients_loop (dekBytes sf) publicKeys [] e with
      | (Err err, e') => (Err err, sf, e')
      | (Ok newRecipients, e') =>
          (Ok tt,
           set_RawData (<[MetadataKey := AMetadata {| Recipients := newRecipients |}]>
                          (RawData sf)) sf,
           e')
      end
  end.

Definition Init (initialRecipients : list string) (sf : SecretFile) (e : Entropy)
    : result unit * SecretFile * Entropy :=
  match initialRecipients with
  | [] => (Err ErrInitialRecipientsEmpty, sf, e)
  | _ =>
      match crypto.GenerateDEK e with
      | (Err err, e') => (Err err, sf, e')
      | (Ok dek, e') =>
          let sf := set_decryptedDEK (cloneBytes (Some dek)) (wipeDEK sf) in
          let sf := snd (ensureSecretsMap true sf) in
          rotateRecipientsLocked initialRecipients sf e'
      end
  end.

Definition RotateRecipients (publicKeys : list string) (sf : SecretFile) (e : Entropy)
    : result unit * SecretFile * Entropy :=
  match decryptedDEK sf with
  | None => (Err ErrRotateLocked, sf, e)
  | Some _ => rotateRecipientsLocked publicKeys sf e
  end.

Definition wrapEncrypted (cipherText : string) : string :=
  encPrefix +:+ cipherText +:+ encSuffix.

Definition decryptIfNeeded (value : string) (dek : list byte) : result string :=
  if negb (strings_HasPrefix value encPrefix) || negb (strings_HasSuffix value encSuffix)
  then Ok value
  else
    let cipherText :=
      slice value (String.length encPrefix) (String.length value - String.length encSuffix) in
    crypto.DecryptValue cipherText dek.

Definition decryptAnyLocked (v : any) (sf : SecretFile) : result string :=
  match v with
  | AString s => decryptIfNeeded s (dekBytes sf)
  | _ => Err ErrValueNotString
  end.

Definition reserved (key : string) : bool :=
  bool_decide (key = MetadataKey) || bool_decide (key = SecretsKey).

Definition SetSecret (key value : string) (sf : SecretFile) (e : Entropy)
    : result unit * SecretFile * Entropy :=
  match decryptedDEK sf with
  | None => (Err ErrLocked, sf, e)
  | Some _ =>
      let key := strings_TrimSpace key in
      if decide (key = "") then (Err ErrKeyEmpty, sf, e)
      else if reserved key then (Err (ErrReservedName key), sf, e)
      else
        match crypto.EncryptValue value (dekBytes sf) e with
        | (Err err, e') => (Err err, sf, e')
        | (Ok encryptedVal, e') =>
            match ensureSecretsMap true sf with
            | (Err err, sf) => (Err err, sf, e')
            | (Ok None, sf) => (Ok tt, sf, e')
            | (Ok (Some secrets), sf) =>
                let secrets := <[key := AString (wrapEncrypted encryptedVal)]> secrets in
                let raw := <[SecretsKey := AMapString secrets]> (RawData sf) in
                (Ok tt, set_RawData (delete key raw) sf, e')
            end
        end
  end.

Definition UnsetSecret (key : string) (sf : SecretFile) : result unit * SecretFile :=
  match decryptedDEK sf with
  | None => (Err ErrLocked, sf)
  | Some _ =>
      let key := strings_TrimSpace key in
      if decide (key = "") then (Err ErrKeyEmpty, sf)
      else if reserved key then (Err (ErrUnsetReserved key), sf)
      else
        match ensureSecretsMap true sf with
        | (Err err, sf) => (Err err, sf)
        | (Ok None, sf) => (Ok tt, sf)
        | (Ok (Some secrets), sf) =>
            match secrets !! key, RawData sf !! key with
            | None, None => (Err (ErrKeyDoesNotExist key), sf)
            | _, _ =>
                let raw := <[SecretsKey := AMapString (delete key secrets)]> (RawData sf) in
                (Ok tt, set_RawData (delete key raw) sf)
            end
        end
  end.

Definition GetSecret (key : string) (sf : SecretFile) : result string * SecretFile :=
  match decryptedDEK sf with
  | None => (Err ErrLocked, sf)
  | Some _ =>
      let key := strings_TrimSpace key in
      if decide (key = "") then (Err ErrKeyEmpty, sf)
      else if reserved key then (Err (ErrReservedRetrieve key), sf)
      else
        let '(found, sf) := ensureSecretsMap false sf in
        match
          match found with
          | Ok (Some secrets) => secrets !! key
          | _ => None
          end
        with
        | Some v => (decryptAnyLocked v sf, sf)
        | None =>
            match RawData sf !! key with
            | Some v => (decryptAnyLocked v sf, sf)
            | None => (Err ErrKeyNotFound, sf)
            end
        end
  end.

(** The body of the loop over the canonical [secrets] map. *)
Definition collectCanonical (sf : SecretFile) (k : string) (v : any)
    (out : gmap string string) : gmap string string :=
  match decryptAnyLocked v sf with
  | Err _ =>
      match v with
      | AString s => <[k := s]> out
      | _ => <[k := fmt_Sprintf_v v]> out
      end
  | Ok val => <[k := val]> out
  end.

(** The body of the loop over the top-level (legacy) entries. *)
Definition collectLegacy (sf : SecretFile) (k : string) (v : any)
    (out : gmap string string) : gmap string string :=
  if reserved k then out
  else match out !! k with
  | Some _ => out
  | None =>
      match v with
      | AString s =>
          match decryptIfNeeded s (dekBytes sf) with
          | Err _ => <[k := s]> out
          | Ok val => <[k := val]> out
          end
      | _ => out
      end
  end.

Definition GetAllSecrets (sf : SecretFile) : result (gmap string string) * SecretFile :=
  match decryptedDEK sf with
  | None => (Err ErrLocked, sf)
  | Some _ =>
      let out : gmap string string := ∅ in
      let '(found, sf) := ensureSecretsMap false sf in
      let out :=
        match found with
        | Ok (Some secrets) => map_fold (collectCanonical sf) out secrets
        | _ => out
        end in
      let out := map_fold (collectLegacy sf) out (RawData sf) in
      (Ok out, sf)
  end.

(** [Save]: [fault] says where the write fails, if it does; 384 is 0o600. *)
Definition Save (sf : SecretFile) (tmpName : string) (fault : io_fault)
    (disk : gmap string file) : result unit * gmap string file :=
  match yaml_Marshal (RawData sf) with
  | None => (Err ErrYaml, disk)
  | Some data =>
      match fault with
      | FailMkdirAll => (Err ErrOs, disk)
      | _ => filesystem.AtomicWriteFile (path sf) data 384%N tmpName fault disk
      end
  end.

End SecretFile.
End config.

(** ** The DEK buffer as an object of the heap

    [SecretFile.decryptedDEK] is a byte slice: nil, or a reference to an
    array that every slice made from it shares.  [zeroBytes] writes into
    that array, so what [Lock] does to the bytes of the key is seen by every
    holder of the array and not in the [SecretFile] that is left, whose
    field is nil.  This module has [zeroBytes] and [Lock] over a heap of
    byte arrays; [config.Lock] is the same function on the value of the
    file, which [contents] reads off the heap. *)

Module memory.

Definition addr : Type := nat.
Definition heap : Type := gmap addr (list byte).

Record SecretFile := {
  RawData : gmap string any;
  decryptedDEK : option addr;
  path : string;
}.

Definition set_decryptedDEK (dek : option addr) (sf : SecretFile) : SecretFile :=
  {| RawData := RawData sf; decryptedDEK := dek; path := path sf |}.

(** [len(b)] and [b[i] = x] for the array at [b]. *)
Definition len (b : addr) (h : heap) : nat := length (default [] (h !! b)).

Definition store (b : addr) (i : nat) (x : byte) (h : heap) : heap :=
  alter (fun bytes => <[i := x]> bytes) b h.

(** [for i := range b { b[i] = 0 }], and nothing for a nil slice. *)
Definition zeroBytes (b : option addr) (h : heap) : heap :=
  match b with
  | None => h
  | Some b => foldl (fun h i => store b i x00 h) h (seq 0 (len b h))
  end.

Definition IsUnlocked (sf : SecretFile) : bool :=
  match decryptedDEK sf with
  | None => false
  | Some _ => true
  end.

Definition Lock (sf : SecretFile) (h : heap) : SecretFile * heap :=
  let h := zeroBytes (decryptedDEK sf) h in
  (set_decryptedDEK None sf, h).

(** The file as a value: the slice read through the heap. *)
Definition contents (h : heap) (sf : SecretFile) : config.SecretFile :=
  {| config.RawData := RawData sf;
     config.decryptedDEK := decryptedDEK sf ≫= (h !!.);
     config.path := path sf |}.

End memory.

(** ** Package sort *)

(** [sort.Slice] on a slice of at most 12 elements is insertion sort
    ([insertionSortLessFunc], Go 1.19 and later): the element at index [i] is swapped towards the
    front while it is [less] than its left neighbour.  [front] is the part of
    the slice before index [i], nearest neighbour first.  Longer slices are
    sorted by another algorithm, which differs from this one only in the
    order of elements that [less] does not separate. *)
Fixpoint sift {A} (less : A -> A -> bool) (x : A) (front : list A) : list A :=
  match front with
  | [] => [x]
  | y :: front' => if less x y then y :: sift less x front' else x :: front
  end.

Definition sort_Slice {A} (less : A -> A -> bool) (l : list A) : list A :=
  reverse (foldl (fun front x => sift less x front) [] l).

(** ** Package config: the manifest (src/internal/config/manifest.go) *)

Module manifest.
Section Manifest.
Context `{External}.

Record User := { Name : string; PublicKey : string }.

Record Manifest := {
  ProjectName : string;
  AccessControl : list User;
}.

Definition set_AccessControl (users : list User) (m : Manifest) : Manifest :=
  {| ProjectName := ProjectName m; AccessControl := users |}.

(** The comparison [AddUser] sorts with. *)
Definition lessByName (a b : User) : bool := String.ltb (Name a) (Name b).

(** The comparison [normalizeInPlace] sorts with. *)
Definition lessByNameThenKey (a b : User) : bool :=
  if decide (Name a = Name b) then String.ltb (PublicKey a) (PublicKey b)
  else String.ltb (Name a) (Name b).

Definition AddUser (name pubKey : string) (m : Manifest) : result unit * Manifest :=
  let name := strings_TrimSpace name in
  let pubKey := strings_TrimSpace pubKey in
  if decide (name = "") then (Err ErrInvalidName, m)
  else if decide (pubKey = "") then (Err ErrInvalidPubKey, m)
  else if existsb (fun u => bool_decide (PublicKey u = pubKey)) (AccessControl m)
  then (Err ErrUserExists, m)
  else
    let users := AccessControl m ++ [{| Name := name; PublicKey := pubKey |}] in
    (Ok tt, set_AccessControl (sort_Slice lessByName users) m).

Fixpoint normalize_loop (users : list User) (seen : gset string) (out : list User)
    : list User :=
  match users with
  | [] => out
  | u :: rest =>
      let u := {| Name := strings_TrimSpace (Name u);
                  PublicKey := strings_TrimSpace (PublicKey u) |} in
      if decide (PublicKey u = "") then normalize_loop rest seen out
      else if decide (PublicKey u ∈ seen) then normalize_loop rest seen out
      else normalize_loop rest ({[ PublicKey u ]} ∪ seen) (out ++ [u])
  end.

Definition normalizeInPlace (m : Manifest) : Manifest :=
  let out := normalize_loop (AccessControl m) ∅ [] in
  set_AccessControl (sort_Slice lessByNameThenKey out) m.

Definition GetPublicKeys (m : Manifest) : list string :=
  PublicKey <$> filter (fun u => PublicKey u <> "") (AccessControl m).

Fixpoint RemoveUser_loop (users : list User) (identifier : string)
    (newUsers : list User) (found : bool) : list User * bool :=
  match users with
  | [] => (newUsers, found)
  | u :: rest =>
      if bool_decide (Name u = identifier) || bool_decide (PublicKey u = identifier)
      then RemoveUser_loop rest identifier newUsers true
      else RemoveUser_loop rest identifier (newUsers ++ [u]) found
  end.

Definition RemoveUser (identifier : string) (m : Manifest) : bool * Manifest :=
  let identifier := strings_TrimSpace identifier in
  if decide (identifier = "") then (false, m)
  else
    let '(newUsers, found) := RemoveUser_loop (AccessControl m) identifier [] false in
    if found then (found, set_AccessControl newUsers m) else (found, m).

Definition RemoveUserStrict (identifier : string) (m : Manifest) : result unit * Manifest :=
  match RemoveUser identifier m with
  | (true, m) => (Ok tt, m)
  | (false, m) => (Err ErrUserNotFound, m)
  end.

Fixpoint FindUser_loop (users : list User) (pubKey : string) : User * bool :=
  match users with
  | [] => ({| Name := ""; PublicKey := "" |}, false)
  | u :: rest =>
      if bool_decide (PublicKey u = pubKey) then (u, true) else FindUser_loop rest pubKey
  end.

Definition FindUserByPublicKey (pubKey : string) (m : Manifest) : User * bool :=
  FindUser_loop (AccessControl m) (strings_TrimSpace pubKey).

Definition ManifestFileName : string := "envseal.yaml".

(** [LoadManifest]: [unmarshal] is [yaml.Unmarshal] into a [Manifest]. *)
Definition LoadManifest (unmarshal : list byte -> option Manifest)
    (disk : gmap string file) : result Manifest :=
  match os_ReadFile disk ManifestFileName with
  | ReadNotExist => Ok {| ProjectName := ""; AccessControl := [] |}
  | ReadFailed => Err ErrOs
  | ReadData data =>
      match unmarshal data with
      | None => Err ErrYaml
      | Some m => Ok (normalizeInPlace m)
      end
  end.

(** [Manifest.Save]: [marshal] is [yaml.Marshal] of the manifest; 384 is
    0o600. *)
Definition Save (marshal : Manifest -> option (list byte)) (m : Manifest)
    (tmpName : string) (fault : io_fault) (disk : gmap string file)
    : result unit * gmap string file :=
  match marshal m with
  | None => (Err ErrYaml, disk)
  | Some data =>
      match fault with
      | FailMkdirAll => (Err ErrOs, disk)
      | _ => filesystem.AtomicWriteFile ManifestFileName data 384%N tmpName fault disk
      end
  end.

End Manifest.
End manifest.

(** ** Package commands: [rekey] (src/internal/commands/whoami.go) *)

Module commands.
Section Rekey.
Context `{External}.

(** The three stores of [Deps], each by what its [Load] returns. *)
Record Deps := {
  IdentityManager_Load : string -> result (option X25519Identity);
  ManifestStore_Load : result manifest.Manifest;
  SecretsStore_Load : string -> result config.SecretFile;
}.

(** [for k, v := range all { sf.SetSecret(k, v) }], over the entries in the
    order the loop visits them. *)
Fixpoint reencrypt (entries : list (string * string)) (sf : config.SecretFile)
    (e : Entropy) : result unit * config.SecretFile * Entropy :=
  match entries with
  | [] => (Ok tt, sf, e)
  | (k, v) :: rest =>
      match config.SetSecret k v sf e with
      | (Err err, sf, e) => (Err (ErrWrap ("failed to re-encrypt " +:+ k) err), sf, e)
      | (Ok _, sf, e) => reencrypt rest sf e
      end
  end.

(** The [if rotate] branch of [runRekey].  [range] is the order in which the
    Go runtime enumerates the map [all]. *)
Definition rotateKey (range : gmap string string -> list (string * string))
    (recipients : list string) (sf : config.SecretFile) (e : Entropy)
    : result unit * config.SecretFile * Entropy :=
  match config.GetAllSecrets sf with
  | (Err err, sf) => (Err (ErrWrap "failed to read current secrets" err), sf, e)
  | (Ok all, sf) =>
      match config.Init recipients sf e with
      | (Err err, sf, e) => (Err (ErrWrap "failed to initialize new key" err), sf, e)
      | (Ok _, sf, e) => reencrypt (range all) sf e
      end
  end.

(** What [runRekey] leaves behind: its error, the secret file object after
    the deferred [Lock] (when one was loaded), the disk and the entropy. *)
Record outcome := {
  returned : result unit;
  inMemory : option config.SecretFile;
  onDisk : gmap string file;
  entropy : Entropy;
}.

Definition runRekey (rotate : result bool) (deps : Deps)
    (identityFilePath secretFilePath : string)
    (range : gmap string string -> list (string * string))
    (tmpName : string) (fault : io_fault)
    (disk : gmap string file) (e : Entropy) : outcome :=
  let stop err sf e := {| returned := Err err; inMemory := sf; onDisk := disk; entropy := e |} in
  match rotate with
  | Err err => stop err None e
  | Ok rotate =>
  match IdentityManager_Load deps identityFilePath with
  | Err err => stop (ErrWrap "identity error" err) None e
  | Ok ident =>
  match ManifestStore_Load deps with
  | Err err => stop (ErrWrap "failed to load manifest" err) None e
  | Ok manifest =>
  match SecretsStore_Load deps secretFilePath with
  | Err err => stop (ErrWrap "failed to load" err) None e
  | Ok sf =>
  match config.Unlock ident sf with
  | (Err err, sf) => stop (ErrWrap "failed to unlock" err) (Some sf) e
  | (Ok _, sf) =>
      (* from here on the deferred [sf.Lock()] runs at every return *)
      let recipients := manifest.GetPublicKeys manifest in
      match recipients with
      | [] => stop ErrManifestNoRecipients (Some (config.Lock sf)) e
      | _ =>
          let '(changed, sf, e) :=
            if rotate
            then rotateKey range recipients sf e
            else match config.RotateRecipients recipients sf e with
                 | (Err err, sf, e) => (Err (ErrWrap "failed to update recipients" err), sf, e)
                 | (Ok _, sf, e) => (Ok tt, sf, e)
                 end in
          match changed with
          | Err err => stop err (Some (config.Lock sf)) e
          | Ok _ =>
              match config.Save sf tmpName fault disk with
              | (Err err, disk) =>
                  {| returned := Err (ErrWrap "failed to save" err);
                     inMemory := Some (config.Lock sf); onDisk := disk; entropy := e |}
              | (Ok _, disk) =>
                  {| returned := Ok tt;
                     inMemory := Some (config.Lock sf); onDisk := disk; entropy := e |}
              end
          end
      end
  end end end end end.

End Rekey.

Section Commands.
Context `{External}.

(** [strings.Cut(s, "=")]: the text before the first [=], the text after
    it, and whether there is one. *)
Fixpoint strings_Cut_eq (s : string) : string * string * bool :=
  match s with
  | EmptyString => (EmptyString, EmptyString, false)
  | String c rest =>
      if Ascii.eqb c "="%char then (EmptyString, rest, true)
      else
        let '(before, after, found) := strings_Cut_eq rest in
        (String c before, after, found)
  end.

(** What the argument validators of [set] and [unset] reject. *)
Inductive args_error : Type :=
  | ArgsMissing
  | ArgsExpectedKeyValue (a : string)
  | ArgsKeyEmpty (a : string)
  | ArgsUnsetKeyEmpty.

Fixpoint validateSetArgs_loop (args : list string) : option args_error :=
  match args with
  | [] => None
  | a :: rest =>
      let '(key, _, ok) := strings_Cut_eq a in
      if negb ok then Some (ArgsExpectedKeyValue a)
      else if decide (strings_TrimSpace key = "") then Some (ArgsKeyEmpty a)
      else validateSetArgs_loop rest
  end.

Definition validateSetArgs (args : list string) : option args_error :=
  match args with
  | [] => Some ArgsMissing
  | _ => validateSetArgs_loop args
  end.

Fixpoint validateUnsetArgs_loop (args : list string) : option args_error :=
  match args with
  | [] => None
  | k :: rest =>
      if decide (strings_TrimSpace k = "") then Some ArgsUnsetKeyEmpty
      else validateUnsetArgs_loop rest
  end.

Definition validateUnsetArgs (args : list string) : option args_error :=
  match args with
  | [] => Some ArgsMissing
  | _ => validateUnsetArgs_loop args
  end.

(** The pairs [runSet] builds from its arguments: the key trimmed, the value
    as it is. *)
Definition setPairs (args : list string) : list (string * string) :=
  (fun a => let '(k, v, _) := strings_Cut_eq a in (strings_TrimSpace k, v)) <$> args.

Fixpoint setAll (pairs : list (string * string)) (sf : config.SecretFile)
    (e : Entropy) : result unit * config.SecretFile * Entropy :=
  match pairs with
  | [] => (Ok tt, sf, e)
  | (k, v) :: rest =>
      match config.SetSecret k v sf e with
      | (Err err, sf, e) => (Err (ErrWrap ("failed to set " +:+ k) err), sf, e)
      | (Ok _, sf, e) => setAll rest sf e
      end
  end.

Definition runSet (args : list string) (deps : Deps)
    (identityFilePath secretFilePath : string)
    (tmpName : string) (fault : io_fault)
    (disk : gmap string file) (e : Entropy) : outcome :=
  let stop err sf e := {| returned := Err err; inMemory := sf; onDisk := disk; entropy := e |} in
  match IdentityManager_Load deps identityFilePath with
  | Err err => stop (ErrWrap "identity error" err) None e
  | Ok ident =>
  match SecretsStore_Load deps secretFilePath with
  | Err err => stop (ErrWrap "failed to load" err) None e
  | Ok sf =>
  match config.Unlock ident sf with
  | (Err err, sf) => stop (ErrWrap "failed to unlock" err) (Some sf) e
  | (Ok _, sf) =>
      match setAll (setPairs args) sf e with
      | (Err err, sf, e) => stop err (Some (config.Lock sf)) e
      | (Ok _, sf, e) =>
          match config.Save sf tmpName fault disk with
          | (Err err, disk) =>
              {| returned := Err (ErrWrap "failed to save" err);
                 inMemory := Some (config.Lock sf); onDisk := disk; entropy := e |}
          | (Ok _, disk) =>
              {| returned := Ok tt;
                 inMemory := Some (config.Lock sf); onDisk := disk; entropy := e |}
          end
      end
  end end end.

(** [normalizeKeys]: trimmed, without the empty ones, each once, in the
    order of first appearance. *)
Fixpoint normalizeKeys_loop (args : list string) (set : gset string) (out : list string)
    : list string :=
  match args with
  | [] => out
  | a :: rest =>
      let k := strings_TrimSpace a in
      if decide (k = "") then normalizeKeys_loop rest set out
      else if decide (k ∈ set) then normalizeKeys_loop rest set out
      else normalizeKeys_loop rest ({[ k ]} ∪ set) (out ++ [k])
  end.

Definition normalizeKeys (args : list string) : list string :=
  normalizeKeys_loop args ∅ [].

(** The loop of [runUnset]: a key that cannot be unset is counted as a
    warning and the loop goes on. *)
Fixpoint unsetAll (keys : list string) (sf : config.SecretFile) (removed warned : nat)
    : config.SecretFile * nat * nat :=
  match keys with
  | [] => (sf, removed, warned)
  | key :: rest =>
      match config.UnsetSecret key sf with
      | (Err _, sf) => unsetAll rest sf removed (S warned)
      | (Ok _, sf) => unsetAll rest sf (S removed) warned
      end
  end.

Definition runUnset (args : list string) (deps : Deps)
    (identityFilePath secretFilePath : string)
    (tmpName : string) (fault : io_fault)
    (disk : gmap string file) (e : Entropy) : outcome :=
  let stop err sf := {| returned := Err err; inMemory := sf; onDisk := disk; entropy := e |} in
  match IdentityManager_Load deps identityFilePath with
  | Err err => stop (ErrWrap "identity error" err) None
  | Ok ident =>
  match SecretsStore_Load deps secretFilePath with
  | Err err => stop (ErrWrap "failed to load" err) None
  | Ok sf =>
  match config.Unlock ident sf with
  | (Err err, sf) => stop (ErrWrap "failed to unlock" err) (Some sf)
  | (Ok _, sf) =>
      let keys := normalizeKeys args in
      let '(sf, removed, warned) := unsetAll keys sf 0 0 in
      match removed with
      | 0 => {| returned := Ok tt; inMemory := Some (config.Lock sf);
                onDisk := disk; entropy := e |}
      | _ =>
          match config.Save sf tmpName fault disk with
          | (Err err, disk) =>
              {| returned := Err (ErrWrap "failed to save" err);
                 inMemory := Some (config.Lock sf); onDisk := disk; entropy := e |}
          | (Ok _, disk) =>
              {| returned := Ok tt;
                 inMemory := Some (config.Lock sf); onDisk := disk; entropy := e |}
          end
      end
  end end end.

(** [runPrint]: the lines written to the output, one [KEY=VALUE] per listed
    secret, the keys in [sort.Strings] order. *)
Definition printLines (plain : gmap string string) : list string :=
  let keys := sort_Strings (fst <$> map_to_list plain) in
  (fun k => k +:+ "=" +:+ default "" (plain !! k)) <$> keys.

Definition runPrint (deps : Deps) (identityFilePath secretFilePath : string)
    : result (list string) * option config.SecretFile :=
  match IdentityManager_Load deps identityFilePath with
  | Err err => (Err (ErrWrap "identity error" err), None)
  | Ok ident =>
  match SecretsStore_Load deps secretFilePath with
  | Err err => (Err (ErrWrap "failed to load" err), None)
  | Ok sf =>
  match config.Unlock ident sf with
  | (Err err, sf) => (Err (ErrWrap "failed to unlock" err), Some sf)
  | (Ok _, sf) =>
      match config.GetAllSecrets sf with
      | (Err err, sf) => (Err (ErrWrap "failed to decrypt secrets" err), Some (config.Lock sf))
      | (Ok plain, sf) => (Ok (printLines plain), Some (config.Lock sf))
      end
  end end end.

(** [os.Stat] on the path of a file: it is there, it is not, or the call
    fails for another reason. *)
Inductive stat_outcome : Type :=
  | StatOk
  | StatNotExist
  | StatFailed.

Definition os_Stat (statFails : bool) (disk : gmap string file) (path : string)
    : stat_outcome :=
  if statFails then StatFailed
  else match disk !! path with
  | Some _ => StatOk
  | None => StatNotExist
  end.

(** [ensureSecretsFile] of the [init] command. *)
Definition ensureSecretsFile (statFails : bool) (secretFilePath pubKey : string)
    (tmpName : string) (fault : io_fault)
    (disk : gmap string file) (e : Entropy)
    : result bool * gmap string file * Entropy :=
  match os_Stat statFails disk secretFilePath with
  | StatOk => (Ok false, disk, e)
  | StatFailed => (Err (ErrWrap "failed to stat" ErrOs), disk, e)
  | StatNotExist =>
      let sf := config.NewSecretFile secretFilePath in
      match config.Init [pubKey] sf e with
      | (Err err, _, e) => (Err (ErrWrap "failed to initialize secrets" err), disk, e)
      | (Ok _, sf, e) =>
          match config.SetSecret "HELLO" "World (Encrypted with EnvSeal)" sf e with
          | (Err err, _, e) => (Err (ErrWrap "failed to set example secret" err), disk, e)
          | (Ok _, sf, e) =>
              match config.Save sf tmpName fault disk with
              | (Err err, disk) => (Err (ErrWrap "failed to save" err), disk, e)
              | (Ok _, disk) => (Ok true, disk, e)
              end
          end
      end
  end.

End Commands.
End commands.

(** ** An executable implementation of the imported libraries

    Transparent stand-ins with the interfaces of the libraries, to evaluate
    the model on concrete vaults: entropy is a finite tape of bytes, a key
    pair is a name and the name prefixed with [age1], an age envelope lists
    its recipients in front of the payload, the AEAD appends the key and the
    nonce as its tag, base64 is the identity on bytes. *)

Module Sim.

Definition rand_ReadFull (n : nat) (tape : list byte) : option (list byte) * list byte :=
  if decide (n <= length tape) then (Some (take n tape), drop n tape)
  else (None, tape).

Definition Recipient_of (identity : string) : string := "age1" +:+ identity.

Definition age_ParseX25519Recipient (s : string) : option string :=
  if String.prefix "age1" s then Some s else None.

Definition age_Encrypt (recipients : list string) (payload : list byte)
    (tape : list byte) : option string * list byte :=
  match recipients with
  | [] => (None, tape)
  | _ =>
      let header := String.concat "" ((fun r => "<" +:+ r +:+ ">") <$> recipients) in
      (Some (header +:+ "|" +:+ string_of_list_byte payload), tape)
  end.

Definition age_Decrypt (armored : string) (identity : string) : age_outcome :=
  match String.index 0 "|" armored with
  | None => AgeDenied
  | Some p =>
      let header := substring 0 p armored in
      let payload := substring (S p) (String.length armored - S p) armored in
      match String.index 0 ("<" +:+ Recipient_of identity +:+ ">") header with
      | None => AgeDenied
      | Some _ => AgePlain (list_byte_of_string payload)
      end
  end.

Definition aead_Seal (key nonce plaintext : list byte) : list byte :=
  plaintext ++ key ++ nonce.

Definition aead_Open (key nonce ciphertext : list byte) : option (list byte) :=
  let n := length ciphertext - length (key ++ nonce) in
  if decide (length (key ++ nonce) <= length ciphertext
             /\ drop n ciphertext = key ++ nonce)
  then Some (take n ciphertext) else None.

Definition base64_EncodeToString (b : list byte) : string := string_of_list_byte b.

Definition base64_DecodeString (s : string) : option (list byte) :=
  Some (list_byte_of_string s).

(** The ASCII part of [strings.TrimSpace]: tab, line feed, vertical tab, form
    feed, carriage return and space are cut from both ends. *)
Definition isSpace (c : ascii) : bool :=
  let n := nat_of_ascii c in
  ((9 <=? n) && (n <=? 13))%nat || (n =? 32)%nat.

Fixpoint trimLeft (s : string) : string :=
  match s with
  | String c s' => if isSpace c then trimLeft s' else s
  | EmptyString => EmptyString
  end.

Fixpoint trimRight (s : string) : string :=
  match s with
  | String c s' =>
      match trimRight s' with
      | EmptyString => if isSpace c then EmptyString else String c EmptyString
      | t => String c t
      end
  | EmptyString => EmptyString
  end.

Definition strings_TrimSpace (s : string) : string := trimRight (trimLeft s).

(** [%v] of a scalar; a composite value is shown by its brackets only. *)
Definition fmt_Sprintf_v (v : any) : string :=
  match v with
  | ANil => "<nil>"
  | ABool true => "true"
  | ABool false => "false"
  | AInt n => pretty n
  | AString s => s
  | ASlice _ => "[]"
  | AMapString _ | AMapAny _ => "map[]"
  | AMetadata _ => "{[]}"
  end.

(** A string field takes a string, and the empty string when absent or null. *)
Definition yaml_field (m : gmap string any) (field : string) : option string :=
  match m !! field with
  | None | Some ANil => Some ""
  | Some (AString s) => Some s
  | Some _ => None
  end.

Definition yaml_Recipient (v : any) : option Recipient :=
  match v with
  | ANil => Some {| Arg := ""; Enc := "" |}
  | AMapString m =>
      arg ← yaml_field m "arg";
      enc ← yaml_field m "enc";
      Some {| Arg := arg; Enc := enc |}
  | _ => None
  end.

(** Decoding into the [Metadata] struct: a mapping whose [recipients] entry,
    when present, is a sequence of mappings; a scalar or a sequence in the
    place of a mapping is a type error of the decoder. *)
Definition yaml_Metadata (v : any) : yaml_outcome :=
  match v with
  | AMetadata md => YamlMetadata md
  | ANil => YamlMetadata {| Recipients := [] |}
  | AMapString m =>
      match m !! "recipients" with
      | None | Some ANil => YamlMetadata {| Recipients := [] |}
      | Some (ASlice l) =>
          match mapM yaml_Recipient l with
          | Some rs => YamlMetadata {| Recipients := rs |}
          | None => YamlUnmarshalFailed
          end
      | Some _ => YamlUnmarshalFailed
      end
  | _ => YamlUnmarshalFailed
  end.

(** Documents are serialised line by line, for the values a vault writes:
    a string, a map of strings, and the metadata block, which is written
    from the struct and read back as a mapping with a [recipients]
    sequence.  Another value, or a text of 256 bytes or more, is refused.
    A line is four texts, each written as its length and its bytes. *)
Inductive line : Type :=
  | LString (k v : string)
  | LMap (k : string)
  | LMapEntry (k k' v : string)
  | LMetadata (k : string)
  | LRecipient (k arg enc : string).

Definition lines_of_value (k : string) (v : any) : option (list line) :=
  match v with
  | AString s => Some [LString k s]
  | AMapString m =>
      entries ← mapM (fun kv : string * any =>
                        match kv.2 with
                        | AString s => Some (LMapEntry k kv.1 s)
                        | _ => None
                        end) (map_to_list m);
      Some (LMap k :: entries)
  | AMetadata md =>
      Some (LMetadata k :: ((fun r => LRecipient k (Arg r) (Enc r)) <$> Recipients md))
  | _ => None
  end.

Definition tokens_of_line (l : line) : list string :=
  match l with
  | LString k v => ["s"; k; v; ""]
  | LMap k => ["m"; k; ""; ""]
  | LMapEntry k k' v => ["e"; k; k'; v]
  | LMetadata k => ["M"; k; ""; ""]
  | LRecipient k arg enc => ["r"; k; arg; enc]
  end.

Definition bytes_of_token (s : string) : option (list byte) :=
  n ← Byte.of_nat (String.length s);
  Some (n :: list_byte_of_string s).

Definition yaml_Marshal (raw : gmap string any) : option (list byte) :=
  ls ← mapM (fun kv : string * any => lines_of_value kv.1 kv.2) (map_to_list raw);
  bs ← mapM bytes_of_token (concat ls ≫= tokens_of_line);
  Some (concat bs).

(** [need] is the number of bytes the text being read still lacks, and
    [None] before the first length. *)
Fixpoint tokens_of_bytes (bs : list byte) (need : option nat) (cur : list byte)
    : option (list string) :=
  match bs, need with
  | [], None => Some []
  | [], Some 0 => Some [string_of_list_byte cur]
  | [], Some (S _) => None
  | b :: rest, None => tokens_of_bytes rest (Some (Byte.to_nat b)) []
  | b :: rest, Some 0 =>
      cons (string_of_list_byte cur) <$> tokens_of_bytes rest (Some (Byte.to_nat b)) []
  | b :: rest, Some (S n) => tokens_of_bytes rest (Some n) (cur ++ [b])
  end.

Definition line_of_tokens (tag a b c : string) : option line :=
  if decide (tag = "s") then Some (LString a b)
  else if decide (tag = "m") then Some (LMap a)
  else if decide (tag = "e") then Some (LMapEntry a b c)
  else if decide (tag = "M") then Some (LMetadata a)
  else if decide (tag = "r") then Some (LRecipient a b c)
  else None.

Fixpoint lines_of_tokens (ts : list string) : option (list line) :=
  match ts with
  | [] => Some []
  | tag :: a :: b :: c :: rest =>
      l ← line_of_tokens tag a b c;
      cons l <$> lines_of_tokens rest
  | _ => None
  end.

Definition add_line (doc : option (gmap string any)) (l : line)
    : option (gmap string any) :=
  doc ← doc;
  match l with
  | LString k v => Some (<[k := AString v]> doc)
  | LMap k => Some (<[k := AMapString ∅]> doc)
  | LMapEntry k k' v =>
      match doc !! k with
      | Some (AMapString m) => Some (<[k := AMapString (<[k' := AString v]> m)]> doc)
      | _ => None
      end
  | LMetadata k => Some (<[k := AMapString {[ "recipients" := ASlice [] ]}]> doc)
  | LRecipient k arg enc =>
      match doc !! k with
      | Some (AMapString m) =>
          match m !! "recipients" with
          | Some (ASlice l) =>
              let r := AMapString {[ "arg" := AString arg; "enc" := AString enc ]} in
              Some (<[k := AMapString {[ "recipients" := ASlice (l ++ [r]) ]}]> doc)
          | _ => None
          end
      | _ => None
      end
  end.

Definition yaml_Unmarshal (data : list byte) : option (gmap string any) :=
  ts ← tokens_of_bytes data None [];
  ls ← lines_of_tokens ts;
  foldl add_line (Some ∅) ls.

(** Tapes of [n] bytes and a 32-byte key to run examples with. *)
Definition tapeOf (b : byte) (n : nat) : list byte := replicate n b.
Definition tape (n : nat) : list byte := tapeOf x2a n.
Definition key0 : list byte := replicate 32 x01.

End Sim.

#[export] Instance Sim_libs : External := {|
  Entropy := list byte;
  rand_ReadFull := Sim.rand_ReadFull;
  X25519Identity := string;
  X25519Recipient := string;
  age_ParseX25519Recipient := Sim.age_ParseX25519Recipient;
  age_Encrypt := Sim.age_Encrypt;
  age_Decrypt := Sim.age_Decrypt;
  aead_Seal := Sim.aead_Seal;
  aead_Open := Sim.aead_Open;
  base64_EncodeToString := Sim.base64_EncodeToString;
  base64_DecodeString := Sim.base64_DecodeString;
  strings_TrimSpace := Sim.strings_TrimSpace;
  fmt_Sprintf_v := Sim.fmt_Sprintf_v;
  yaml_Metadata := Sim.yaml_Metadata;
  yaml_Marshal := Sim.yaml_Marshal;
  yaml_Unmarshal := Sim.yaml_Unmarshal;
|}.

(** ** Vocabulary of the properties *)

Section Vocabulary.
Context `{External}.

(** The recipient entry [r] unwraps to [dek] under [identity]: its wrapped
    key is present, decrypts under the identity, and the payload has the
    length of a DEK. *)
Definition unwraps (identity : X25519Identity) (r : Recipient) (dek : list byte) : Prop :=
  Enc r <> "" /\ age_Decrypt (Enc r) identity = AgePlain dek /\ length dek = crypto.dekSize.

Definition opaque (identity : X25519Identity) (r : Recipient) : Prop :=
  forall dek, ~ unwraps identity r dek.

(** Two secret files that hold the same DEK and differ at most in their
    metadata block. *)
Definition sameVaultContents (sf1 sf2 : config.SecretFile) : Prop :=
  config.decryptedDEK sf1 = config.decryptedDEK sf2 /\
  forall k, k <> config.MetadataKey -> config.RawData sf1 !! k = config.RawData sf2 !! k.

(** The canonical [secrets] map as the read operations see it: empty when
    the entry is absent, null or of an invalid shape. *)
Definition secretsOf (sf : config.SecretFile) : gmap string any :=
  match fst (config.ensureSecretsMap false sf) with
  | Ok (Some secrets) => secrets
  | _ => ∅
  end.

(** The value stored under a name: the canonical entry, or else the
    top-level entry of a name that is not reserved. *)
Definition storedEntry (sf : config.SecretFile) (k : string) : option any :=
  match secretsOf sf !! k with
  | Some v => Some v
  | None => if config.reserved k then None else config.RawData sf !! k
  end.

(** What a listing shows for the stored string [s]: its plaintext, or [s]
    itself when unsealing fails. *)
Definition listed (sf : config.SecretFile) (s : string) : string :=
  match config.decryptIfNeeded s (config.dekBytes sf) with
  | Ok plaintext => plaintext
  | Err _ => s
  end.

(** What the two loops of [GetAllSecrets] store for one entry. *)
Definition canonicalEntry (sf : config.SecretFile) (v : any) : string :=
  match v with
  | AString s => listed sf s
  | _ => fmt_Sprintf_v v
  end.

Definition legacyEntry (sf : config.SecretFile) (k : string) (v : any) : option string :=
  if config.reserved k then None
  else match v with
  | AString s => Some (listed sf s)
  | _ => None
  end.

(** The user [normalizeInPlace] keeps for an entry of the file. *)
Definition trimmed (u : manifest.User) : manifest.User :=
  {| manifest.Name := strings_TrimSpace (manifest.Name u);
     manifest.PublicKey := strings_TrimSpace (manifest.PublicKey u) |}.

(** The DEK, when the vault holds one, has the size of a key. *)
Definition dekWellSized (sf : config.SecretFile) : Prop :=
  forall dek, config.decryptedDEK sf = Some dek -> length dek = crypto.dekSize.

(** A name a secret can be stored under: trimmed, not empty, not reserved. *)
Definition secretName (k : string) : Prop :=
  strings_TrimSpace k = k /\ k <> "" /\ config.reserved k = false.

End Vocabulary.

(** A slice is in the order of [less] when no element is [less] than the
    one before it. *)
Fixpoint isSortedBy {A} (less : A -> A -> bool) (l : list A) : bool :=
  match l with
  | a :: (b :: _) as rest => negb (less b a) && isSortedBy less rest
  | _ => true
  end.

(** ** Sample vaults, evaluated with the stand-ins *)

Module Sample.

Definition alice : string := "alice".
Definition mallory : string := "mallory".


(** The entry that wraps [dek] for the holder of [identity]. *)
Definition entryFor (identity : string) (dek : list byte) : Recipient :=
  {| Arg := Sim.Recipient_of identity;
     Enc := "<" +:+ Sim.Recipient_of identity +:+ ">|" +:+ string_of_list_byte dek |}.

(** A vault wrapped for alice alone. *)
Definition wrappedForAlice : any :=
  AMetadata {| Recipients := [ entryFor alice Sim.key0 ] |}.


(** The document [_envseal: garbage]: the metadata block is a scalar. *)
Definition docScalarMetadata : config.SecretFile :=
  {| config.RawData := {[ "_envseal" := AString "garbage"; "secrets" := AMapString ∅ ]};
     config.decryptedDEK := None;
     config.path := "secrets.enc.yaml" |}.

Definition docForAlice : config.SecretFile :=
  {| config.RawData := {[ "_envseal" := wrappedForAlice; "secrets" := AMapString ∅ ]};
     config.decryptedDEK := None;
     config.path := "secrets.enc.yaml" |}.

(** The wrapped key of the only entry is cut short. *)
Definition docCorruptEntry : config.SecretFile :=
  {| config.RawData :=
       {[ "_envseal" := AMetadata {| Recipients :=
            [ {| Arg := Sim.Recipient_of alice; Enc := "<age1alice>|short" |} ] |};
          "secrets" := AMapString ∅ ]};
     config.decryptedDEK := None;
     config.path := "secrets.enc.yaml" |}.

(** [p] sealed under [dek] with the nonce the tape delivers. *)
Definition seal (p : string) (dek : list byte) : string :=
  let nonce := replicate 12 x2a in
  config.wrapEncrypted
    (Sim.base64_EncodeToString (nonce ++ Sim.aead_Seal dek nonce (list_byte_of_string p))).

(** An unlocked vault holding a sealed value, a value whose payload is
    damaged, and a plaintext entry at the top level. *)
Definition docDamagedValue : config.SecretFile :=
  {| config.RawData :=
       {[ "_envseal" := wrappedForAlice;
          "secrets" := AMapString {[ "GOOD" := AString (seal "v" Sim.key0);
                                      "BAD" := AString "ENC[age,chacha20,damaged]" ]};
          "OLD" := AString "plain" ]};
     config.decryptedDEK := Some Sim.key0;
     config.path := "secrets.enc.yaml" |}.

(** An unlocked vault with a value stored under each reserved name. *)
Definition docReservedNames : config.SecretFile :=
  {| config.RawData :=
       {[ "_envseal" := wrappedForAlice;
          "secrets" := AMapString {[ "secrets" := AString "inner";
                                      "_envseal" := AString "inner" ]} ]};
     config.decryptedDEK := Some Sim.key0;
     config.path := "secrets.enc.yaml" |}.

(** An unlocked vault with one sealed secret. *)
Definition docOneSecret : config.SecretFile :=
  {| config.RawData :=
       {[ "_envseal" := wrappedForAlice;
          "secrets" := AMapString {[ "K" := AString (seal "v" Sim.key0) ]} ]};
     config.decryptedDEK := Some Sim.key0;
     config.path := "secrets.enc.yaml" |}.

(** The same vault with a second entry whose name is blank. *)
Definition docBlankName : config.SecretFile :=
  {| config.RawData :=
       {[ "_envseal" := wrappedForAlice;
          "secrets" := AMapString {[ "K" := AString (seal "v" Sim.key0);
                                      " " := AString "x" ]} ]};
     config.decryptedDEK := Some Sim.key0;
     config.path := "secrets.enc.yaml" |}.

(** An unlocked vault with two sealed secrets. *)
Definition docTwoSecrets : config.SecretFile :=
  {| config.RawData :=
       {[ "_envseal" := wrappedForAlice;
          "secrets" := AMapString {[ "A" := AString (seal "a" Sim.key0);
                                      "B" := AString (seal "b" Sim.key0) ]} ]};
     config.decryptedDEK := Some Sim.key0;
     config.path := "secrets.enc.yaml" |}.

(** A roster whose only public key is not an age recipient. *)
Definition rosterBogusKey : manifest.Manifest :=
  {| manifest.ProjectName := "demo";
     manifest.AccessControl := [ {| manifest.Name := "bob"; manifest.PublicKey := "bogus" |} ] |}.

(** In-memory stores: alice's identity, the roster above, and the vault
    [docOneSecret] as it is when loaded (locked). *)
Definition depsBogusKey : @commands.Deps Sim_libs :=
  {| commands.IdentityManager_Load := fun _ => Ok (Some alice);
     commands.ManifestStore_Load := Ok rosterBogusKey;
     commands.SecretsStore_Load := fun _ => Ok (config.Lock docOneSecret) |}.

Definition diskBefore : gmap string file :=
  {[ "secrets.enc.yaml" := File (list_byte_of_string "stored document") ]}.

(** A roster with one user named bob. *)
Definition rosterBob : manifest.Manifest :=
  {| manifest.ProjectName := "demo";
     manifest.AccessControl :=
       [ {| manifest.Name := "bob"; manifest.PublicKey := "age1zzz" |} ] |}.

End Sample.

(** * Properties *)

(** ** Sealing and unsealing a value *)

Section CryptoFacts.
Context `{External}.

Lemma validateDEK_Ok (dek : list byte) :
  length dek = crypto.dekSize -> crypto.validateDEK dek = Ok tt.
Proof. intros Hlen. unfold crypto.validateDEK. by rewrite decide_True. Qed.

Lemma validateDEK_inv (dek : list byte) (u : unit) :
  crypto.validateDEK dek = Ok u -> length dek = crypto.dekSize.
Proof. unfold crypto.validateDEK. by case_decide. Qed.

Lemma chacha20poly1305_New_Ok (key : list byte) :
  length key = crypto.dekSize -> crypto.chacha20poly1305_New key = Ok key.
Proof. intros Hlen. unfold crypto.chacha20poly1305_New. by rewrite decide_True. Qed.

(** What [EncryptValue] returns when it returns a value: the base64 text of a
    nonce read from the entropy source followed by the AEAD output. *)
Lemma EncryptValue_Ok_inv (plaintext : string) (dek : list byte) (e e' : Entropy)
    (sealed : string) :
  crypto.EncryptValue plaintext dek e = (Ok sealed, e') ->
  length dek = crypto.dekSize /\
  exists nonce,
    rand_ReadFull crypto.NonceSize e = (Some nonce, e') /\
    sealed = base64_EncodeToString
               (nonce ++ aead_Seal dek nonce (list_byte_of_string plaintext)).
Proof.
  unfold crypto.EncryptValue, crypto.fillRandom.
  destruct (crypto.validateDEK dek) as [u|err] eqn:Hv; [|by intros [=]].
  apply validateDEK_inv in Hv. rewrite chacha20poly1305_New_Ok by done.
  destruct (rand_ReadFull crypto.NonceSize e) as [[nonce|] e1] eqn:Hr; intros [= <- <-].
  split; [done|]. by exists nonce.
Qed.

(** [EncryptValue] fails only when the key has the wrong size or the entropy
    source fails. *)
Lemma EncryptValue_Ok (plaintext : string) (dek : list byte) (e e' : Entropy)
    (nonce : list byte) :
  length dek = crypto.dekSize ->
  rand_ReadFull crypto.NonceSize e = (Some nonce, e') ->
  crypto.EncryptValue plaintext dek e =
    (Ok (base64_EncodeToString
           (nonce ++ aead_Seal dek nonce (list_byte_of_string plaintext))), e').
Proof.
  intros Hlen Hr. unfold crypto.EncryptValue, crypto.fillRandom.
  by rewrite validateDEK_Ok, chacha20poly1305_New_Ok, Hr.
Qed.

Lemma DecryptValue_sealed (plaintext : string) (dek nonce : list byte) :
  base64_roundtrip -> aead_roundtrip crypto.dekSize crypto.NonceSize ->
  length dek = crypto.dekSize -> length nonce = crypto.NonceSize ->
  crypto.DecryptValue
    (base64_EncodeToString
       (nonce ++ aead_Seal dek nonce (list_byte_of_string plaintext))) dek
  = Ok plaintext.
Proof.
  intros Hb64 Haead Hdek Hnonce. unfold crypto.DecryptValue.
  rewrite validateDEK_Ok by done. cbn. rewrite Hb64.
  rewrite chacha20poly1305_New_Ok by done. cbn.
  rewrite decide_False by (rewrite length_app; lia).
  rewrite take_app_length', drop_app_length' by done.
  rewrite Haead by done. by rewrite string_of_list_byte_of_string.
Qed.

End CryptoFacts.

(** The stand-ins meet the contracts of the libraries. *)
Lemma Sim_rand_exact : @rand_exact Sim_libs.
Proof.
  intros n e b e'. cbn. unfold Sim.rand_ReadFull.
  case_decide; intros [= <- <-]. rewrite length_take. lia.
Qed.

Lemma Sim_base64_roundtrip : @base64_roundtrip Sim_libs.
Proof.
  intros b. cbn. unfold Sim.base64_DecodeString, Sim.base64_EncodeToString.
  by rewrite list_byte_of_string_of_list_byte.
Qed.

Lemma Sim_aead_roundtrip (keySize nonceSize : nat) :
  @aead_roundtrip Sim_libs keySize nonceSize.
Proof.
  intros key nonce plaintext _ _. cbn. unfold Sim.aead_Open, Sim.aead_Seal.
  set (tag := key ++ nonce).
  replace (length (plaintext ++ tag) - length tag) with (length plaintext)
    by (rewrite length_app; lia).
  rewrite drop_app_length, take_app_length.
  rewrite decide_True; [done|]. split; [rewrite length_app; lia | done].
Qed.

(** C5. For every plaintext [p] and every 32-byte key [k]: whatever
    [EncryptValue p k] returns as the sealed value, [DecryptValue] of it under
    the same [k] returns exactly [p]; and [EncryptValue] does return a sealed
    value whenever the entropy source delivers the nonce.  The AEAD, base64 and
    the entropy source are assumed to meet their contracts. *)
Theorem seal_unseal_roundtrip `{External} (p : string) (k : list byte) (e : Entropy) :
  rand_exact -> base64_roundtrip ->
  aead_roundtrip crypto.dekSize crypto.NonceSize ->
  length k = 32 ->
  (forall sealed e',
     crypto.EncryptValue p k e = (Ok sealed, e') ->
     crypto.DecryptValue sealed k = Ok p) /\
  (forall nonce e',
     rand_ReadFull crypto.NonceSize e = (Some nonce, e') ->
     exists sealed, crypto.EncryptValue p k e = (Ok sealed, e')).
Proof.
  intros Hrand Hb64 Haead Hk. split.
  - intros sealed e' Henc.
    apply EncryptValue_Ok_inv in Henc as (_ & nonce & Hr & ->).
    apply DecryptValue_sealed; try done. by apply Hrand in Hr.
  - intros nonce e' Hr. eexists. by apply EncryptValue_Ok.
Qed.

Lemma seal_unseal_roundtrip_witness :
  exists sealed e',
    @crypto.EncryptValue Sim_libs "v" Sim.key0 (Sim.tape 12) = (Ok sealed, e') /\
    @crypto.DecryptValue Sim_libs sealed Sim.key0 = Ok "v".
Proof.
  eexists _, _. split; [vm_compute; reflexivity|].
  apply (proj1 (@seal_unseal_roundtrip Sim_libs "v" Sim.key0 (Sim.tape 12)
                  Sim_rand_exact Sim_base64_roundtrip
                  (Sim_aead_roundtrip _ _) eq_refl) _ []).
  vm_compute. reflexivity.
Defined.

(** ** Lock *)

Section LockFacts.

Lemma zeroBytes_spec (b : list byte) :
  config.zeroBytes (Some b) = Some (replicate (length b) x00).
Proof.
  cbn. f_equal. induction b as [|x b IH]; [done|]. cbn. by rewrite IH.
Qed.

Lemma Lock_locked (sf : config.SecretFile) :
  config.decryptedDEK sf = None -> config.Lock sf = sf.
Proof. destruct sf as [raw dek p]. cbn. by intros ->. Qed.

End LockFacts.

(** [zeroBytes] leaves an array of the same length, every byte zero. *)
Lemma memory_zeroBytes_spec (b : memory.addr) (dek : list byte) (h : memory.heap) :
  h !! b = Some dek ->
  memory.zeroBytes (Some b) h = <[b := replicate (length dek) x00]> h.
Proof.
  intros Hb. unfold memory.zeroBytes, memory.len. rewrite Hb.
  change (default [] (Some dek)) with dek.
  assert (forall n, n <= length dek ->
            foldl (fun h i => memory.store b i x00 h) h (seq 0 n)
            = <[b := replicate n x00 ++ drop n dek]> h) as Hloop.
  { induction n as [|n IH]; intros Hn.
    - cbn [seq foldl replicate app]. rewrite drop_0. symmetry. by apply insert_id.
    - rewrite seq_S, foldl_app, IH by lia. cbn [foldl Nat.add].
      unfold memory.store. etrans; [apply alter_insert_eq|]. cbv beta. f_equal.
      destruct (lookup_lt_is_Some_2 dek n) as [x Hx]; [lia|].
      rewrite (drop_S _ _ _ Hx).
      rewrite insert_app_r_alt by (rewrite length_replicate; lia).
      rewrite length_replicate, Nat.sub_diag. cbn [insert list_insert].
      rewrite replicate_S_end, <- app_assoc. done. }
  etrans; [apply (Hloop (length dek)); lia|]. by rewrite drop_all, app_nil_r.
Qed.

(** C8. [Lock] is a total function of the vault and of the memory that
    holds the key; it returns no error.  On any vault it overwrites every
    byte of the array that holds the DEK with zero, where every holder of
    that array sees it, keeps the length of the array and touches no other
    array, then drops the slice: the vault is locked and its document and
    path are untouched.  On a vault that is already locked it changes
    neither the vault nor the memory.  Locking twice leaves the vault and the
    memory that locking once leaves, locked both times.  On the value of
    the file [Lock] is [config.Lock], which is idempotent as well and leaves
    a locked vault alone. *)
Theorem Lock_idempotent_total (sf : memory.SecretFile) (h : memory.heap)
    (v : config.SecretFile) :
  (forall b dek,
     memory.decryptedDEK sf = Some b -> h !! b = Some dek ->
     (memory.Lock sf h).2 !! b = Some (replicate (length dek) x00)) /\
  (forall b, memory.decryptedDEK sf <> Some b -> (memory.Lock sf h).2 !! b = h !! b) /\
  memory.decryptedDEK (memory.Lock sf h).1 = None /\
  memory.IsUnlocked (memory.Lock sf h).1 = false /\
  memory.RawData (memory.Lock sf h).1 = memory.RawData sf /\
  memory.path (memory.Lock sf h).1 = memory.path sf /\
  (memory.IsUnlocked sf = false -> memory.Lock sf h = (sf, h)) /\
  memory.Lock (memory.Lock sf h).1 (memory.Lock sf h).2 = memory.Lock sf h /\
  memory.IsUnlocked (memory.Lock (memory.Lock sf h).1 (memory.Lock sf h).2).1 = false /\
  memory.contents (memory.Lock sf h).2 (memory.Lock sf h).1
  = config.Lock (memory.contents h sf) /\
  config.IsUnlocked (config.Lock v) = false /\
  (config.IsUnlocked v = false -> config.Lock v = v) /\
  config.Lock (config.Lock v) = config.Lock v /\
  config.IsUnlocked (config.Lock (config.Lock v)) = false.
Proof.
  assert (forall b, memory.decryptedDEK sf <> Some b ->
                    memory.zeroBytes (memory.decryptedDEK sf) h !! b = h !! b) as Hother.
  { intros b Hb. destruct (memory.decryptedDEK sf) as [b0|]; [|done].
    destruct (h !! b0) as [dek|] eqn:Hb0.
    - rewrite (memory_zeroBytes_spec _ _ _ Hb0). apply lookup_insert_ne. congruence.
    - unfold memory.zeroBytes, memory.len. by rewrite Hb0. }
  split; [|split; [exact Hother|]].
  { intros b dek Hsf Hb. unfold memory.Lock. cbn. rewrite Hsf.
    rewrite (memory_zeroBytes_spec _ _ _ Hb). apply lookup_insert_eq. }
  do 4 (split; [done|]). split.
  { unfold memory.IsUnlocked, memory.Lock. destruct sf as [raw [b|] p]; done. }
  do 3 (split; [done|]). split; [done|]. split.
  { unfold config.IsUnlocked. destruct v as [raw [dek|] p]; done. }
  split; done.
Qed.

(** The array that held the key of [docOneSecret], at address 7, after
    [Lock]: 32 zero bytes, for whoever still holds the array. *)
Example Lock_wipes_the_shared_array :
  let sf := {| memory.RawData := config.RawData Sample.docOneSecret;
               memory.decryptedDEK := Some 7;
               memory.path := "secrets.enc.yaml" |} in
  let h : memory.heap := {[ 7 := Sim.key0 ]} in
  memory.contents h sf = Sample.docOneSecret /\
  memory.Lock sf h
  = (memory.set_decryptedDEK None sf, {[ 7 := replicate 32 x00 ]}).
Proof. split; vm_compute; reflexivity. Qed.

(** ** Unlock *)

Section UnlockFacts.
Context `{External}.

Lemma DecryptDEK_Ok_iff (r : Recipient) (identity : X25519Identity) (dek : list byte) :
  crypto.DecryptDEK (Enc r) (Some identity) = Ok dek <-> unwraps identity r dek.
Proof.
  unfold crypto.DecryptDEK, unwraps, crypto.validateDEK. split.
  - case_decide; [done|].
    destruct (age_Decrypt (Enc r) identity) as [| |b]; try done.
    case_decide; [|done]. by intros [= <-].
  - intros (Hne & -> & Hlen). rewrite decide_False by done. by rewrite decide_True.
Qed.

Lemma DecryptDEK_Err_iff (r : Recipient) (identity : X25519Identity) :
  is_Err (crypto.DecryptDEK (Enc r) (Some identity)) <-> opaque identity r.
Proof.
  unfold opaque. split.
  - intros [err Herr] dek Hdek. apply DecryptDEK_Ok_iff in Hdek. congruence.
  - intros Hop. destruct (crypto.DecryptDEK (Enc r) (Some identity)) as [dek|err] eqn:Hd.
    + apply DecryptDEK_Ok_iff in Hd. by destruct (Hop dek).
    + by exists err.
Qed.

(** The state [Unlock] leaves on success: the old buffer is zeroed and
    replaced by a copy of the unwrapped key; the document is untouched. *)
Lemma Unlock_state (dek : list byte) (sf : config.SecretFile) :
  config.set_decryptedDEK (config.cloneBytes (Some dek)) (config.wipeDEK sf)
  = config.set_decryptedDEK (Some dek) sf.
Proof. done. Qed.



(** Every failure of the loop over the entries is [ErrAccessDenied]. *)
Lemma Unlock_loop_Err (recipients : list Recipient) (identity : X25519Identity)
    (sf sf' : config.SecretFile) (err : error) :
  config.Unlock_loop recipients identity sf = (Err err, sf') ->
  err = ErrAccessDenied /\ sf' = sf /\ Forall (opaque identity) recipients.
Proof.
  induction recipients as [|r rest IH]; cbn.
  - by intros [= <- <-].
  - destruct (crypto.DecryptDEK (Enc r) (Some identity)) as [dek|e] eqn:Hd; [done|].
    intros Hloop. destruct (IH Hloop) as (-> & -> & Hrest). repeat split.
    constructor; [|done]. apply DecryptDEK_Err_iff. by exists e.
Qed.

End UnlockFacts.



(** The metadata block that yaml cannot decode into a [Metadata] is reported
    by an error of its own. *)
Lemma Unlock_undecodable_metadata `{External}
    (sf : config.SecretFile) (identity : X25519Identity) (metaInterface : any) :
  config.RawData sf !! config.MetadataKey = Some metaInterface ->
  yaml_Metadata metaInterface = YamlUnmarshalFailed ->
  config.Unlock (Some identity) sf = (Err (ErrParsingMetadata ErrYaml), sf).
Proof. intros Hmi Hy. unfold config.Unlock. by rewrite Hmi, Hy. Qed.

(** C4, as the code has it.  Take two documents whose metadata block decodes
    into a recipient list, and let [Unlock] fail on both, whatever the cause
    (an entry whose wrapped key is corrupt or empty, a private key that
    matches no entry, no entry at all): both calls return [ErrAccessDenied],
    and both vaults are left as they were. *)
Theorem Unlock_failures_indistinguishable `{External}
    (sf1 sf2 sf1' sf2' : config.SecretFile) (id1 id2 : X25519Identity)
    (mi1 mi2 : any) (meta1 meta2 : Metadata) (err1 err2 : error) :
  config.RawData sf1 !! config.MetadataKey = Some mi1 ->
  config.RawData sf2 !! config.MetadataKey = Some mi2 ->
  yaml_Metadata mi1 = YamlMetadata meta1 ->
  yaml_Metadata mi2 = YamlMetadata meta2 ->
  config.Unlock (Some id1) sf1 = (Err err1, sf1') ->
  config.Unlock (Some id2) sf2 = (Err err2, sf2') ->
  err1 = ErrAccessDenied /\ err2 = ErrAccessDenied /\ sf1' = sf1 /\ sf2' = sf2.
Proof.
  unfold config.Unlock. intros -> -> -> -> H1 H2.
  apply Unlock_loop_Err in H1 as (-> & -> & _).
  by apply Unlock_loop_Err in H2 as (-> & -> & _).
Qed.

(** A corrupt entry in one document, the wrong private key on the other. *)
Lemma Unlock_failures_indistinguishable_witness :
  exists err1 err2,
    fst (@config.Unlock Sim_libs (Some Sample.alice) Sample.docCorruptEntry) = Err err1 /\
    fst (@config.Unlock Sim_libs (Some Sample.mallory) Sample.docForAlice) = Err err2 /\
    err1 = ErrAccessDenied /\ err2 = ErrAccessDenied.
Proof.
  exists ErrAccessDenied, ErrAccessDenied.
  split; [vm_compute; reflexivity|]. split; [vm_compute; reflexivity|].
  pose proof (@Unlock_failures_indistinguishable Sim_libs
                Sample.docCorruptEntry Sample.docForAlice
                Sample.docCorruptEntry Sample.docForAlice
                Sample.alice Sample.mallory _ _ _ _
                ErrAccessDenied ErrAccessDenied
                eq_refl eq_refl eq_refl eq_refl) as Hsame.
  destruct Hsame as (H1 & H2 & _); [vm_compute; reflexivity ..|].
  split; [exact H1 | exact H2].
Defined.

(** C4, as the claim has it, fails: both documents below have a metadata
    block, [Unlock] fails on both, on the first because the block is not a
    recipient list and on the second because the private key matches no
    entry, and the two errors differ. *)
Lemma Unlock_failure_causes_distinguished :
  is_Some (config.RawData Sample.docScalarMetadata !! config.MetadataKey) /\
  is_Some (config.RawData Sample.docForAlice !! config.MetadataKey) /\
  fst (@config.Unlock Sim_libs (Some Sample.mallory) Sample.docScalarMetadata)
    = Err (ErrParsingMetadata ErrYaml) /\
  fst (@config.Unlock Sim_libs (Some Sample.mallory) Sample.docForAlice)
    = Err ErrAccessDenied /\
  fst (@config.Unlock Sim_libs (Some Sample.mallory) Sample.docScalarMetadata)
    <> fst (@config.Unlock Sim_libs (Some Sample.mallory) Sample.docForAlice).
Proof.
  split; [by eexists|]. split; [by eexists|].
  split; [vm_compute; reflexivity|]. split; [vm_compute; reflexivity|].
  vm_compute. discriminate.
Qed.

(** ** Loading a secret file *)

Lemma NewSecretFile_eq `{External} (path : string) :
  config.NewSecretFile path
  = {| config.RawData := {[ config.SecretsKey := AMapString ∅ ]};
       config.decryptedDEK := None;
       config.path := path |}.
Proof.
  unfold config.NewSecretFile, config.ensureSecretsMap. cbn.
  rewrite lookup_empty. cbn. unfold config.set_RawData. cbn.
  by rewrite insert_empty.
Qed.

(** C9. When no file exists at [path], [LoadSecretFile] returns no error and
    the file [NewSecretFile path]: locked, with an empty [secrets] map and
    nothing else in the document, in particular no metadata block.  [Unlock]
    on that file, with any private key, fails with [ErrMissingMetadata]. *)
Theorem LoadSecretFile_absent `{External}
    (path : string) (disk : gmap string file) (identity : X25519Identity) :
  disk !! path = None ->
  exists sf,
    config.LoadSecretFile path disk = Ok sf /\
    config.RawData sf = {[ config.SecretsKey := AMapString ∅ ]} /\
    config.RawData sf !! config.MetadataKey = None /\
    config.IsUnlocked sf = false /\
    config.path sf = path /\
    config.Unlock (Some identity) sf = (Err ErrMissingMetadata, sf).
Proof.
  intros Habsent. exists (config.NewSecretFile path).
  unfold config.LoadSecretFile, os_ReadFile. rewrite Habsent.
  rewrite NewSecretFile_eq. unfold config.Unlock. cbn.
  assert (<[config.SecretsKey := AMapString ∅]> (∅ : gmap string any)
            !! config.MetadataKey = None) as Hmeta
    by by rewrite lookup_insert_ne.
  unfold config.SecretsKey in Hmeta. by rewrite Hmeta.
Qed.

Lemma LoadSecretFile_absent_witness :
  exists sf,
    @config.LoadSecretFile Sim_libs "secrets.enc.yaml" ∅ = Ok sf /\
    config.RawData sf = {[ config.SecretsKey := AMapString ∅ ]} /\
    config.RawData sf !! config.MetadataKey = None /\
    config.IsUnlocked sf = false /\
    config.path sf = "secrets.enc.yaml" /\
    @config.Unlock Sim_libs (Some Sample.alice) sf = (Err ErrMissingMetadata, sf).
Proof.
  exact (@LoadSecretFile_absent Sim_libs "secrets.enc.yaml" ∅ Sample.alice eq_refl).
Defined.

(** ** Reading a secret *)

(** C10. On an unlocked vault, [GetSecret] with a name that is, once
    trimmed, the metadata key or the secrets key, fails with the reserved-key
    error, which is not [ErrKeyNotFound]; it returns the empty string as its
    value, whatever the document stores under that name, and leaves the
    vault as it is. *)
Theorem GetSecret_reserved `{External} (sf : config.SecretFile) (key : string) :
  config.IsUnlocked sf = true ->
  strings_TrimSpace key = config.MetadataKey \/
  strings_TrimSpace key = config.SecretsKey ->
  config.GetSecret key sf = (Err (ErrReservedRetrieve (strings_TrimSpace key)), sf) /\
  ErrReservedRetrieve (strings_TrimSpace key) <> ErrKeyNotFound /\
  (forall value, fst (config.GetSecret key sf) <> Ok value).
Proof.
  intros Hunlocked Hkey. unfold config.IsUnlocked in Hunlocked.
  assert (config.GetSecret key sf
          = (Err (ErrReservedRetrieve (strings_TrimSpace key)), sf)) as Hget.
  { unfold config.GetSecret. destruct (config.decryptedDEK sf); [|done].
    destruct Hkey as [-> | ->]; done. }
  split; [done|]. split; [done|]. intros value. by rewrite Hget.
Qed.

Lemma GetSecret_reserved_witness :
  @config.GetSecret Sim_libs " _envseal " Sample.docReservedNames
  = (Err (ErrReservedRetrieve "_envseal"), Sample.docReservedNames) /\
  @config.GetSecret Sim_libs "secrets" Sample.docReservedNames
  = (Err (ErrReservedRetrieve "secrets"), Sample.docReservedNames).
Proof.
  split.
  - exact (proj1 (@GetSecret_reserved Sim_libs Sample.docReservedNames " _envseal "
                    eq_refl (or_introl eq_refl))).
  - exact (proj1 (@GetSecret_reserved Sim_libs Sample.docReservedNames "secrets"
                    eq_refl (or_intror eq_refl))).
Defined.

(** ** Listing the secrets *)

Section ListingFacts.
Context `{External}.

Lemma ensureSecretsMap_false_frame (sf : config.SecretFile) :
  let sf' := snd (config.ensureSecretsMap false sf) in
  config.decryptedDEK sf' = config.decryptedDEK sf /\
  config.path sf' = config.path sf /\
  forall k, k <> config.SecretsKey -> config.RawData sf' !! k = config.RawData sf !! k.
Proof.
  unfold config.ensureSecretsMap.
  destruct (config.RawData sf !! config.SecretsKey) as [[| | | | |m|legacy|]|]; cbn; try done.
  destruct (config.convertLegacy legacy ∅); cbn; [|done].
  repeat split. intros k Hk. by rewrite lookup_insert_ne.
Qed.

Lemma collectCanonical_insert (sf : config.SecretFile) (k : string) (v : any)
    (out : gmap string string) :
  config.collectCanonical sf k v out = <[k := canonicalEntry sf v]> out.
Proof.
  unfold config.collectCanonical, canonicalEntry, listed, config.decryptAnyLocked.
  destruct v; try done. by destruct (config.decryptIfNeeded _ _).
Qed.

Lemma fold_collectCanonical (sf : config.SecretFile) (secrets : gmap string any) :
  map_fold (config.collectCanonical sf) ∅ secrets = canonicalEntry sf <$> secrets.
Proof.
  apply (map_fold_weak_ind (fun out m => out = canonicalEntry sf <$> m)).
  - by rewrite fmap_empty.
  - intros k v m out _ ->. by rewrite collectCanonical_insert, fmap_insert.
Qed.

Lemma collectLegacy_lookup (sf : config.SecretFile) (k k' : string) (v : any)
    (out : gmap string string) :
  config.collectLegacy sf k v out !! k' =
    if decide (k = k')
    then match out !! k with Some x => Some x | None => legacyEntry sf k v end
    else out !! k'.
Proof.
  unfold config.collectLegacy, legacyEntry, listed.
  case_decide as Hk; [subst k'|].
  - destruct (config.reserved k); [by destruct (out !! k)|].
    destruct (out !! k) as [x|] eqn:Hout; [done|].
    destruct v; try done.
    destruct (config.decryptIfNeeded _ _); by rewrite lookup_insert_eq.
  - destruct (config.reserved k); [done|].
    destruct (out !! k); [done|]. destruct v; try done.
    destruct (config.decryptIfNeeded _ _); by rewrite lookup_insert_ne.
Qed.

Lemma fold_collectLegacy (sf : config.SecretFile) (out0 : gmap string string)
    (raw : gmap string any) (k : string) :
  map_fold (config.collectLegacy sf) out0 raw !! k =
    match out0 !! k with
    | Some x => Some x
    | None => raw !! k ≫= legacyEntry sf k
    end.
Proof.
  revert k.
  apply (map_fold_weak_ind (fun out m => forall k, out !! k =
           match out0 !! k with Some x => Some x | None => m !! k ≫= legacyEntry sf k end)).
  - intros k. rewrite lookup_empty. by destruct (out0 !! k).
  - intros i v m out Hi IH k. rewrite collectLegacy_lookup. case_decide as Hk.
    + subst k. rewrite lookup_insert_eq. rewrite IH, Hi. cbn. by destruct (out0 !! i).
    + rewrite lookup_insert_ne by done. apply IH.
Qed.

(** The listing, entry by entry. *)
Lemma GetAllSecrets_lookup (sf : config.SecretFile) :
  config.IsUnlocked sf = true ->
  exists out,
    config.GetAllSecrets sf = (Ok out, snd (config.ensureSecretsMap false sf)) /\
    forall k, out !! k =
      match secretsOf sf !! k with
      | Some v => Some (canonicalEntry sf v)
      | None => config.RawData sf !! k ≫= legacyEntry sf k
      end.
Proof.
  intros Hunlocked. unfold config.IsUnlocked in Hunlocked.
  unfold config.GetAllSecrets.
  destruct (config.decryptedDEK sf) as [dek|] eqn:Hdek; [|done].
  pose proof (ensureSecretsMap_false_frame sf) as (Hdek' & _ & Hraw).
  unfold secretsOf.
  destruct (config.ensureSecretsMap false sf) as [found sf'] eqn:Hensure.
  cbn in Hdek', Hraw |- *.
  assert (forall v, canonicalEntry sf' v = canonicalEntry sf v) as Hce.
  { intros v. unfold canonicalEntry, listed, config.dekBytes. by rewrite Hdek'. }
  assert (forall k, config.RawData sf' !! k ≫= legacyEntry sf' k
                    = config.RawData sf !! k ≫= legacyEntry sf k) as Hle.
  { intros k. destruct (decide (k = config.SecretsKey)) as [->|Hk].
    - unfold legacyEntry. cbn.
      by destruct (config.RawData sf' !! _), (config.RawData sf !! _).
    - rewrite Hraw by done. destruct (config.RawData sf !! k); [|done]. cbn.
      unfold legacyEntry, listed, config.dekBytes. by rewrite Hdek'. }
  eexists. split; [reflexivity|]. intros k. rewrite fold_collectLegacy, Hle.
  destruct found as [[secrets|]|err]; cbn.
  - rewrite fold_collectCanonical, lookup_fmap.
    destruct (secrets !! k); cbn; [by rewrite Hce|done].
  - by rewrite lookup_empty.
  - by rewrite lookup_empty.
Qed.

End ListingFacts.

(** C7. On an unlocked vault [GetAllSecrets] returns a listing and no error,
    whatever the entries hold.  For every name under which a string is
    stored, the listing has an entry: the plaintext when the string unseals
    (or carries no seal marker), and the stored string itself when unsealing
    fails; one entry that fails takes nothing away from the others.  An
    entry of the [secrets] map that is not a string is listed as [%v] prints
    it. *)
Theorem GetAllSecrets_degrades_per_entry `{External} (sf : config.SecretFile) :
  config.IsUnlocked sf = true ->
  exists out sf',
    config.GetAllSecrets sf = (Ok out, sf') /\
    (forall k v, secretsOf sf !! k = Some v -> out !! k = Some (canonicalEntry sf v)) /\
    (forall k s,
       storedEntry sf k = Some (AString s) -> out !! k = Some (listed sf s)) /\
    (forall k s err,
       storedEntry sf k = Some (AString s) ->
       config.decryptIfNeeded s (config.dekBytes sf) = Err err ->
       out !! k = Some s).
Proof.
  intros Hunlocked.
  destruct (GetAllSecrets_lookup sf Hunlocked) as (out & Hget & Hout).
  exists out, (snd (config.ensureSecretsMap false sf)). split; [done|].
  split; [intros k v Hk; by rewrite Hout, Hk|].
  assert (forall k s, storedEntry sf k = Some (AString s) ->
                      out !! k = Some (listed sf s)) as Hlisted.
  { intros k s. unfold storedEntry. rewrite Hout.
    destruct (secretsOf sf !! k) as [v|].
    - by intros [= ->].
    - unfold legacyEntry. destruct (config.reserved k); [done|].
      intros ->. cbn. by destruct (config.reserved k). }
  split; [done|].
  intros k s err Hstored Herr. rewrite (Hlisted k s Hstored).
  unfold listed. by rewrite Herr.
Qed.

Lemma GetAllSecrets_degrades_per_entry_witness :
  exists out sf',
    @config.GetAllSecrets Sim_libs Sample.docDamagedValue = (Ok out, sf') /\
    out !! "GOOD" = Some "v" /\
    out !! "BAD" = Some "ENC[age,chacha20,damaged]" /\
    out !! "OLD" = Some "plain".
Proof.
  destruct (@GetAllSecrets_degrades_per_entry Sim_libs Sample.docDamagedValue eq_refl)
    as (out & sf' & Hget & _ & Hlisted & _).
  exists out, sf'. split; [exact Hget|].
  split; [|split].
  - apply (Hlisted "GOOD" (Sample.seal "v" Sim.key0)). vm_compute. reflexivity.
  - apply (Hlisted "BAD" "ENC[age,chacha20,damaged]"). vm_compute. reflexivity.
  - apply (Hlisted "OLD" "plain"). vm_compute. reflexivity.
Defined.

(** ** Rewrapping the DEK for a new recipient set *)

Section RewrapFacts.
Context `{External}.

Lemma ensureSecretsMap_fst (create : bool) (sf1 sf2 : config.SecretFile) :
  config.RawData sf1 !! config.SecretsKey = config.RawData sf2 !! config.SecretsKey ->
  fst (config.ensureSecretsMap create sf1) = fst (config.ensureSecretsMap create sf2).
Proof.
  intros Hsecrets. unfold config.ensureSecretsMap. rewrite Hsecrets.
  destruct (config.RawData sf2 !! config.SecretsKey) as [[| | | | |m|legacy|]|];
    try done; try by destruct create.
  by destruct (config.convertLegacy legacy ∅).
Qed.

Lemma reserved_false (k : string) :
  config.reserved k = false -> k <> config.MetadataKey /\ k <> config.SecretsKey.
Proof.
  unfold config.reserved. intros Hr. apply orb_false_elim in Hr as [H1 H2].
  apply bool_decide_eq_false in H1, H2. done.
Qed.

Lemma secretsOf_same (sf1 sf2 : config.SecretFile) :
  sameVaultContents sf1 sf2 -> secretsOf sf1 = secretsOf sf2.
Proof.
  intros [_ Hraw]. unfold secretsOf.
  by rewrite (ensureSecretsMap_fst false sf1 sf2) by by apply Hraw.
Qed.

Lemma storedEntry_same (sf1 sf2 : config.SecretFile) (k : string) :
  sameVaultContents sf1 sf2 -> storedEntry sf1 k = storedEntry sf2 k.
Proof.
  intros Hsame. unfold storedEntry. rewrite (secretsOf_same sf1 sf2 Hsame).
  destruct (secretsOf sf2 !! k); [done|].
  destruct (config.reserved k) eqn:Hr; [done|].
  apply reserved_false in Hr as [Hk _]. by apply Hsame.
Qed.

Lemma decryptAnyLocked_same (v : any) (sf1 sf2 : config.SecretFile) :
  config.decryptedDEK sf1 = config.decryptedDEK sf2 ->
  config.decryptAnyLocked v sf1 = config.decryptAnyLocked v sf2.
Proof. intros Hdek. unfold config.decryptAnyLocked, config.dekBytes. by rewrite Hdek. Qed.

(** [GetSecret] reads the DEK and the entries outside the metadata block. *)
Lemma GetSecret_same (key : string) (sf1 sf2 : config.SecretFile) :
  sameVaultContents sf1 sf2 ->
  fst (config.GetSecret key sf1) = fst (config.GetSecret key sf2).
Proof.
  intros [Hdek Hraw]. unfold config.GetSecret. rewrite Hdek.
  destruct (config.decryptedDEK sf2) as [dek|] eqn:Hdek2; [|done].
  case_decide; [done|].
  destruct (config.reserved (strings_TrimSpace key)) eqn:Hr; [done|].
  apply reserved_false in Hr as [Hmeta Hsecrets].
  pose proof (ensureSecretsMap_fst false sf1 sf2 (Hraw config.SecretsKey ltac:(done))) as Hfound.
  pose proof (ensureSecretsMap_false_frame sf1) as (Hd1 & _ & Hr1).
  pose proof (ensureSecretsMap_false_frame sf2) as (Hd2 & _ & Hr2).
  destruct (config.ensureSecretsMap false sf1) as [found1 sf1'].
  destruct (config.ensureSecretsMap false sf2) as [found2 sf2'].
  cbn in Hfound, Hd1, Hr1, Hd2, Hr2. subst found2.
  assert (config.decryptedDEK sf1' = config.decryptedDEK sf2') as Hd by congruence.
  assert (config.RawData sf1' !! strings_TrimSpace key
          = config.RawData sf2' !! strings_TrimSpace key) as Hlegacy.
  { rewrite Hr1, Hr2 by done. by apply Hraw. }
  destruct (match found1 with Ok (Some secrets) => secrets !! _ | _ => None end) as [v|].
  - cbn. by apply decryptAnyLocked_same.
  - rewrite Hlegacy. destruct (config.RawData sf2' !! _); cbn; [|done].
    by apply decryptAnyLocked_same.
Qed.

Lemma GetAllSecrets_same (sf1 sf2 : config.SecretFile) :
  sameVaultContents sf1 sf2 ->
  fst (config.GetAllSecrets sf1) = fst (config.GetAllSecrets sf2).
Proof.
  intros Hsame. pose proof Hsame as [Hdek Hraw].
  destruct (config.IsUnlocked sf1) eqn:Hu1.
  - assert (config.IsUnlocked sf2 = true) as Hu2
      by (unfold config.IsUnlocked in *; by rewrite <- Hdek).
    destruct (GetAllSecrets_lookup sf1 Hu1) as (out1 & -> & Hout1).
    destruct (GetAllSecrets_lookup sf2 Hu2) as (out2 & -> & Hout2).
    cbn. f_equal. apply map_eq. intros k. rewrite Hout1, Hout2.
    rewrite (secretsOf_same sf1 sf2 Hsame).
    destruct (secretsOf sf2 !! k) as [v|].
    + unfold canonicalEntry, listed, config.dekBytes. by rewrite Hdek.
    + destruct (decide (k = config.MetadataKey)) as [->|Hk].
      * unfold legacyEntry. cbn.
        by destruct (config.RawData sf1 !! _), (config.RawData sf2 !! _).
      * rewrite Hraw by done. destruct (config.RawData sf2 !! k); [|done]. cbn.
        unfold legacyEntry, listed, config.dekBytes. by rewrite Hdek.
  - unfold config.GetAllSecrets, config.IsUnlocked in *. rewrite <- Hdek.
    by destruct (config.decryptedDEK sf1).
Qed.

(** Every entry the loop adds wraps [dek] for one key, in the order of the
    keys. *)
Lemma rotateRecipients_loop_Ok (dek : list byte) (publicKeys : list string)
    (acc newRecipients : list Recipient) (e e' : Entropy) :
  config.rotateRecipients_loop dek publicKeys acc e = (Ok newRecipients, e') ->
  exists added,
    newRecipients = acc ++ added /\
    Arg <$> added = publicKeys /\
    Forall (fun r => exists e1 e2, crypto.EncryptDEK dek [Arg r] e1 = (Ok (Enc r), e2)) added.
Proof.
  revert acc e. induction publicKeys as [|pubKey rest IH]; intros acc e; cbn.
  - intros [= <- <-]. exists []. by rewrite app_nil_r.
  - destruct (crypto.EncryptDEK dek [pubKey] e) as [[encDEK|err] e1] eqn:Henc; [|done].
    intros Hloop. apply IH in Hloop as (added & -> & Hargs & Hwrapped).
    exists ({| Arg := pubKey; Enc := encDEK |} :: added).
    rewrite <- app_assoc. split; [done|]. split; [cbn; by rewrite Hargs|].
    constructor; [|done]. by exists e, e1.
Qed.

Lemma rotateRecipientsLocked_spec (publicKeys : list string) (sf : config.SecretFile)
    (e : Entropy) :
  exists r sf' e',
    config.rotateRecipientsLocked publicKeys sf e = (r, sf', e') /\
    config.decryptedDEK sf' = config.decryptedDEK sf /\
    config.path sf' = config.path sf /\
    match r with
    | Err _ => sf' = sf
    | Ok _ =>
        exists newRecipients,
          config.RawData sf' =
            <[config.MetadataKey := AMetadata {| Recipients := newRecipients |}]>
              (config.RawData sf) /\
          Arg <$> newRecipients = config.normalizeAndDedupe publicKeys /\
          Forall (fun r => exists e1 e2,
                    crypto.EncryptDEK (config.dekBytes sf) [Arg r] e1 = (Ok (Enc r), e2))
                 newRecipients
    end.
Proof.
  unfold config.rotateRecipientsLocked.
  destruct (config.normalizeAndDedupe publicKeys) as [|pubKey rest] eqn:Hkeys.
  { by eexists _, _, _. }
  destruct (config.rotateRecipients_loop _ _ _ _) as [[newRecipients|err] e'] eqn:Hloop.
  - eexists _, _, _. split; [done|]. repeat split.
    apply rotateRecipients_loop_Ok in Hloop as (added & -> & Hargs & Hwrapped).
    by exists added.
  - by eexists _, _, _.
Qed.

End RewrapFacts.

(** C2. On an unlocked vault, with target keys that are not empty once
    normalized, [RotateRecipients] leaves the DEK as it is and changes no
    entry of the document other than the metadata block: every stored value
    is the same before and after, and a copy of the DEK taken before the
    call reads every secret of the vault after the call exactly as before.
    When the call succeeds the metadata block holds one entry per normalized
    target key, each wrapping that same DEK. *)
Theorem RotateRecipients_rewraps_only `{External}
    (publicKeys : list string) (sf : config.SecretFile) (e : Entropy) :
  config.IsUnlocked sf = true ->
  config.normalizeAndDedupe publicKeys <> [] ->
  exists r sf' e',
    config.RotateRecipients publicKeys sf e = (r, sf', e') /\
    config.decryptedDEK sf' = config.decryptedDEK sf /\
    (forall k, k <> config.MetadataKey ->
               config.RawData sf' !! k = config.RawData sf !! k) /\
    (forall k, storedEntry sf' k = storedEntry sf k) /\
    (let captured := config.decryptedDEK sf in
     (forall key, fst (config.GetSecret key (config.set_decryptedDEK captured sf'))
                  = fst (config.GetSecret key sf)) /\
     fst (config.GetAllSecrets (config.set_decryptedDEK captured sf'))
     = fst (config.GetAllSecrets sf)) /\
    (r = Ok tt ->
     exists newRecipients,
       config.RawData sf' !! config.MetadataKey
       = Some (AMetadata {| Recipients := newRecipients |}) /\
       Arg <$> newRecipients = config.normalizeAndDedupe publicKeys /\
       Forall (fun r => exists e1 e2,
                 crypto.EncryptDEK (config.dekBytes sf) [Arg r] e1 = (Ok (Enc r), e2))
              newRecipients).
Proof.
  intros Hunlocked _. unfold config.IsUnlocked in Hunlocked.
  unfold config.RotateRecipients.
  destruct (config.decryptedDEK sf) as [dek|] eqn:Hdek; [|done].
  destruct (rotateRecipientsLocked_spec publicKeys sf e)
    as (r & sf' & e' & -> & Hdek' & _ & Hr).
  exists r, sf', e'. split; [done|].
  assert (forall k, k <> config.MetadataKey ->
                    config.RawData sf' !! k = config.RawData sf !! k) as Hraw.
  { destruct r as [[]|err]; [|by subst sf'].
    destruct Hr as (newRecipients & -> & _). intros k Hk. by rewrite lookup_insert_ne. }
  assert (sameVaultContents sf' sf) as Hsame by (split; [exact Hdek' | exact Hraw]).
  assert (config.set_decryptedDEK (Some dek) sf' = sf') as ->.
  { rewrite Hdek in Hdek'. destruct sf' as [raw' d' p']. cbn in Hdek' |- *.
    by rewrite Hdek'. }
  split; [congruence|]. split; [done|].
  split; [intros k; by apply storedEntry_same|].
  split; [split; [intros key; by apply GetSecret_same | by apply GetAllSecrets_same]|].
  intros ->. destruct Hr as (newRecipients & -> & Hargs & Hwrapped).
  exists newRecipients. by rewrite lookup_insert_eq.
Qed.

Lemma RotateRecipients_rewraps_only_witness :
  exists sf' e',
    @config.RotateRecipients Sim_libs ["age1bob"; " age1alice "]
      Sample.docDamagedValue [] = (Ok tt, sf', e') /\
    config.decryptedDEK sf' = Some Sim.key0 /\
    fst (@config.GetSecret Sim_libs "GOOD" sf') = Ok "v" /\
    (Arg <$> match config.RawData sf' !! config.MetadataKey with
             | Some (AMetadata md) => Recipients md
             | _ => []
             end) = ["age1alice"; "age1bob"].
Proof.
  destruct (@RotateRecipients_rewraps_only Sim_libs ["age1bob"; " age1alice "]
              Sample.docDamagedValue [] eq_refl)
    as (r & sf' & e' & Hrot & Hdek & _ & _ & [Hget _] & Hmeta).
  { vm_compute. discriminate. }
  assert (r = Ok tt) as ->.
  { assert (fst (fst (@config.RotateRecipients Sim_libs ["age1bob"; " age1alice "]
                        Sample.docDamagedValue [])) = Ok tt) as Hr
      by (vm_compute; reflexivity).
    rewrite Hrot in Hr. exact Hr. }
  exists sf', e'. split; [exact Hrot|]. split; [exact Hdek|]. split.
  - specialize (Hget "GOOD"). cbn zeta in Hget.
    rewrite <- Hdek in Hget.
    replace (config.set_decryptedDEK (config.decryptedDEK sf') sf') with sf' in Hget
      by (by destruct sf').
    rewrite Hget. vm_compute. reflexivity.
  - destruct (Hmeta eq_refl) as (newRecipients & -> & Hargs & _).
    cbn. rewrite Hargs. vm_compute. reflexivity.
Defined.

(** ** Rotating the key *)

Section RotationFacts.
Context `{External}.

(** Once [GenerateDEK] has delivered, [Init] holds the new key, whether the
    wrapping that follows succeeds or not. *)
Lemma Init_installs_DEK_first (recipients : list string) (sf : config.SecretFile)
    (e e1 : Entropy) (dek : list byte) :
  recipients <> [] ->
  crypto.GenerateDEK e = (Ok dek, e1) ->
  config.decryptedDEK (snd (fst (config.Init recipients sf e))) = Some dek.
Proof.
  intros Hne Hgen. unfold config.Init. destruct recipients as [|pk rest]; [done|].
  rewrite Hgen.
  destruct (rotateRecipientsLocked_spec (pk :: rest)
              (snd (config.ensureSecretsMap true
                 (config.set_decryptedDEK (config.cloneBytes (Some dek)) (config.wipeDEK sf))))
              e1) as (r & sf' & e' & -> & Hdek & _).
  cbn. rewrite Hdek.
  unfold config.ensureSecretsMap. cbn.
  destruct (config.RawData sf !! config.SecretsKey) as [[| | | | |m|legacy|]|]; try done.
  by destruct (config.convertLegacy legacy ∅).
Qed.

(** The steps at which the rotation can fail. *)
Lemma rotateKey_Err_inv (range : gmap string string -> list (string * string))
    (recipients : list string) (sf sf' : config.SecretFile) (e e' : Entropy)
    (err : error) :
  commands.rotateKey range recipients sf e = (Err err, sf', e') ->
  (exists inner, fst (config.GetAllSecrets sf) = Err inner) \/
  (exists all sf1 inner,
     config.GetAllSecrets sf = (Ok all, sf1) /\
     config.Init recipients sf1 e = (Err inner, sf', e')) \/
  (exists all sf1 sf2 e2,
     config.GetAllSecrets sf = (Ok all, sf1) /\
     config.Init recipients sf1 e = (Ok tt, sf2, e2) /\
     commands.reencrypt (range all) sf2 e2 = (Err err, sf', e')).
Proof.
  unfold commands.rotateKey.
  destruct (config.GetAllSecrets sf) as [[all|inner] sf1]; [|left; by exists inner].
  destruct (config.Init recipients sf1 e) as [[[[]|inner] sf2] e2] eqn:Hinit.
  - intros Hre. right. right. by exists all, sf1, sf2, e2.
  - intros [= <- <- <-]. right. left. by exists all, sf1, inner.
Qed.

Lemma AtomicWriteFile_Err (path tmpName : string) (data : list byte) (perm : N)
    (fault : io_fault) (disk disk' : gmap string file) (err : error) :
  disk !! tmpName = None ->
  filesystem.AtomicWriteFile path data perm tmpName fault disk = (Err err, disk') ->
  disk' = disk.
Proof.
  intros Hfresh. unfold filesystem.AtomicWriteFile.
  destruct fault; cbn; intros [= <- <-]; try done;
    rewrite ?insert_insert_eq; by rewrite delete_insert_id.
Qed.

Lemma Save_Err (sf : config.SecretFile) (tmpName : string) (fault : io_fault)
    (disk disk' : gmap string file) (err : error) :
  disk !! tmpName = None ->
  config.Save sf tmpName fault disk = (Err err, disk') ->
  disk' = disk.
Proof.
  intros Hfresh. unfold config.Save. destruct (yaml_Marshal _); [|by intros [= <-]].
  destruct fault; try (by intros [= <-]); by apply AtomicWriteFile_Err.
Qed.

(** Whatever makes [runRekey] return an error, the disk is as it was: the
    command writes once, at its end, and that write replaces the file or
    leaves it. *)
Lemma runRekey_Err_keeps_disk (rotate : result bool) (deps : commands.Deps)
    (identityFilePath secretFilePath : string)
    (range : gmap string string -> list (string * string))
    (tmpName : string) (fault : io_fault) (disk : gmap string file) (e : Entropy) :
  disk !! tmpName = None ->
  is_Err (commands.returned
            (commands.runRekey rotate deps identityFilePath secretFilePath
               range tmpName fault disk e)) ->
  commands.onDisk
    (commands.runRekey rotate deps identityFilePath secretFilePath
       range tmpName fault disk e) = disk.
Proof.
  intros Hfresh. unfold commands.runRekey.
  destruct rotate as [rotate|]; [|done].
  destruct (commands.IdentityManager_Load _ _); [|done].
  destruct (commands.ManifestStore_Load _); [|done].
  destruct (commands.SecretsStore_Load _ _); [|done].
  destruct (config.Unlock _ _) as [[[]|] sf1]; [|done].
  destruct (manifest.GetPublicKeys _) as [|pk rest]; [done|].
  destruct (if rotate then _ else _) as [[[[]|] sf2] e2]; [|done].
  destruct (config.Save _ _ _ _) as [[[]|err] disk'] eqn:Hsave; cbn.
  - by intros [? [=]].
  - intros _. by eapply Save_Err.
Qed.

End RotationFacts.

(** C1, as the code has it.  Let the vault be loaded and unlocked and the
    roster name at least one key.  If the rotation fails at any of its
    steps (listing the stored values, minting the new DEK and wrapping it,
    re-sealing a value), [runRekey] returns that error at once: nothing is
    written, the document on disk is the one from before, and the object in
    memory is locked by the deferred [Lock].  The object in memory is not
    restored to its prior state. *)
Theorem runRekey_rotation_failure_not_saved `{External} (deps : commands.Deps)
    (identityFilePath secretFilePath : string)
    (range : gmap string string -> list (string * string))
    (tmpName : string) (fault : io_fault) (disk : gmap string file) (e e2 : Entropy)
    (ident : option X25519Identity) (m : manifest.Manifest)
    (sf0 sf1 sf2 : config.SecretFile) (err : error) :
  commands.IdentityManager_Load deps identityFilePath = Ok ident ->
  commands.ManifestStore_Load deps = Ok m ->
  commands.SecretsStore_Load deps secretFilePath = Ok sf0 ->
  config.Unlock ident sf0 = (Ok tt, sf1) ->
  manifest.GetPublicKeys m <> [] ->
  commands.rotateKey range (manifest.GetPublicKeys m) sf1 e = (Err err, sf2, e2) ->
  commands.runRekey (Ok true) deps identityFilePath secretFilePath
    range tmpName fault disk e
  = {| commands.returned := Err err;
       commands.inMemory := Some (config.Lock sf2);
       commands.onDisk := disk;
       commands.entropy := e2 |}.
Proof.
  intros Hid Hm Hsf Hunlock Hkeys Hrot. unfold commands.runRekey.
  rewrite Hid, Hm, Hsf, Hunlock.
  destruct (manifest.GetPublicKeys m) as [|pk rest] eqn:Hpk; [done|].
  by rewrite Hrot.
Qed.

Lemma runRekey_rotation_failure_not_saved_witness :
  let out := @commands.runRekey Sim_libs (Ok true) Sample.depsBogusKey
               "identity" "secrets.enc.yaml" map_to_list ".envseal-1.tmp" NoFault
               Sample.diskBefore (Sim.tape 32) in
  commands.returned out
  = Err (ErrWrap "failed to initialize new key"
           (ErrEncryptForRecipient "bogus" ErrInvalidPublicKey)) /\
  commands.onDisk out = Sample.diskBefore /\
  (config.IsUnlocked <$> commands.inMemory out) = Some false.
Proof.
  cbv zeta.
  rewrite (@runRekey_rotation_failure_not_saved Sim_libs Sample.depsBogusKey
             "identity" "secrets.enc.yaml" map_to_list ".envseal-1.tmp" NoFault
             Sample.diskBefore (Sim.tape 32) []
             (Some Sample.alice) Sample.rosterBogusKey
             (config.Lock Sample.docOneSecret) Sample.docOneSecret
             (snd (fst (@commands.rotateKey Sim_libs map_to_list ["bogus"]
                          Sample.docOneSecret (Sim.tape 32))))
             (ErrWrap "failed to initialize new key"
                (ErrEncryptForRecipient "bogus" ErrInvalidPublicKey))
             eq_refl eq_refl eq_refl).
  - done.
  - vm_compute. reflexivity.
  - vm_compute. discriminate.
  - vm_compute. reflexivity.
Defined.

(** C1, as the claim has it, fails.
    (1) The vault [docOneSecret] is unlocked and reads ["K"] as ["v"].  The
    rotation towards a roster whose key is not an age recipient fails while
    wrapping the new DEK; the vault it leaves holds another DEK than before
    over the same sealed values, and ["K"] no longer unseals.
    (2) The vault [docTwoSecrets] holds ["A"] and ["B"].  The entropy source
    delivers the new DEK and one nonce, then fails: the rotation returns the
    error with the new DEK wrapped for bob in the metadata block, ["A"]
    sealed under the new DEK and ["B"] still sealed under the old one. *)
Lemma rotateKey_failure_changes_vault :
  (config.IsUnlocked Sample.docOneSecret = true /\
   fst (@config.GetSecret Sim_libs "K" Sample.docOneSecret) = Ok "v" /\
   exists err sf' e',
     @commands.rotateKey Sim_libs map_to_list ["bogus"] Sample.docOneSecret (Sim.tape 32)
     = (Err err, sf', e') /\
     config.decryptedDEK sf' <> config.decryptedDEK Sample.docOneSecret /\
     config.RawData sf' = config.RawData Sample.docOneSecret /\
     fst (@config.GetSecret Sim_libs "K" sf') = Err ErrDecryptValue) /\
  (config.IsUnlocked Sample.docTwoSecrets = true /\
   exists err sf' e',
     @commands.rotateKey Sim_libs map_to_list ["age1bob"] Sample.docTwoSecrets
       (Sim.tapeOf x07 44)
     = (Err err, sf', e') /\
     config.decryptedDEK sf' = Some (Sim.tapeOf x07 32) /\
     config.RawData sf' !! config.MetadataKey
     = Some (AMetadata {| Recipients := [ Sample.entryFor "bob" (Sim.tapeOf x07 32) ] |}) /\
     fst (@config.GetSecret Sim_libs "A" sf') = Ok "a" /\
     fst (@config.GetSecret Sim_libs "B" sf') = Err ErrDecryptValue /\
     fst (@config.GetSecret Sim_libs "B" (config.set_decryptedDEK (Some Sim.key0) sf'))
     = Ok "b").
Proof.
  split.
  - split; [reflexivity|]. split; [vm_compute; reflexivity|].
    eexists _, _, _. split; [vm_compute; reflexivity|].
    split; [vm_compute; discriminate|].
    split; vm_compute; reflexivity.
  - split; [reflexivity|].
    eexists _, _, _. split; [vm_compute; reflexivity|].
    repeat split; vm_compute; reflexivity.
Qed.

(** Another way to such a state: the new DEK is minted and wrapped, and
    re-sealing stops at an entry whose name is blank; the metadata block is
    already the new one. *)
Example rotateKey_failure_after_wrapping :
  exists sf' e',
    @commands.rotateKey Sim_libs map_to_list ["age1bob"] Sample.docBlankName (Sim.tape 100)
    = (Err (ErrWrap "failed to re-encrypt  " ErrKeyEmpty), sf', e') /\
    config.decryptedDEK sf' = Some (Sim.tape 32) /\
    config.RawData sf' !! config.MetadataKey
    = Some (AMetadata {| Recipients := [ Sample.entryFor "bob" (Sim.tape 32) ] |}).
Proof.
  eexists _, _. split; [vm_compute; reflexivity|]. split; vm_compute; reflexivity.
Qed.

(** ** The order of the roster *)

Section SortFacts.
Context {A : Type} (less : A -> A -> bool).
Hypothesis less_asym : forall a b, less a b = true -> less b a = false.

(** The part of the slice already visited stays in order when the next
    element is sifted into it. *)
Lemma sift_Sorted (x : A) (front : list A) :
  Sorted (fun later earlier => less later earlier = false) front ->
  Sorted (fun later earlier => less later earlier = false) (sift less x front).
Proof.
  induction front as [|y front IH]; cbn; intros Hsorted.
  - by repeat constructor.
  - destruct (less x y) eqn:Hxy.
    + apply Sorted_inv in Hsorted as [Hfront Hhd].
      constructor; [by apply IH|].
      destruct front as [|y2 front]; cbn.
      * constructor. by apply less_asym.
      * apply HdRel_inv in Hhd. destruct (less x y2); constructor; [done|].
        by apply less_asym.
    + constructor; [done|]. by constructor.
Qed.

Lemma sift_Permutation (x : A) (front : list A) : sift less x front ≡ₚ x :: front.
Proof.
  induction front as [|y front IH]; cbn; [done|].
  destruct (less x y); [|done]. rewrite IH. apply Permutation_swap.
Qed.

Lemma isSortedBy_Sorted (l : list A) :
  Sorted (fun earlier later => less later earlier = false) l ->
  isSortedBy less l = true.
Proof.
  induction 1 as [|a l Hl IH Hhd]; [done|].
  destruct l as [|b l]; [done|]. apply HdRel_inv in Hhd.
  change (negb (less b a) && isSortedBy less (b :: l) = true).
  by rewrite Hhd, IH.
Qed.

Lemma sort_Slice_sorted (l : list A) : isSortedBy less (sort_Slice less l) = true.
Proof.
  apply isSortedBy_Sorted. unfold sort_Slice.
  apply (Sorted_reverse (fun later earlier => less later earlier = false)).
  generalize (@nil A) (Sorted_nil (fun later earlier : A => less later earlier = false)).
  induction l as [|x l IH]; intros front Hfront; cbn; [done|].
  apply IH. by apply sift_Sorted.
Qed.

Lemma sort_Slice_Permutation (l : list A) : sort_Slice less l ≡ₚ l.
Proof.
  unfold sort_Slice. rewrite reverse_Permutation.
  assert (forall front, foldl (fun front x => sift less x front) front l ≡ₚ front ++ l)
    as Hfold; [|by rewrite Hfold].
  induction l as [|x l IH]; intros front; cbn; [by rewrite app_nil_r|].
  rewrite IH, sift_Permutation. cbn. apply Permutation_middle.
Qed.

End SortFacts.

Section RosterFacts.
Context `{External}.

Lemma ltb_asym (a b : string) : String.ltb a b = true -> String.ltb b a = false.
Proof.
  unfold String.ltb. rewrite (String.compare_antisym b a).
  by destruct (String.compare a b).
Qed.

Lemma lessByName_asym (a b : manifest.User) :
  manifest.lessByName a b = true -> manifest.lessByName b a = false.
Proof. apply ltb_asym. Qed.

Lemma lessByNameThenKey_asym (a b : manifest.User) :
  manifest.lessByNameThenKey a b = true -> manifest.lessByNameThenKey b a = false.
Proof.
  unfold manifest.lessByNameThenKey.
  destruct (decide (manifest.Name a = manifest.Name b)) as [Heq|Hne].
  - rewrite decide_True by done. apply ltb_asym.
  - rewrite decide_False by done. apply ltb_asym.
Qed.

(** What [AddUser] does keep: the users it had and the new one, in an order
    in which no name comes before a smaller name. *)
Lemma AddUser_Ok (name pubKey : string) (m m' : manifest.Manifest) :
  manifest.AddUser name pubKey m = (Ok tt, m') ->
  manifest.AccessControl m' ≡ₚ
    manifest.AccessControl m ++
      [{| manifest.Name := strings_TrimSpace name;
          manifest.PublicKey := strings_TrimSpace pubKey |}] /\
  isSortedBy manifest.lessByName (manifest.AccessControl m') = true.
Proof.
  unfold manifest.AddUser. repeat case_decide; try done.
  destruct (existsb _ _); [done|]. intros [= <-]. cbn. split.
  - apply sort_Slice_Permutation.
  - apply sort_Slice_sorted, lessByName_asym.
Qed.

(** The load-time normalization orders by name, then by public key. *)
Lemma normalizeInPlace_sorted (m : manifest.Manifest) :
  isSortedBy manifest.lessByNameThenKey
    (manifest.AccessControl (manifest.normalizeInPlace m)) = true.
Proof. apply sort_Slice_sorted, lessByNameThenKey_asym. Qed.

End RosterFacts.

(** C6 at the roster with one user named bob: adding a second bob, whose
    public key is smaller, succeeds and leaves the two in the order of
    arrival.  The list is in order of name, it is not in order of name then
    public key, and the normalization that runs at the next load puts the
    two the other way round. *)
Theorem AddUser_same_name_keeps_arrival_order :
  exists m',
    @manifest.AddUser Sim_libs "bob" "age1aaa" Sample.rosterBob = (Ok tt, m') /\
    manifest.AccessControl m'
    = [ {| manifest.Name := "bob"; manifest.PublicKey := "age1zzz" |};
        {| manifest.Name := "bob"; manifest.PublicKey := "age1aaa" |} ] /\
    isSortedBy manifest.lessByName (manifest.AccessControl m') = true /\
    isSortedBy manifest.lessByNameThenKey (manifest.AccessControl m') = false /\
    manifest.AccessControl (@manifest.normalizeInPlace Sim_libs m')
    = [ {| manifest.Name := "bob"; manifest.PublicKey := "age1aaa" |};
        {| manifest.Name := "bob"; manifest.PublicKey := "age1zzz" |} ].
Proof. eexists. repeat split; vm_compute; reflexivity. Qed.

(** ** The seal marker, and reading back what was set *)

Section MarkerFacts.
Context `{External}.

Lemma append_cons (c : ascii) (a b : string) : String c a +:+ b = String c (a +:+ b).
Proof. reflexivity. Qed.

Lemma append_nil (b : string) : "" +:+ b = b.
Proof. reflexivity. Qed.

Lemma length_append (a b : string) :
  String.length (a +:+ b) = String.length a + String.length b.
Proof.
  induction a as [|c a IH]; [done|]. rewrite append_cons. cbn. by rewrite IH.
Qed.

Lemma substring_append_l (a b : string) :
  substring 0 (String.length a) (a +:+ b) = a.
Proof.
  induction a as [|c a IH]; [rewrite append_nil; by destruct b|].
  rewrite append_cons. cbn. by rewrite IH.
Qed.

Lemma substring_append_r (a b : string) :
  substring (String.length a) (String.length b) (a +:+ b) = b.
Proof.
  induction a as [|c a IH]; [|by rewrite append_cons].
  rewrite append_nil. cbn.
  induction b as [|c b IHb]; cbn; [done|]. by rewrite IHb.
Qed.

(** A wrapped value carries the marker, and the text between prefix and
    suffix is the text that was wrapped. *)
Lemma decryptIfNeeded_wrapEncrypted (cipherText : string) (dek : list byte) :
  config.decryptIfNeeded (config.wrapEncrypted cipherText) dek
  = crypto.DecryptValue cipherText dek.
Proof.
  unfold config.decryptIfNeeded, config.wrapEncrypted.
  assert (strings_HasPrefix (config.encPrefix +:+ cipherText +:+ config.encSuffix)
            config.encPrefix = true) as ->
    by (apply String.prefix_correct, substring_append_l).
  assert (strings_HasSuffix (config.encPrefix +:+ cipherText +:+ config.encSuffix)
            config.encSuffix = true) as ->.
  { unfold strings_HasSuffix. apply andb_true_intro. split.
    - apply Nat.leb_le. rewrite !length_append. cbn. lia.
    - apply String.eqb_eq.
      replace (config.encPrefix +:+ cipherText +:+ config.encSuffix)
        with ((config.encPrefix +:+ cipherText) +:+ config.encSuffix) by reflexivity.
      rewrite length_append.
      replace (_ + _ - _) with (String.length (config.encPrefix +:+ cipherText)) by lia.
      apply substring_append_r. }
  cbn [negb orb]. f_equal. unfold slice.
  rewrite !length_append.
  replace (_ - _ - _) with (String.length cipherText) by (cbn; lia).
  change (substring 0 (String.length cipherText) (cipherText +:+ config.encSuffix)
          = cipherText).
  apply substring_append_l.
Qed.

(** After [SetSecret] has stored a value, [GetSecret] with the same name
    reads it back. *)
Lemma GetSecret_SetSecret (key value : string) (sf sf' : config.SecretFile)
    (e e' : Entropy) :
  rand_exact -> base64_roundtrip ->
  aead_roundtrip crypto.dekSize crypto.NonceSize ->
  config.SetSecret key value sf e = (Ok tt, sf', e') ->
  fst (config.GetSecret key sf') = Ok value.
Proof.
  intros Hrand Hb64 Haead. unfold config.SetSecret.
  destruct (config.decryptedDEK sf) as [dek|] eqn:Hdek; [|done].
  case_decide as Hempty; [done|].
  destruct (config.reserved (strings_TrimSpace key)) eqn:Hres; [done|].
  pose proof (reserved_false _ Hres) as [Hmeta Hsecrets].
  destruct (crypto.EncryptValue value (config.dekBytes sf) e)
    as [[sealed|err] e1] eqn:Henc; [|done].
  assert (crypto.DecryptValue sealed dek = Ok value) as Hdec.
  { assert (config.dekBytes sf = dek) as Hbytes
      by (unfold config.dekBytes; by rewrite Hdek).
    rewrite Hbytes in Henc.
    apply EncryptValue_Ok_inv in Henc as (Hlen & nonce & Hr & ->).
    apply DecryptValue_sealed; try done. by apply Hrand in Hr. }
  assert (config.decryptedDEK (snd (config.ensureSecretsMap true sf)) = Some dek) as Hdek1.
  { unfold config.ensureSecretsMap.
    destruct (config.RawData sf !! config.SecretsKey) as [[| | | | |m|legacy|]|]; try done.
    by destruct (config.convertLegacy legacy ∅). }
  destruct (config.ensureSecretsMap true sf) as [[[secrets|]|err] sf1] eqn:Hensure;
    [| |done].
  - intros [= <- <-]. cbn in Hdek1. unfold config.GetSecret. cbn. rewrite Hdek1.
    rewrite decide_False by done. rewrite Hres.
    unfold config.ensureSecretsMap. cbn.
    rewrite lookup_delete_ne by done. rewrite lookup_insert_eq. cbn.
    rewrite lookup_insert_eq. cbn. unfold config.dekBytes. cbn. rewrite Hdek1. cbn.
    by rewrite decryptIfNeeded_wrapEncrypted.
  - exfalso. unfold config.ensureSecretsMap in Hensure.
    destruct (config.RawData sf !! config.SecretsKey) as [[| | | | |m|legacy|]|];
      try done.
    by destruct (config.convertLegacy legacy ∅).
Qed.

End MarkerFacts.

(** ** The scenario of the specification, run with the stand-ins

    A vault is initialized for alice and ["K"] is set to ["v"]; alice unlocks
    and reads ["v"].  The DEK is rewrapped for alice and bob: bob unlocks.
    The key is rotated towards bob alone: alice is denied, bob unlocks and
    still reads ["v"]. *)
Example scenario :
  let new := config.NewSecretFile "secrets.enc.yaml" in
  let '(_, sf, tape) := @config.Init Sim_libs ["age1alice"] new (Sim.tape 44) in
  let '(_, sf, _) := @config.SetSecret Sim_libs "K" "v" sf tape in
  let stored := config.Lock sf in
  let '(unlockA, sfA) := @config.Unlock Sim_libs (Some "alice") stored in
  let '(_, rewrapped, _) := @config.RotateRecipients Sim_libs ["age1alice"; "age1bob"] sfA [] in
  let '(unlockB, _) := @config.Unlock Sim_libs (Some "bob") (config.Lock rewrapped) in
  let '(rotated, sfR, _) :=
    @commands.rotateKey Sim_libs map_to_list ["age1bob"] rewrapped (Sim.tapeOf x07 44) in
  let '(unlockA', _) := @config.Unlock Sim_libs (Some "alice") (config.Lock sfR) in
  let '(unlockB', sfB) := @config.Unlock Sim_libs (Some "bob") (config.Lock sfR) in
  unlockA = Ok tt /\
  fst (@config.GetSecret Sim_libs "K" sfA) = Ok "v" /\
  unlockB = Ok tt /\
  rotated = Ok tt /\
  unlockA' = Err ErrAccessDenied /\
  unlockB' = Ok tt /\
  fst (@config.GetSecret Sim_libs "K" sfB) = Ok "v" /\
  config.decryptedDEK sfB <> config.decryptedDEK sfA.
Proof. vm_compute. repeat split; discriminate. Qed.

(** * Further properties of the code *)

(** ** Package crypto *)

Section CryptoMore.
Context `{External}.

Lemma parseRecipients_loop_Ok (pubKeys : list string) (rs : list X25519Recipient) :
  crypto.parseRecipients_loop pubKeys = Ok rs <->
  Forall2 (fun k r => age_ParseX25519Recipient k = Some r) pubKeys rs.
Proof.
  revert rs. induction pubKeys as [|k rest IH]; intros rs; cbn.
  - split; [intros [= <-]; constructor | by inversion 1].
  - destruct (age_ParseX25519Recipient k) as [r|] eqn:Hk.
    + destruct (crypto.parseRecipients_loop rest) as [rs'|err] eqn:Hrest; cbn.
      * split.
        -- intros [= <-]. constructor; [done|]. by apply IH.
        -- inversion 1 as [|? r' ? rs'' Hr Hrs]; subst.
           apply IH in Hrs. congruence.
      * split; [done|]. inversion 1 as [|? r' ? rs'' Hr Hrs]; subst.
        apply IH in Hrs. congruence.
    + split; [done|]. inversion 1; congruence.
Qed.

Lemma parseRecipients_loop_Err (pubKeys : list string) (k : string) :
  k ∈ pubKeys -> age_ParseX25519Recipient k = None ->
  is_Err (crypto.parseRecipients_loop pubKeys).
Proof.
  intros Hin Hk. induction pubKeys as [|k' rest IH]; [by inversion Hin|].
  cbn. apply elem_of_cons in Hin as [<-|Hin].
  - rewrite Hk. by eexists.
  - destruct (age_ParseX25519Recipient k'); [|by eexists].
    destruct (IH Hin) as [err ->]. by eexists.
Qed.

End CryptoMore.

(** X1. [DecryptValue] returns a plaintext exactly when the DEK has 32 bytes,
    the text is base64 of at least a nonce of bytes, and the AEAD opens what
    follows the nonce under that nonce and DEK; the plaintext is then what
    the AEAD opened.  A DEK of another size is refused first, with the size
    in the error. *)
Theorem DecryptValue_Ok_iff `{External} (encryptedBase64 plaintext : string)
    (dek : list byte) :
  (crypto.DecryptValue encryptedBase64 dek = Ok plaintext <->
   length dek = 32 /\
   exists data opened,
     base64_DecodeString encryptedBase64 = Some data /\
     crypto.NonceSize <= length data /\
     aead_Open dek (take crypto.NonceSize data) (drop crypto.NonceSize data) = Some opened /\
     plaintext = string_of_list_byte opened) /\
  (length dek <> 32 ->
   crypto.DecryptValue encryptedBase64 dek = Err (ErrInvalidDEKSize (length dek))).
Proof.
  unfold crypto.DecryptValue, crypto.validateDEK, crypto.chacha20poly1305_New.
  change crypto.dekSize with 32.
  destruct (decide (length dek = 32)) as [Hlen|Hlen]; cbn.
  - split; [|done]. split.
    + destruct (base64_DecodeString encryptedBase64) as [data|]; [|done].
      case_decide as Hshort; [done|].
      destruct (aead_Open _ _ _) as [opened|] eqn:Hopen; [|done].
      intros [= <-]. split; [done|]. exists data, opened. repeat split; [lia|done].
    + intros (_ & data & opened & -> & Hge & Hopen & ->).
      rewrite decide_False by lia. by rewrite Hopen.
  - split; [|done]. split; [done|]. by intros [? _].
Qed.

(** X2. [EncryptDEK] checks before it encrypts: with a DEK that is not 32
    bytes long, with no recipient, or with a recipient that does not parse,
    it fails and the entropy source is not touched.  When it returns an
    armored text, the DEK had 32 bytes, every key parsed and [age.Encrypt]
    produced that text for the parsed recipients. *)
Theorem EncryptDEK_validates_first `{External} (dek : list byte)
    (recipientPubKeys : list string) (e : Entropy) :
  (length dek <> 32 \/ recipientPubKeys = [] \/
   (exists k, k ∈ recipientPubKeys /\ age_ParseX25519Recipient k = None) ->
   exists err, crypto.EncryptDEK dek recipientPubKeys e = (Err err, e)) /\
  (forall armored e',
     crypto.EncryptDEK dek recipientPubKeys e = (Ok armored, e') ->
     length dek = 32 /\ recipientPubKeys <> [] /\
     exists recipients,
       Forall2 (fun k r => age_ParseX25519Recipient k = Some r)
               recipientPubKeys recipients /\
       age_Encrypt recipients dek e = (Some armored, e')).
Proof.
  unfold crypto.EncryptDEK, crypto.validateDEK, crypto.parseRecipients,
    crypto.encryptToAge.
  change crypto.dekSize with 32. split.
  - intros [Hlen|[->|(k & Hin & Hk)]].
    + rewrite decide_False by done. by eexists.
    + case_decide; by eexists.
    + case_decide; [|by eexists].
      destruct recipientPubKeys as [|k0 rest]; [by eexists|].
      destruct (parseRecipients_loop_Err (k0 :: rest) k Hin Hk) as [err ->].
      by eexists.
  - intros armored e'. case_decide as Hlen; [|done].
    destruct recipientPubKeys as [|k0 rest]; [done|].
    destruct (crypto.parseRecipients_loop (k0 :: rest)) as [rs|err] eqn:Hparse; [|done].
    destruct (age_Encrypt rs dek e) as [[a|] e1] eqn:Henc; intros [= <- <-].
    split; [done|]. split; [done|]. exists rs. split; [|done].
    by apply parseRecipients_loop_Ok.
Qed.

Lemma EncryptDEK_validates_first_witness :
  (exists err, @crypto.EncryptDEK Sim_libs Sim.key0 ["age1alice"; "bogus"] (Sim.tape 8)
               = (Err err, Sim.tape 8)) /\
  (exists err, @crypto.EncryptDEK Sim_libs [] ["age1alice"] (Sim.tape 8)
               = (Err err, Sim.tape 8)).
Proof.
  split.
  - apply (proj1 (@EncryptDEK_validates_first Sim_libs Sim.key0
                    ["age1alice"; "bogus"] (Sim.tape 8))).
    right. right. exists "bogus". split; [|reflexivity].
    apply list_elem_of_In. cbn. auto.
  - apply (proj1 (@EncryptDEK_validates_first Sim_libs []
                    ["age1alice"] (Sim.tape 8))).
    left. cbn. discriminate.
Defined.

(** ** The secret file: storing, reading and removing *)

Section VaultMore.
Context `{External}.

(** With [create = true] the map handed back is the one the read
    operations see, and it is stored under the secrets key. *)
Lemma ensureSecretsMap_true_Ok (sf sf1 : config.SecretFile)
    (found : option (gmap string any)) :
  config.ensureSecretsMap true sf = (Ok found, sf1) ->
  found = Some (secretsOf sf) /\
  config.RawData sf1 = <[config.SecretsKey := AMapString (secretsOf sf)]> (config.RawData sf) /\
  config.decryptedDEK sf1 = config.decryptedDEK sf /\
  config.path sf1 = config.path sf.
Proof.
  unfold secretsOf, config.ensureSecretsMap.
  destruct (config.RawData sf !! config.SecretsKey) as [[| | | | |m|legacy|]|] eqn:Hs;
    try done; cbn.
  - by intros [= <- <-].
  - intros [= <- <-]. repeat split. by rewrite insert_id.
  - destruct (config.convertLegacy legacy ∅); [|done]. by intros [= <- <-].
  - by intros [= <- <-].
Qed.

Lemma ensureSecretsMap_true_Err (sf sf1 : config.SecretFile) (err : error) :
  config.ensureSecretsMap true sf = (Err err, sf1) -> sf1 = sf.
Proof.
  unfold config.ensureSecretsMap.
  destruct (config.RawData sf !! config.SecretsKey) as [[| | | | |m|legacy|]|];
    try done; try by intros [= <- <-].
  destruct (config.convertLegacy legacy ∅); [done|]. by intros [= <- <-].
Qed.

(** The secrets the read operations see in a document whose secrets key
    holds the map [m]. *)
Lemma secretsOf_insert (m : gmap string any) (raw : gmap string any)
    (sf : config.SecretFile) :
  secretsOf (config.set_RawData (<[config.SecretsKey := AMapString m]> raw) sf) = m.
Proof.
  unfold secretsOf, config.ensureSecretsMap. cbn. by rewrite lookup_insert_eq.
Qed.

Lemma secretsOf_delete (k : string) (raw : gmap string any) (sf : config.SecretFile) :
  k <> config.SecretsKey ->
  secretsOf (config.set_RawData (delete k raw) sf) = secretsOf (config.set_RawData raw sf).
Proof.
  intros Hk. unfold secretsOf.
  by rewrite (ensureSecretsMap_fst false (config.set_RawData (delete k raw) sf)
                (config.set_RawData raw sf)) by (cbn; by rewrite lookup_delete_ne).
Qed.

(** What [SetSecret] leaves when it succeeds. *)
Lemma SetSecret_Ok_inv (key value : string) (sf sf' : config.SecretFile) (e e' : Entropy) :
  config.SetSecret key value sf e = (Ok tt, sf', e') ->
  let k := strings_TrimSpace key in
  config.IsUnlocked sf = true /\ k <> "" /\ config.reserved k = false /\
  exists sealed,
    crypto.EncryptValue value (config.dekBytes sf) e = (Ok sealed, e') /\
    config.decryptedDEK sf' = config.decryptedDEK sf /\
    config.path sf' = config.path sf /\
    config.RawData sf' =
      delete k (<[config.SecretsKey :=
                    AMapString (<[k := AString (config.wrapEncrypted sealed)]> (secretsOf sf))]>
                  (config.RawData sf)).
Proof.
  unfold config.SetSecret, config.IsUnlocked.
  destruct (config.decryptedDEK sf) as [dek|] eqn:Hdek; [|done].
  case_decide as Hempty; [done|].
  destruct (config.reserved (strings_TrimSpace key)) eqn:Hres; [done|].
  destruct (crypto.EncryptValue value (config.dekBytes sf) e)
    as [[sealed|err] e1] eqn:Henc; [|done].
  destruct (config.ensureSecretsMap true sf) as [[found|err] sf1] eqn:Hensure; [|done].
  apply ensureSecretsMap_true_Ok in Hensure as (-> & Hraw & Hdek1 & Hpath).
  intros [= <- <-]. cbn. repeat split; try done. exists sealed.
  split; [done|]. split; [congruence|]. split; [done|].
  by rewrite Hraw, insert_insert_eq.
Qed.

(** The stored entries of a document after an assignment into the secrets
    map and the removal of the top-level entry of the same name. *)
Lemma storedEntry_set (k k' : string) (v : any) (m raw : gmap string any)
    (sf : config.SecretFile) :
  config.reserved k = false ->
  storedEntry
    (config.set_RawData (delete k (<[config.SecretsKey := AMapString (<[k := v]> m)]> raw)) sf)
    k'
  = if decide (k' = k) then Some v
    else match m !! k' with
         | Some v' => Some v'
         | None => if config.reserved k' then None else raw !! k'
         end.
Proof.
  intros Hres. pose proof (reserved_false _ Hres) as [Hmeta Hsecrets].
  unfold storedEntry. rewrite secretsOf_delete by done.
  rewrite secretsOf_insert. cbn.
  case_decide as Hk; [subst k'; by rewrite lookup_insert_eq|].
  rewrite lookup_insert_ne by done. destruct (m !! k'); [done|].
  destruct (config.reserved k') eqn:Hres'; [done|].
  pose proof (reserved_false _ Hres') as [_ Hs'].
  rewrite lookup_delete_ne by done. by rewrite lookup_insert_ne.
Qed.

Lemma storedEntry_unset (k k' : string) (m raw : gmap string any)
    (sf : config.SecretFile) :
  config.reserved k = false ->
  storedEntry
    (config.set_RawData (delete k (<[config.SecretsKey := AMapString (delete k m)]> raw)) sf)
    k'
  = if decide (k' = k) then None
    else match m !! k' with
         | Some v' => Some v'
         | None => if config.reserved k' then None else raw !! k'
         end.
Proof.
  intros Hres. pose proof (reserved_false _ Hres) as [Hmeta Hsecrets].
  unfold storedEntry. rewrite secretsOf_delete by done.
  rewrite secretsOf_insert. cbn.
  case_decide as Hk.
  - subst k'. rewrite lookup_delete_eq, Hres. by rewrite lookup_delete_eq.
  - rewrite lookup_delete_ne by done. destruct (m !! k'); [done|].
    destruct (config.reserved k') eqn:Hres'; [done|].
    pose proof (reserved_false _ Hres') as [_ Hs'].
    rewrite lookup_delete_ne by done. by rewrite lookup_insert_ne.
Qed.

(** [GetSecret] in terms of the stored entries. *)
Lemma GetSecret_storedEntry (key : string) (sf : config.SecretFile) :
  config.IsUnlocked sf = true ->
  strings_TrimSpace key <> "" ->
  config.reserved (strings_TrimSpace key) = false ->
  fst (config.GetSecret key sf) =
    match storedEntry sf (strings_TrimSpace key) with
    | Some v => config.decryptAnyLocked v sf
    | None => Err ErrKeyNotFound
    end.
Proof.
  intros Hunlocked Hempty Hres. unfold config.IsUnlocked in Hunlocked.
  unfold config.GetSecret, storedEntry, secretsOf.
  destruct (config.decryptedDEK sf) as [dek|] eqn:Hdek; [|done].
  rewrite decide_False by done. rewrite Hres.
  pose proof (reserved_false _ Hres) as [Hmeta Hsecrets].
  pose proof (ensureSecretsMap_false_frame sf) as (Hd & _ & Hraw).
  destruct (config.ensureSecretsMap false sf) as [found sf1]. cbn in Hd, Hraw |- *.
  assert (forall v, config.decryptAnyLocked v sf1 = config.decryptAnyLocked v sf) as Hany
    by (intros v; by apply decryptAnyLocked_same).
  rewrite Hraw by done.
  destruct found as [[secrets|]|err]; cbn.
  - destruct (secrets !! strings_TrimSpace key); cbn; [by rewrite Hany|].
    destruct (config.RawData sf !! strings_TrimSpace key); cbn; [by rewrite Hany|done].
  - rewrite lookup_empty.
    destruct (config.RawData sf !! strings_TrimSpace key); cbn; [by rewrite Hany|done].
  - rewrite lookup_empty.
    destruct (config.RawData sf !! strings_TrimSpace key); cbn; [by rewrite Hany|done].
Qed.

End VaultMore.

Section VaultMoreFacts.
Context `{External}.

Lemma SecretFile_eta (sf : config.SecretFile) :
  sf = config.set_RawData (config.RawData sf) sf.
Proof. by destruct sf. Qed.

Lemma storedEntry_after_set (key value : string) (sf sf' : config.SecretFile)
    (e e' : Entropy) (k' : string) :
  config.SetSecret key value sf e = (Ok tt, sf', e') ->
  k' <> strings_TrimSpace key ->
  storedEntry sf' k' = storedEntry sf k'.
Proof.
  intros Hset Hk'. apply SetSecret_Ok_inv in Hset as (_ & _ & Hres & sealed & _ & _ & _ & Hraw).
  rewrite (SecretFile_eta sf'), Hraw, storedEntry_set by done.
  by rewrite decide_False.
Qed.

Lemma UnsetSecret_Ok_inv (key : string) (sf sf' : config.SecretFile) :
  config.UnsetSecret key sf = (Ok tt, sf') ->
  let k := strings_TrimSpace key in
  config.IsUnlocked sf = true /\ k <> "" /\ config.reserved k = false /\
  storedEntry sf k <> None /\
  config.decryptedDEK sf' = config.decryptedDEK sf /\
  config.path sf' = config.path sf /\
  config.RawData sf' =
    delete k (<[config.SecretsKey := AMapString (delete k (secretsOf sf))]>
                (config.RawData sf)).
Proof.
  unfold config.UnsetSecret, config.IsUnlocked.
  destruct (config.decryptedDEK sf) as [dek|] eqn:Hdek; [|done].
  case_decide as Hempty; [done|].
  destruct (config.reserved (strings_TrimSpace key)) eqn:Hres; [done|].
  pose proof (reserved_false _ Hres) as [Hmeta Hsecrets].
  destruct (config.ensureSecretsMap true sf) as [[found|err] sf1] eqn:Hensure; [|done].
  apply ensureSecretsMap_true_Ok in Hensure as (-> & Hraw & Hdek1 & Hpath).
  assert (config.RawData sf1 !! strings_TrimSpace key
          = config.RawData sf !! strings_TrimSpace key) as Hlegacy
    by (by rewrite Hraw, lookup_insert_ne).
  assert (storedEntry sf (strings_TrimSpace key)
          = match secretsOf sf !! strings_TrimSpace key with
            | Some v => Some v
            | None => config.RawData sf1 !! strings_TrimSpace key
            end) as Hst
    by (unfold storedEntry; by rewrite Hres, Hlegacy).
  cbn zeta. rewrite Hst.
  destruct (secretsOf sf !! strings_TrimSpace key) eqn:Hs,
           (config.RawData sf1 !! strings_TrimSpace key) eqn:Hl;
    intros [= <-]; cbn; repeat split; try done;
    try congruence; by rewrite Hraw, insert_insert_eq.
Qed.

Lemma DecryptValue_not_KeyNotFound (cipherText : string) (dek : list byte) :
  crypto.DecryptValue cipherText dek <> Err ErrKeyNotFound.
Proof.
  unfold crypto.DecryptValue, crypto.validateDEK, crypto.chacha20poly1305_New.
  case_decide; cbn; [|done].
  destruct (base64_DecodeString cipherText); [|done].
  case_decide; [done|]. by destruct (aead_Open _ _ _).
Qed.

Lemma decryptAnyLocked_not_KeyNotFound (v : any) (sf : config.SecretFile) :
  config.decryptAnyLocked v sf <> Err ErrKeyNotFound.
Proof.
  unfold config.decryptAnyLocked, config.decryptIfNeeded. destruct v; try done.
  destruct (_ || _); [done|]. apply DecryptValue_not_KeyNotFound.
Qed.

End VaultMoreFacts.

(** X3. What [SetSecret] stores, [GetSecret] reads back: after a successful
    [SetSecret key value], [GetSecret key] returns [value].  The document
    holds the value under the trimmed name as a string with the seal marker,
    in the secrets map, and no top-level entry of that name is left.  The
    AEAD, base64 and the entropy source are assumed to meet their
    contracts. *)
Theorem SetSecret_then_GetSecret `{External} (key value : string)
    (sf sf' : config.SecretFile) (e e' : Entropy) :
  rand_exact -> base64_roundtrip ->
  aead_roundtrip crypto.dekSize crypto.NonceSize ->
  config.SetSecret key value sf e = (Ok tt, sf', e') ->
  fst (config.GetSecret key sf') = Ok value /\
  (exists sealed,
     secretsOf sf' !! strings_TrimSpace key = Some (AString (config.wrapEncrypted sealed)) /\
     crypto.DecryptValue sealed (config.dekBytes sf') = Ok value) /\
  config.RawData sf' !! strings_TrimSpace key = None.
Proof.
  intros Hrand Hb64 Haead Hset. split; [by eapply GetSecret_SetSecret|].
  pose proof (SetSecret_Ok_inv _ _ _ _ _ _ Hset)
    as (Hunlocked & _ & Hres & sealed & Henc & Hdek & _ & Hraw).
  pose proof (reserved_false _ Hres) as [_ Hsecrets].
  split.
  - exists sealed. split.
    + rewrite (SecretFile_eta sf'), Hraw, secretsOf_delete by done.
      rewrite secretsOf_insert. by rewrite lookup_insert_eq.
    + unfold config.dekBytes in *. rewrite Hdek.
      apply EncryptValue_Ok_inv in Henc as (Hlen & nonce & Hr & ->).
      apply DecryptValue_sealed; try done. by apply Hrand in Hr.
  - rewrite Hraw. apply lookup_delete_eq.
Qed.

Lemma SetSecret_then_GetSecret_witness :
  let '(r, sf', _) :=
    @config.SetSecret Sim_libs " TOKEN " "s3cret" Sample.docOneSecret (Sim.tape 12) in
  r = Ok tt /\ fst (@config.GetSecret Sim_libs " TOKEN " sf') = Ok "s3cret".
Proof.
  destruct (@config.SetSecret Sim_libs " TOKEN " "s3cret" Sample.docOneSecret (Sim.tape 12))
    as [[r sf'] e'] eqn:Hset.
  assert (r = Ok tt) as ->.
  { assert (fst (fst (@config.SetSecret Sim_libs " TOKEN " "s3cret"
                        Sample.docOneSecret (Sim.tape 12))) = Ok tt) as Hr
      by (vm_compute; reflexivity).
    by rewrite Hset in Hr. }
  split; [reflexivity|].
  exact (proj1 (@SetSecret_then_GetSecret Sim_libs " TOKEN " "s3cret"
                  Sample.docOneSecret sf' (Sim.tape 12) e'
                  Sim_rand_exact Sim_base64_roundtrip (Sim_aead_roundtrip _ _) Hset)).
Defined.

(** X4. [SetSecret] touches one name only: after a successful
    [SetSecret key value] the DEK and the metadata block are the same, every
    other name has the stored entry it had, and [GetSecret] of any key that
    trims to another name returns what it returned before. *)
Theorem SetSecret_other_names `{External} (key value : string)
    (sf sf' : config.SecretFile) (e e' : Entropy) :
  config.SetSecret key value sf e = (Ok tt, sf', e') ->
  config.decryptedDEK sf' = config.decryptedDEK sf /\
  config.RawData sf' !! config.MetadataKey = config.RawData sf !! config.MetadataKey /\
  (forall k', k' <> strings_TrimSpace key -> storedEntry sf' k' = storedEntry sf k') /\
  (forall key', strings_TrimSpace key' <> strings_TrimSpace key ->
                fst (config.GetSecret key' sf') = fst (config.GetSecret key' sf)).
Proof.
  intros Hset.
  pose proof (SetSecret_Ok_inv _ _ _ _ _ _ Hset)
    as (Hunlocked & _ & Hres & sealed & _ & Hdek & _ & Hraw).
  pose proof (reserved_false _ Hres) as [Hmeta _].
  split; [done|]. split.
  { rewrite Hraw, lookup_delete_ne by done. by rewrite lookup_insert_ne. }
  split; [intros k' Hk'; by eapply storedEntry_after_set|].
  intros key' Hkey'.
  assert (config.IsUnlocked sf' = true) as Hunlocked'
    by (unfold config.IsUnlocked in *; by rewrite Hdek).
  destruct (decide (strings_TrimSpace key' = "")) as [Hempty|Hempty].
  { unfold config.GetSecret, config.IsUnlocked in *. rewrite Hdek.
    destruct (config.decryptedDEK sf); [|done]. by rewrite !decide_True. }
  destruct (config.reserved (strings_TrimSpace key')) eqn:Hres'.
  { unfold config.GetSecret, config.IsUnlocked in *. rewrite Hdek.
    destruct (config.decryptedDEK sf); [|done].
    rewrite !decide_False by done. by rewrite Hres'. }
  rewrite !GetSecret_storedEntry by done.
  rewrite (storedEntry_after_set _ _ _ _ _ _ _ Hset Hkey').
  destruct (storedEntry sf _); [|done]. by apply decryptAnyLocked_same.
Qed.

Lemma SetSecret_other_names_witness :
  let '(_, sf', _) :=
    @config.SetSecret Sim_libs "TOKEN" "s3cret" Sample.docOneSecret (Sim.tape 12) in
  fst (@config.GetSecret Sim_libs "K" sf') = Ok "v".
Proof.
  destruct (@config.SetSecret Sim_libs "TOKEN" "s3cret" Sample.docOneSecret (Sim.tape 12))
    as [[r sf'] e'] eqn:Hset.
  assert (r = Ok tt) as ->.
  { assert (fst (fst (@config.SetSecret Sim_libs "TOKEN" "s3cret"
                        Sample.docOneSecret (Sim.tape 12))) = Ok tt) as Hr
      by (vm_compute; reflexivity).
    by rewrite Hset in Hr. }
  destruct (@SetSecret_other_names Sim_libs "TOKEN" "s3cret"
              Sample.docOneSecret sf' (Sim.tape 12) e' Hset) as (_ & _ & _ & Hget).
  rewrite (Hget "K"); [vm_compute; reflexivity | vm_compute; discriminate].
Defined.

(** X5. A [SetSecret] that fails changes nothing in the vault, whatever the
    reason (locked vault, empty or reserved name, failure of the entropy
    source, a secrets entry of an invalid shape); on a locked vault the error
    is [ErrLocked], before the name is looked at. *)
Theorem SetSecret_failure_changes_nothing `{External} (key value : string)
    (sf : config.SecretFile) (e : Entropy) :
  (forall err sf' e', config.SetSecret key value sf e = (Err err, sf', e') -> sf' = sf) /\
  (config.IsUnlocked sf = false ->
   config.SetSecret key value sf e = (Err ErrLocked, sf, e)) /\
  (config.IsUnlocked sf = true -> strings_TrimSpace key = "" ->
   config.SetSecret key value sf e = (Err ErrKeyEmpty, sf, e)) /\
  (config.IsUnlocked sf = true -> config.reserved (strings_TrimSpace key) = true ->
   config.SetSecret key value sf e = (Err (ErrReservedName (strings_TrimSpace key)), sf, e)).
Proof.
  unfold config.SetSecret, config.IsUnlocked.
  destruct (config.decryptedDEK sf) as [dek|] eqn:Hdek.
  - split; [|split; [done|split]].
    + intros err sf' e'. case_decide; [by intros [= <- <- <-]|].
      destruct (config.reserved _); [by intros [= <- <- <-]|].
      destruct (crypto.EncryptValue _ _ _) as [[sealed|err1] e1]; [|by intros [= <- <- <-]].
      destruct (config.ensureSecretsMap true sf) as [[[secrets|]|err1] sf1] eqn:Hensure;
        try done.
      apply ensureSecretsMap_true_Err in Hensure. by intros [= <- <- <-].
    + intros _ ->. by rewrite decide_True.
    + intros _ Hres. case_decide as Hempty.
      * rewrite Hempty in Hres. by vm_compute in Hres.
      * by rewrite Hres.
  - split; [by intros err sf' e' [= <- <- <-]|]. by repeat split.
Qed.

(** X6. [UnsetSecret] removes the name from both places: after a successful
    [UnsetSecret key] nothing is stored under the trimmed name, neither in
    the secrets map nor at the top level, and [GetSecret key] fails with
    [ErrKeyNotFound]; the name was stored before; every other name keeps its
    stored entry and the DEK is the same. *)
Theorem UnsetSecret_removes `{External} (key : string) (sf sf' : config.SecretFile) :
  config.UnsetSecret key sf = (Ok tt, sf') ->
  let k := strings_TrimSpace key in
  storedEntry sf k <> None /\
  storedEntry sf' k = None /\
  secretsOf sf' !! k = None /\ config.RawData sf' !! k = None /\
  fst (config.GetSecret key sf') = Err ErrKeyNotFound /\
  (forall k', k' <> k -> storedEntry sf' k' = storedEntry sf k') /\
  config.decryptedDEK sf' = config.decryptedDEK sf.
Proof.
  intros Hun. cbn zeta.
  apply UnsetSecret_Ok_inv in Hun as (Hunlocked & Hempty & Hres & Hwas & Hdek & _ & Hraw).
  pose proof (reserved_false _ Hres) as [_ Hsecrets].
  assert (forall k', storedEntry sf' k'
            = if decide (k' = strings_TrimSpace key) then None else storedEntry sf k') as Hst.
  { intros k'. rewrite (SecretFile_eta sf'), Hraw, storedEntry_unset by done.
    by case_decide. }
  split; [done|]. split; [by rewrite Hst, decide_True|]. split.
  { rewrite (SecretFile_eta sf'), Hraw, secretsOf_delete by done.
    rewrite secretsOf_insert. apply lookup_delete_eq. }
  split; [rewrite Hraw; apply lookup_delete_eq|]. split.
  { rewrite GetSecret_storedEntry; try done.
    - by rewrite Hst, decide_True.
    - unfold config.IsUnlocked in *. by rewrite Hdek. }
  split; [|done]. intros k' Hk'. by rewrite Hst, decide_False.
Qed.

Lemma UnsetSecret_removes_witness :
  let '(r, sf') := @config.UnsetSecret Sim_libs " GOOD " Sample.docDamagedValue in
  r = Ok tt /\
  fst (@config.GetSecret Sim_libs "GOOD" sf') = Err ErrKeyNotFound /\
  storedEntry sf' "OLD" = Some (AString "plain").
Proof.
  destruct (@config.UnsetSecret Sim_libs " GOOD " Sample.docDamagedValue)
    as [r sf'] eqn:Hun.
  assert (r = Ok tt) as ->.
  { assert (fst (@config.UnsetSecret Sim_libs " GOOD " Sample.docDamagedValue) = Ok tt)
      as Hr by (vm_compute; reflexivity).
    by rewrite Hun in Hr. }
  destruct (@UnsetSecret_removes Sim_libs " GOOD " Sample.docDamagedValue sf' Hun)
    as (_ & Hgone & _ & _ & _ & Hothers & Hdek).
  split; [reflexivity|]. split.
  - rewrite GetSecret_storedEntry.
    + change (@strings_TrimSpace Sim_libs "GOOD") with (@strings_TrimSpace Sim_libs " GOOD ").
      by rewrite Hgone.
    + unfold config.IsUnlocked. by rewrite Hdek.
    + vm_compute. discriminate.
    + reflexivity.
  - rewrite (Hothers "OLD"); [vm_compute; reflexivity | vm_compute; discriminate].
Defined.

Lemma storedEntry_ensured `{External} (sf sf1 : config.SecretFile) (k' : string) :
  config.RawData sf1
  = <[config.SecretsKey := AMapString (secretsOf sf)]> (config.RawData sf) ->
  storedEntry sf1 k' = storedEntry sf k'.
Proof.
  intros Hraw. unfold storedEntry.
  rewrite (SecretFile_eta sf1), Hraw, secretsOf_insert. cbn.
  destruct (secretsOf sf !! k'); [done|].
  destruct (config.reserved k') eqn:Hres'; [done|].
  pose proof (reserved_false _ Hres') as [_ Hs']. by rewrite lookup_insert_ne.
Qed.

Lemma convertLegacy_Err (legacy : list (any * any)) (converted : gmap string any)
    (err : error) :
  config.convertLegacy legacy converted = Err err -> err = ErrSecretsNonStringKey.
Proof.
  revert converted. induction legacy as [|[k v] rest IH]; intros converted; cbn; [done|].
  destruct k; try (by intros [= <-]). apply IH.
Qed.

(** X7. [UnsetSecret] of a name under which nothing is stored, on an
    unlocked vault whose secrets entry has a valid shape and with a name
    that is neither empty nor reserved, fails with the key-does-not-exist
    error; the stored entries and the DEK are what they were.  It fails
    with that error for no other reason. *)
Theorem UnsetSecret_absent `{External} (key : string) (sf : config.SecretFile) :
  config.IsUnlocked sf = true ->
  strings_TrimSpace key <> "" ->
  config.reserved (strings_TrimSpace key) = false ->
  let k := strings_TrimSpace key in
  (storedEntry sf k = None ->
   (forall err, fst (config.ensureSecretsMap true sf) <> Err err) ->
   exists sf',
     config.UnsetSecret key sf = (Err (ErrKeyDoesNotExist k), sf') /\
     (forall k', storedEntry sf' k' = storedEntry sf k') /\
     config.decryptedDEK sf' = config.decryptedDEK sf) /\
  (forall sf' name,
     config.UnsetSecret key sf = (Err (ErrKeyDoesNotExist name), sf') ->
     name = k /\ storedEntry sf k = None).
Proof.
  intros Hunlocked Hempty Hres. cbn zeta.
  pose proof (reserved_false _ Hres) as [Hmeta Hsecrets].
  unfold config.UnsetSecret, config.IsUnlocked in *.
  destruct (config.decryptedDEK sf) as [dek|] eqn:Hdek; [|done].
  rewrite decide_False by done. rewrite Hres.
  destruct (config.ensureSecretsMap true sf) as [[found|err] sf1] eqn:Hensure.
  - apply ensureSecretsMap_true_Ok in Hensure as (-> & Hraw & Hdek1 & Hpath).
    assert (config.RawData sf1 !! strings_TrimSpace key
            = config.RawData sf !! strings_TrimSpace key) as Hlegacy
      by (by rewrite Hraw, lookup_insert_ne).
    assert (storedEntry sf (strings_TrimSpace key)
            = match secretsOf sf !! strings_TrimSpace key with
              | Some v => Some v
              | None => config.RawData sf1 !! strings_TrimSpace key
              end) as Hst
      by (unfold storedEntry; by rewrite Hres, Hlegacy).
    rewrite Hst.
    destruct (secretsOf sf !! strings_TrimSpace key) eqn:Hs,
             (config.RawData sf1 !! strings_TrimSpace key) eqn:Hl; split; try done.
    + intros _ _. exists sf1. split; [done|]. split; [|congruence].
      intros k'. by apply storedEntry_ensured.
    + by intros sf' name [= <- <-].
  - split.
    + intros _ Hshape. by destruct (Hshape err).
    + intros sf' name [= -> <-]. exfalso.
      unfold config.ensureSecretsMap in Hensure.
      destruct (config.RawData sf !! config.SecretsKey) as [[| | | | |m|legacy|]|];
        simplify_eq.
      destruct (config.convertLegacy legacy ∅) as [m|err] eqn:Hconv; simplify_eq.
      by apply convertLegacy_Err in Hconv.
Qed.

Lemma UnsetSecret_absent_witness :
  exists sf',
    @config.UnsetSecret Sim_libs "NOPE" Sample.docOneSecret
    = (Err (ErrKeyDoesNotExist "NOPE"), sf') /\
    storedEntry sf' "K" = storedEntry Sample.docOneSecret "K".
Proof.
  destruct (proj1 (@UnsetSecret_absent Sim_libs "NOPE" Sample.docOneSecret
                     eq_refl ltac:(vm_compute; discriminate) eq_refl))
    as (sf' & Hun & Hsame & _).
  - vm_compute. reflexivity.
  - intros err. vm_compute. discriminate.
  - exists sf'. split; [exact Hun | apply Hsame].
Defined.

(** X8. [GetSecret] by what is stored, on an unlocked vault and for a name
    that is neither empty nor reserved.  It fails with [ErrKeyNotFound]
    exactly when nothing is stored under the trimmed name, so an entry that
    is present and cannot be read is never reported as absent.  An entry of
    the secrets map comes before a top-level entry of the same name.  A
    stored string without the seal marker is returned as it is, and a stored
    value that is not a string gives [ErrValueNotString]. *)
Theorem GetSecret_by_stored_entry `{External} (key : string) (sf : config.SecretFile) :
  config.IsUnlocked sf = true ->
  strings_TrimSpace key <> "" ->
  config.reserved (strings_TrimSpace key) = false ->
  let k := strings_TrimSpace key in
  (fst (config.GetSecret key sf) = Err ErrKeyNotFound <-> storedEntry sf k = None) /\
  (forall v, secretsOf sf !! k = Some v ->
             fst (config.GetSecret key sf) = config.decryptAnyLocked v sf) /\
  (forall s, storedEntry sf k = Some (AString s) ->
             strings_HasPrefix s config.encPrefix && strings_HasSuffix s config.encSuffix
             = false ->
             fst (config.GetSecret key sf) = Ok s) /\
  (forall v, storedEntry sf k = Some v -> (forall s, v <> AString s) ->
             fst (config.GetSecret key sf) = Err ErrValueNotString).
Proof.
  intros Hunlocked Hempty Hres. cbn zeta.
  rewrite GetSecret_storedEntry by done. repeat split.
  - destruct (storedEntry sf _) as [v|]; [|done].
    intros Hv. by apply decryptAnyLocked_not_KeyNotFound in Hv.
  - by intros ->.
  - intros v Hv. unfold storedEntry. by rewrite Hv.
  - intros s -> Hmarker. cbn. unfold config.decryptIfNeeded.
    apply andb_false_iff in Hmarker as [-> | ->]; cbn; [done|].
    by rewrite orb_true_r.
  - intros v -> Hv. destruct v; try done. by destruct (Hv s).
Qed.

Lemma GetSecret_by_stored_entry_witness :
  fst (@config.GetSecret Sim_libs "OLD" Sample.docDamagedValue) = Ok "plain" /\
  fst (@config.GetSecret Sim_libs "BAD" Sample.docDamagedValue) = Err ErrCiphertextShort /\
  (fst (@config.GetSecret Sim_libs "NOPE" Sample.docDamagedValue) = Err ErrKeyNotFound <->
   storedEntry Sample.docDamagedValue "NOPE" = None).
Proof.
  split; [|split].
  - apply (proj1 (proj2 (proj2 (@GetSecret_by_stored_entry Sim_libs "OLD"
             Sample.docDamagedValue eq_refl ltac:(vm_compute; discriminate) eq_refl)))).
    + vm_compute. reflexivity.
    + vm_compute. reflexivity.
  - vm_compute. reflexivity.
  - apply (proj1 (@GetSecret_by_stored_entry Sim_libs "NOPE"
             Sample.docDamagedValue eq_refl ltac:(vm_compute; discriminate) eq_refl)).
Defined.

(** X9. The listing agrees with [GetSecret]: on an unlocked vault, whenever
    [GetSecret key] returns a plaintext, [GetAllSecrets] lists that plaintext
    under the trimmed name. *)
Theorem GetAllSecrets_agrees_with_GetSecret `{External} (key plaintext : string)
    (sf : config.SecretFile) :
  fst (config.GetSecret key sf) = Ok plaintext ->
  exists out sf',
    config.GetAllSecrets sf = (Ok out, sf') /\
    out !! strings_TrimSpace key = Some plaintext.
Proof.
  intros Hget.
  assert (config.IsUnlocked sf = true) as Hunlocked.
  { unfold config.GetSecret, config.IsUnlocked in *.
    by destruct (config.decryptedDEK sf). }
  assert (strings_TrimSpace key <> "" /\ config.reserved (strings_TrimSpace key) = false)
    as [Hempty Hres].
  { unfold config.GetSecret, config.IsUnlocked in *.
    destruct (config.decryptedDEK sf); [|done].
    case_decide; [done|]. by destruct (config.reserved _). }
  rewrite GetSecret_storedEntry in Hget by done.
  destruct (GetAllSecrets_lookup sf Hunlocked) as (out & Hall & Hout).
  exists out, (snd (config.ensureSecretsMap false sf)). split; [done|].
  rewrite Hout. unfold storedEntry in Hget.
  destruct (secretsOf sf !! strings_TrimSpace key) as [v|].
  - destruct v; try done. cbn in Hget |- *. unfold listed. by rewrite Hget.
  - rewrite Hres in Hget.
    destruct (config.RawData sf !! strings_TrimSpace key) as [v|]; [|done]. cbn.
    unfold legacyEntry. rewrite Hres. destruct v; try done.
    cbn in Hget. unfold listed. by rewrite Hget.
Qed.

Lemma GetAllSecrets_agrees_with_GetSecret_witness :
  exists out sf',
    @config.GetAllSecrets Sim_libs Sample.docDamagedValue = (Ok out, sf') /\
    out !! "GOOD" = Some "v".
Proof.
  apply (@GetAllSecrets_agrees_with_GetSecret Sim_libs " GOOD " "v" Sample.docDamagedValue).
  vm_compute. reflexivity.
Defined.

(** ** The DEK across the operations *)

Section DekFacts.
Context `{External}.

Lemma ensureSecretsMap_DEK (create : bool) (sf : config.SecretFile) :
  config.decryptedDEK (snd (config.ensureSecretsMap create sf)) = config.decryptedDEK sf.
Proof.
  unfold config.ensureSecretsMap.
  destruct (config.RawData sf !! config.SecretsKey) as [[| | | | |m|legacy|]|];
    try done; try by destruct create.
  by destruct (config.convertLegacy legacy ∅).
Qed.

Lemma SetSecret_DEK (key value : string) (sf : config.SecretFile) (e : Entropy) :
  config.decryptedDEK (snd (fst (config.SetSecret key value sf e)))
  = config.decryptedDEK sf.
Proof.
  unfold config.SetSecret. destruct (config.decryptedDEK sf) as [dek|] eqn:Hdek; [|done].
  case_decide; [done|]. destruct (config.reserved _); [done|].
  destruct (crypto.EncryptValue _ _ _) as [[sealed|err] e1]; [|done].
  pose proof (ensureSecretsMap_DEK true sf) as Hd.
  destruct (config.ensureSecretsMap true sf) as [[[secrets|]|err] sf1]; cbn in *; congruence.
Qed.

Lemma UnsetSecret_DEK (key : string) (sf : config.SecretFile) :
  config.decryptedDEK (snd (config.UnsetSecret key sf)) = config.decryptedDEK sf.
Proof.
  unfold config.UnsetSecret. destruct (config.decryptedDEK sf) as [dek|] eqn:Hdek; [|done].
  case_decide; [done|]. destruct (config.reserved _); [done|].
  pose proof (ensureSecretsMap_DEK true sf) as Hd.
  destruct (config.ensureSecretsMap true sf) as [[[secrets|]|err] sf1]; cbn in *;
    try congruence.
  destruct (secrets !! strings_TrimSpace key),
           (config.RawData sf1 !! strings_TrimSpace key); cbn; congruence.
Qed.

Lemma GetSecret_DEK (key : string) (sf : config.SecretFile) :
  config.decryptedDEK (snd (config.GetSecret key sf)) = config.decryptedDEK sf.
Proof.
  unfold config.GetSecret. destruct (config.decryptedDEK sf) as [dek|] eqn:Hdek; [|done].
  case_decide; [done|]. destruct (config.reserved _); [done|].
  pose proof (ensureSecretsMap_DEK false sf) as Hd.
  destruct (config.ensureSecretsMap false sf) as [found sf1]. cbn in *.
  destruct (match found with Ok (Some secrets) => _ | _ => None end); [cbn; congruence|].
  destruct (config.RawData sf1 !! _); cbn; congruence.
Qed.

Lemma GetAllSecrets_DEK (sf : config.SecretFile) :
  config.decryptedDEK (snd (config.GetAllSecrets sf)) = config.decryptedDEK sf.
Proof.
  unfold config.GetAllSecrets. destruct (config.decryptedDEK sf) as [dek|] eqn:Hdek; [|done].
  pose proof (ensureSecretsMap_DEK false sf) as Hd.
  destruct (config.ensureSecretsMap false sf) as [found sf1]. cbn in *. congruence.
Qed.

Lemma RotateRecipients_DEK (publicKeys : list string) (sf : config.SecretFile)
    (e : Entropy) :
  config.decryptedDEK (snd (fst (config.RotateRecipients publicKeys sf e)))
  = config.decryptedDEK sf.
Proof.
  unfold config.RotateRecipients. destruct (config.decryptedDEK sf) eqn:Hdek; [|done].
  destruct (rotateRecipientsLocked_spec publicKeys sf e) as (r & sf' & e' & -> & Hd & _).
  cbn. congruence.
Qed.

Lemma Unlock_DEK (identity : option X25519Identity) (sf : config.SecretFile) :
  config.decryptedDEK (snd (config.Unlock identity sf)) = config.decryptedDEK sf \/
  exists dek, config.decryptedDEK (snd (config.Unlock identity sf)) = Some dek /\
              length dek = crypto.dekSize.
Proof.
  unfold config.Unlock. destruct identity as [id|]; [|by left].
  destruct (config.RawData sf !! config.MetadataKey) as [mi|]; [|by left].
  destruct (yaml_Metadata mi) as [| |meta]; try by left.
  induction (Recipients meta) as [|r rest IH]; cbn; [by left|].
  destruct (crypto.DecryptDEK (Enc r) (Some id)) as [dek|err] eqn:Hd; [|done].
  right. exists dek. split; [done|]. by apply DecryptDEK_Ok_iff in Hd as (_ & _ & Hlen).
Qed.

Lemma Init_DEK (recipients : list string) (sf : config.SecretFile) (e : Entropy) :
  rand_exact ->
  config.decryptedDEK (snd (fst (config.Init recipients sf e))) = config.decryptedDEK sf \/
  exists dek, config.decryptedDEK (snd (fst (config.Init recipients sf e))) = Some dek /\
              length dek = crypto.dekSize.
Proof.
  intros Hrand. destruct recipients as [|pk rest]; [by left|].
  destruct (crypto.GenerateDEK e) as [[dek|err] e1] eqn:Hgen.
  - right. exists dek. split.
    + by eapply Init_installs_DEK_first.
    + unfold crypto.GenerateDEK, crypto.fillRandom in Hgen.
      destruct (rand_ReadFull crypto.dekSize e) as [[b|] e2] eqn:Hr; simplify_eq.
      by apply Hrand in Hr.
  - left. unfold config.Init. by rewrite Hgen.
Qed.

End DekFacts.

(** X10. The DEK of a vault, when there is one, has 32 bytes, and every
    operation keeps it so: a freshly created file holds none, and from a
    vault with a well-sized DEK, [Unlock], [Init], [Lock], [SetSecret],
    [UnsetSecret], [RotateRecipients], [GetSecret] and [GetAllSecrets] all
    leave a vault with a well-sized DEK, whether they succeed or fail.  The
    entropy source is assumed to fill the buffer it is given. *)
Theorem dekWellSized_kept `{External} (sf : config.SecretFile) :
  rand_exact -> dekWellSized sf ->
  (forall path, dekWellSized (config.NewSecretFile path)) /\
  (forall identity, dekWellSized (snd (config.Unlock identity sf))) /\
  (forall recipients e, dekWellSized (snd (fst (config.Init recipients sf e)))) /\
  dekWellSized (config.Lock sf) /\
  (forall key value e, dekWellSized (snd (fst (config.SetSecret key value sf e)))) /\
  (forall key, dekWellSized (snd (config.UnsetSecret key sf))) /\
  (forall publicKeys e, dekWellSized (snd (fst (config.RotateRecipients publicKeys sf e)))) /\
  (forall key, dekWellSized (snd (config.GetSecret key sf))) /\
  dekWellSized (snd (config.GetAllSecrets sf)).
Proof.
  intros Hrand Hwf. unfold dekWellSized in *. repeat split.
  - intros path dek. by rewrite NewSecretFile_eq.
  - intros identity dek. destruct (Unlock_DEK identity sf) as [->|(d & -> & Hlen)];
      [apply Hwf | by intros [= <-]].
  - intros recipients e dek.
    destruct (Init_DEK recipients sf e Hrand) as [->|(d & -> & Hlen)];
      [apply Hwf | by intros [= <-]].
  - done.
  - intros key value e dek. rewrite SetSecret_DEK. apply Hwf.
  - intros key dek. rewrite UnsetSecret_DEK. apply Hwf.
  - intros publicKeys e dek. rewrite RotateRecipients_DEK. apply Hwf.
  - intros key dek. rewrite GetSecret_DEK. apply Hwf.
  - intros dek. rewrite GetAllSecrets_DEK. apply Hwf.
Qed.

Lemma dekWellSized_kept_witness :
  dekWellSized (snd (fst (@config.Init Sim_libs ["age1alice"] Sample.docOneSecret
                            (Sim.tape 32)))) /\
  dekWellSized (snd (@config.Unlock Sim_libs (Some Sample.alice) Sample.docOneSecret)).
Proof.
  assert (dekWellSized Sample.docOneSecret) as Hwf by (by intros dek [= <-]).
  destruct (@dekWellSized_kept Sim_libs Sample.docOneSecret Sim_rand_exact Hwf)
    as (_ & Hunlock & Hinit & _).
  split; [apply Hinit | apply Hunlock].
Defined.

(** ** Recipients: normalizing, initializing, rewrapping *)

Section RecipientFacts.
Context `{External}.

Lemma normalize_set_elem (keys : list string) (acc : gset string) (k : string) :
  k ∈ foldl (fun set k0 =>
               let k1 := strings_TrimSpace k0 in
               if decide (k1 = "") then set else {[ k1 ]} ∪ set) acc keys
  <-> k ∈ acc \/ (k <> "" /\ exists k0, k0 ∈ keys /\ strings_TrimSpace k0 = k).
Proof.
  revert acc. induction keys as [|k0 rest IH]; intros acc; cbn.
  - split; [by left|]. intros [?|(_ & k0 & Hin & _)]; [done|]. by apply elem_of_nil in Hin.
  - rewrite IH. case_decide as Hempty.
    + split.
      * intros [?|(Hne & k1 & Hin & Htrim)]; [by left|].
        right. split; [done|]. exists k1. split; [by apply elem_of_cons; right|done].
      * intros [?|(Hne & k1 & Hin & Htrim)]; [by left|].
        apply elem_of_cons in Hin as [->|Hin]; [congruence|].
        right. split; [done|]. by exists k1.
    + split.
      * intros [Hin|(Hne & k1 & Hin & Htrim)].
        -- apply elem_of_union in Hin as [Hin|Hin]; [|by left].
           apply elem_of_singleton in Hin as ->. right. split; [done|].
           exists k0. split; [apply elem_of_cons; by left|done].
        -- right. split; [done|]. exists k1. split; [by apply elem_of_cons; right|done].
      * intros [?|(Hne & k1 & Hin & Htrim)]; [left; apply elem_of_union; by right|].
        apply elem_of_cons in Hin as [->|Hin].
        -- left. apply elem_of_union. left. by apply elem_of_singleton.
        -- right. split; [done|]. by exists k1.
Qed.

Lemma storedEntry_same_raw (sf1 sf2 : config.SecretFile) (k : string) :
  config.RawData sf1 = config.RawData sf2 -> storedEntry sf1 k = storedEntry sf2 k.
Proof.
  intros Hraw. unfold storedEntry, secretsOf.
  rewrite (ensureSecretsMap_fst false sf1 sf2) by (by rewrite Hraw). by rewrite Hraw.
Qed.

Lemma storedEntry_ensureSecretsMap (sf : config.SecretFile) (k : string) :
  storedEntry (snd (config.ensureSecretsMap true sf)) k = storedEntry sf k.
Proof.
  destruct (config.ensureSecretsMap true sf) as [[found|err] sf1] eqn:Hensure; cbn.
  - apply ensureSecretsMap_true_Ok in Hensure as (_ & Hraw & _).
    by apply storedEntry_ensured.
  - by rewrite (ensureSecretsMap_true_Err _ _ _ Hensure).
Qed.

(** What [Init] leaves when it succeeds. *)
Lemma Init_Ok_inv (recipients : list string) (sf sf' : config.SecretFile)
    (e e' : Entropy) :
  config.Init recipients sf e = (Ok tt, sf', e') ->
  exists dek e1 newRecipients,
    crypto.GenerateDEK e = (Ok dek, e1) /\
    config.decryptedDEK sf' = Some dek /\
    config.path sf' = config.path sf /\
    config.RawData sf' !! config.MetadataKey
    = Some (AMetadata {| Recipients := newRecipients |}) /\
    (forall k, storedEntry sf' k = storedEntry sf k) /\
    Arg <$> newRecipients = config.normalizeAndDedupe recipients /\
    Forall (fun r => exists e2 e3,
              crypto.EncryptDEK dek [Arg r] e2 = (Ok (Enc r), e3)) newRecipients.
Proof.
  unfold config.Init. destruct recipients as [|pk rest]; [done|].
  destruct (crypto.GenerateDEK e) as [[dek|err] e1] eqn:Hgen; [|done].
  set (sf0 := config.set_decryptedDEK (config.cloneBytes (Some dek)) (config.wipeDEK sf)).
  pose proof (ensureSecretsMap_DEK true sf0) as Hdek1.
  pose proof (storedEntry_ensureSecretsMap sf0) as Hst1.
  assert (config.path (snd (config.ensureSecretsMap true sf0)) = config.path sf) as Hpath1.
  { unfold config.ensureSecretsMap. cbn.
    destruct (config.RawData sf !! config.SecretsKey) as [[| | | | |m|legacy|]|]; try done.
    by destruct (config.convertLegacy legacy ∅). }
  destruct (config.ensureSecretsMap true sf0) as [found sf1]. cbn [snd] in *.
  destruct (rotateRecipientsLocked_spec (pk :: rest) sf1 e1)
    as (r & sf2 & e2 & -> & Hdek2 & Hpath2 & Hr).
  intros [= -> <- <-]. destruct Hr as (newRecipients & Hraw & Hargs & Hwrapped).
  exists dek, e1, newRecipients.
  split; [done|]. split; [by rewrite Hdek2, Hdek1|]. split; [by rewrite Hpath2, Hpath1|].
  split; [by rewrite Hraw, lookup_insert_eq|]. split; [|split; [done|]].
  - intros k. rewrite <- (storedEntry_same_raw sf0 sf k) by done. rewrite <- Hst1.
    apply storedEntry_same. split; [done|]. intros k' Hk'.
    by rewrite Hraw, lookup_insert_ne.
  - unfold config.dekBytes in Hwrapped. by rewrite Hdek1 in Hwrapped.
Qed.

End RecipientFacts.

(** The stand-in for age: what was encrypted for alice's public key opens
    under alice's identity. *)
Lemma substring_all (s : string) : substring 0 (String.length s) s = s.
Proof. induction s as [|c s IH]; cbn; [done|]. by rewrite IH. Qed.

Lemma Sim_age_Decrypt_alice (payload : string) :
  Sim.age_Decrypt ("<age1alice>|" +:+ payload) "alice"
  = AgePlain (list_byte_of_string payload).
Proof.
  unfold Sim.age_Decrypt.
  assert (String.index 0 "|" ("<age1alice>|" +:+ payload) = Some 11) as ->
    by (by destruct payload).
  assert (substring 0 11 ("<age1alice>|" +:+ payload) = "<age1alice>") as ->
    by (by destruct payload).
  assert (String.index 0 ("<" +:+ Sim.Recipient_of "alice" +:+ ">") "<age1alice>" = Some 0)
    as -> by reflexivity.
  f_equal. f_equal. rewrite length_append.
  change (String.length "<age1alice>|") with 12.
  replace (12 + String.length payload - 12) with (String.length payload) by lia.
  change (substring 0 (String.length payload) payload = payload).
  apply substring_all.
Qed.

Lemma Sim_wraps_for_alice (dek : list byte) (e e' : list byte) (armored : string) :
  @crypto.EncryptDEK Sim_libs dek ["age1alice"] e = (Ok armored, e') ->
  @crypto.DecryptDEK Sim_libs armored (Some "alice") = Ok dek.
Proof.
  unfold crypto.EncryptDEK, crypto.validateDEK.
  case_decide as Hlen; [|done]. cbn -[String.append].
  intros [= <- <-]. unfold crypto.DecryptDEK, crypto.validateDEK.
  rewrite decide_False by done.
  change (@age_Decrypt Sim_libs) with Sim.age_Decrypt.
  match goal with
  | |- context [Sim.age_Decrypt ?a _] =>
      change a with ("<age1alice>|" +:+ string_of_list_byte dek)
  end.
  rewrite Sim_age_Decrypt_alice, list_byte_of_string_of_list_byte.
  by rewrite decide_True.
Qed.

(** X11. The target list of a rekey, normalized: [normalizeAndDedupe] returns
    exactly the keys of the input once trimmed, without the empty ones, each
    once and in increasing order.  The result depends on the set of those
    keys only: repetitions and the order of the input do not matter. *)
Theorem normalizeAndDedupe_spec `{External} (keys : list string) :
  (forall k, k ∈ config.normalizeAndDedupe keys <->
             k <> "" /\ exists k0, k0 ∈ keys /\ strings_TrimSpace k0 = k) /\
  NoDup (config.normalizeAndDedupe keys) /\
  StronglySorted String.le (config.normalizeAndDedupe keys) /\
  (forall keys',
     (forall k, (exists k0, k0 ∈ keys /\ strings_TrimSpace k0 = k) <->
                (exists k0, k0 ∈ keys' /\ strings_TrimSpace k0 = k)) ->
     config.normalizeAndDedupe keys' = config.normalizeAndDedupe keys).
Proof.
  unfold config.normalizeAndDedupe, sort_Strings. cbv zeta.
  split; [|split; [|split]].
  - intros k. rewrite merge_sort_Permutation, elem_of_elements, normalize_set_elem.
    split; [|tauto]. intros [Hin|?]; [by apply elem_of_empty in Hin|done].
  - rewrite merge_sort_Permutation. apply NoDup_elements.
  - apply StronglySorted_merge_sort; apply _.
  - intros keys' Hsame. f_equal. f_equal. apply set_eq. intros k.
    rewrite !normalize_set_elem. split; intros [Hin|[Hne Hk]];
      try (by apply elem_of_empty in Hin); right; split; try done; by apply Hsame.
Qed.

(** X12. After a successful [Init] the vault is unlocked with the key that
    [GenerateDEK] returned, of 32 bytes; the metadata block holds one entry
    per normalized recipient, in that order, each the DEK encrypted for that
    recipient alone; and the stored entries are the ones from before, as
    they were.  The entropy source is assumed to fill the buffer it is
    given. *)
Theorem Init_installs_key_and_recipients `{External} (recipients : list string)
    (sf sf' : config.SecretFile) (e e' : Entropy) :
  rand_exact ->
  config.Init recipients sf e = (Ok tt, sf', e') ->
  exists dek newRecipients,
    fst (crypto.GenerateDEK e) = Ok dek /\
    config.decryptedDEK sf' = Some dek /\ length dek = 32 /\
    config.RawData sf' !! config.MetadataKey
    = Some (AMetadata {| Recipients := newRecipients |}) /\
    Arg <$> newRecipients = config.normalizeAndDedupe recipients /\
    Forall (fun r => exists e2 e3,
              crypto.EncryptDEK dek [Arg r] e2 = (Ok (Enc r), e3)) newRecipients /\
    (forall k, storedEntry sf' k = storedEntry sf k).
Proof.
  intros Hrand Hinit.
  apply Init_Ok_inv in Hinit
    as (dek & e1 & newRecipients & Hgen & Hdek & _ & Hmeta & Hst & Hargs & Hwrapped).
  exists dek, newRecipients. rewrite Hgen. repeat split; try done.
  unfold crypto.GenerateDEK, crypto.fillRandom in Hgen.
  destruct (rand_ReadFull crypto.dekSize e) as [[b|] e2] eqn:Hr; simplify_eq.
  by apply Hrand in Hr.
Qed.

Lemma Init_installs_key_and_recipients_witness :
  exists sf' e',
    @config.Init Sim_libs [" age1bob"; "age1alice"; "age1bob"] Sample.docOneSecret
      (Sim.tapeOf x07 32) = (Ok tt, sf', e') /\
    config.decryptedDEK sf' = Some (Sim.tapeOf x07 32) /\
    (Arg <$> match config.RawData sf' !! config.MetadataKey with
             | Some (AMetadata md) => Recipients md
             | _ => []
             end) = ["age1alice"; "age1bob"] /\
    storedEntry sf' "K" = storedEntry Sample.docOneSecret "K".
Proof.
  destruct (@config.Init Sim_libs [" age1bob"; "age1alice"; "age1bob"]
              Sample.docOneSecret (Sim.tapeOf x07 32)) as [[r sf'] e'] eqn:Hinit.
  assert (r = Ok tt) as ->.
  { assert (fst (fst (@config.Init Sim_libs [" age1bob"; "age1alice"; "age1bob"]
                        Sample.docOneSecret (Sim.tapeOf x07 32))) = Ok tt) as Hr
      by (vm_compute; reflexivity).
    by rewrite Hinit in Hr. }
  destruct (@Init_installs_key_and_recipients Sim_libs _ _ _ _ _ Sim_rand_exact Hinit)
    as (dek & newRecipients & Hgen & Hdek & _ & Hmeta & Hargs & _ & Hst).
  exists sf', e'. split; [reflexivity|]. split.
  - rewrite Hdek. f_equal. vm_compute in Hgen. by injection Hgen as <-.
  - split; [|apply Hst]. rewrite Hmeta. cbn. rewrite Hargs. vm_compute. reflexivity.
Defined.

(** X13. The checks of [Init] and [RotateRecipients] come before any change:
    [Init] with no recipient fails, [RotateRecipients] on a locked vault
    fails, and [RotateRecipients] with keys that are all blank fails, each
    with its own error and with the vault and the entropy source untouched.
    A [RotateRecipients] that fails for any reason leaves the vault as it
    was; when wrapping fails, the error names a key of the normalized
    list. *)
Theorem rekey_checks_before_change `{External} (publicKeys : list string)
    (sf : config.SecretFile) (e : Entropy) :
  config.Init [] sf e = (Err ErrInitialRecipientsEmpty, sf, e) /\
  (config.IsUnlocked sf = false ->
   config.RotateRecipients publicKeys sf e = (Err ErrRotateLocked, sf, e)) /\
  (config.IsUnlocked sf = true -> config.normalizeAndDedupe publicKeys = [] ->
   config.RotateRecipients publicKeys sf e = (Err ErrRecipientsEmpty, sf, e)) /\
  (forall err sf' e',
     config.RotateRecipients publicKeys sf e = (Err err, sf', e') ->
     sf' = sf /\
     (forall pubKey inner, err = ErrEncryptForRecipient pubKey inner ->
                           pubKey ∈ config.normalizeAndDedupe publicKeys)).
Proof.
  split; [done|]. unfold config.RotateRecipients, config.IsUnlocked.
  destruct (config.decryptedDEK sf) as [dek|] eqn:Hdek.
  - split; [done|]. split.
    + intros _ Hnone. unfold config.rotateRecipientsLocked. by rewrite Hnone.
    + intros err sf' e'. unfold config.rotateRecipientsLocked.
      destruct (config.normalizeAndDedupe publicKeys) as [|pk rest] eqn:Hkeys;
        [by intros [= <- <- <-]|].
      destruct (config.rotateRecipients_loop _ _ _ _) as [[rs|err1] e1] eqn:Hloop; [done|].
      intros [= <- <- <-]. split; [done|]. intros pubKey inner ->.
      clear Hkeys. revert Hloop. generalize (@nil Recipient) e.
      induction (pk :: rest) as [|k ks IH]; intros acc e0; cbn; [done|].
      destruct (crypto.EncryptDEK _ [k] e0) as [[enc|err2] e2].
      * intros Hloop. apply elem_of_cons. right. by eapply IH.
      * intros [= -> _ _]. apply elem_of_cons. by left.
  - split; [done|]. split; [done|]. by intros err sf' e' [= <- <- <-].
Qed.

Lemma rekey_checks_before_change_witness :
  @config.RotateRecipients Sim_libs ["  "; ""] Sample.docOneSecret (Sim.tape 4)
  = (Err ErrRecipientsEmpty, Sample.docOneSecret, Sim.tape 4) /\
  @config.RotateRecipients Sim_libs ["age1bob"] (config.Lock Sample.docOneSecret) (Sim.tape 4)
  = (Err ErrRotateLocked, config.Lock Sample.docOneSecret, Sim.tape 4).
Proof.
  split.
  - apply (proj1 (proj2 (proj2 (@rekey_checks_before_change Sim_libs ["  "; ""]
                                  Sample.docOneSecret (Sim.tape 4))))); reflexivity.
  - apply (proj1 (proj2 (@rekey_checks_before_change Sim_libs ["age1bob"]
                           (config.Lock Sample.docOneSecret) (Sim.tape 4)))); reflexivity.
Defined.

(** X14. Locking and unlocking give back the vault that [Init] made: after a
    successful [Init] towards one recipient, whose private key opens what is
    encrypted for that recipient, [Unlock] with that private key on the
    locked vault succeeds and restores exactly the vault from before
    [Lock], DEK included.  The metadata struct is assumed to survive its
    yaml round trip. *)
Theorem Init_Lock_Unlock `{External} (recipients : list string) (pubKey : string)
    (identity : X25519Identity) (sf sf' : config.SecretFile) (e e' : Entropy) :
  (forall md, yaml_Metadata (AMetadata md) = YamlMetadata md) ->
  (forall dek e1 armored e2,
     crypto.EncryptDEK dek [pubKey] e1 = (Ok armored, e2) ->
     crypto.DecryptDEK armored (Some identity) = Ok dek) ->
  config.normalizeAndDedupe recipients = [pubKey] ->
  config.Init recipients sf e = (Ok tt, sf', e') ->
  config.IsUnlocked (config.Lock sf') = false /\
  config.Unlock (Some identity) (config.Lock sf') = (Ok tt, sf').
Proof.
  intros Hyaml Hage Hkeys Hinit. split; [done|].
  apply Init_Ok_inv in Hinit
    as (dek & e1 & newRecipients & _ & Hdek & _ & Hmeta & _ & Hargs & Hwrapped).
  rewrite Hkeys in Hargs.
  destruct newRecipients as [|r [|r' rest]]; try done.
  injection Hargs as Hr. apply Forall_cons in Hwrapped as [(e2 & e3 & Henc) _].
  rewrite Hr in Henc. apply Hage in Henc.
  unfold config.Unlock. cbn. rewrite Hmeta, Hyaml. cbn. rewrite Henc.
  destruct sf' as [raw d p]. cbn in *. by rewrite Hdek.
Qed.

Lemma Init_Lock_Unlock_witness :
  exists sf' e',
    @config.Init Sim_libs [" age1alice "] (config.NewSecretFile "secrets.enc.yaml")
      (Sim.tape 32) = (Ok tt, sf', e') /\
    @config.Unlock Sim_libs (Some "alice") (config.Lock sf') = (Ok tt, sf').
Proof.
  destruct (@config.Init Sim_libs [" age1alice "] (config.NewSecretFile "secrets.enc.yaml")
              (Sim.tape 32)) as [[r sf'] e'] eqn:Hinit.
  assert (r = Ok tt) as ->.
  { assert (fst (fst (@config.Init Sim_libs [" age1alice "]
                        (config.NewSecretFile "secrets.enc.yaml") (Sim.tape 32))) = Ok tt)
      as Hr by (vm_compute; reflexivity).
    by rewrite Hinit in Hr. }
  exists sf', e'. split; [reflexivity|].
  apply (proj2 (@Init_Lock_Unlock Sim_libs [" age1alice "] "age1alice" "alice"
                  (config.NewSecretFile "secrets.enc.yaml") sf' (Sim.tape 32) e'
                  (fun md => eq_refl)
                  (fun dek e1 armored e2 => Sim_wraps_for_alice dek e1 e2 armored)
                  ltac:(vm_compute; reflexivity) Hinit)).
Defined.

(** ** Persistence *)

(** X15. [AtomicWriteFile] writes all or nothing.  With a temporary name
    that is not on the disk and is not the target: when the call succeeds,
    the disk is the one from before with [data] at [path], reading [path]
    returns [data], and no temporary file is left; when it fails, at
    whatever step, the disk is exactly the one from before. *)
Theorem AtomicWriteFile_all_or_nothing (path tmpName : string) (data : list byte)
    (perm : N) (fault : io_fault) (disk : gmap string file) :
  disk !! tmpName = None -> tmpName <> path ->
  match filesystem.AtomicWriteFile path data perm tmpName fault disk with
  | (Ok _, disk') =>
      disk' = <[path := File data]> disk /\
      os_ReadFile disk' path = ReadData data /\
      disk' !! tmpName = None
  | (Err _, disk') => disk' = disk
  end.
Proof.
  intros Hfresh Hne. unfold filesystem.AtomicWriteFile.
  assert (delete tmpName (<[path := File data]>
            (delete tmpName (<[tmpName := File data]> (<[tmpName := File []]> disk))))
          = <[path := File data]> disk) as Hok.
  { rewrite insert_insert_eq, delete_insert_id by done.
    rewrite delete_insert_ne by done. by rewrite delete_id. }
  assert (os_ReadFile (<[path := File data]> disk) path = ReadData data) as Hread
    by (unfold os_ReadFile; by rewrite lookup_insert_eq).
  assert (<[path := File data]> disk !! tmpName = None) as Htmp
    by (by rewrite lookup_insert_ne).
  destruct fault; cbn; rewrite ?Hok; try done;
    rewrite ?insert_insert_eq; by rewrite delete_insert_id.
Qed.

Lemma AtomicWriteFile_all_or_nothing_witness :
  filesystem.AtomicWriteFile "secrets.enc.yaml" [x01; x02] 384 ".envseal-1.tmp" NoFault
    Sample.diskBefore
  = (Ok tt, <["secrets.enc.yaml" := File [x01; x02]]> Sample.diskBefore) /\
  filesystem.AtomicWriteFile "secrets.enc.yaml" [x01; x02] 384 ".envseal-1.tmp" FailRename
    Sample.diskBefore
  = (Err ErrOs, Sample.diskBefore).
Proof.
  pose proof (AtomicWriteFile_all_or_nothing "secrets.enc.yaml" ".envseal-1.tmp"
                [x01; x02] 384 NoFault Sample.diskBefore eq_refl
                ltac:(vm_compute; discriminate)) as Hok.
  pose proof (AtomicWriteFile_all_or_nothing "secrets.enc.yaml" ".envseal-1.tmp"
                [x01; x02] 384 FailRename Sample.diskBefore eq_refl
                ltac:(vm_compute; discriminate)) as Hfail.
  destruct (filesystem.AtomicWriteFile _ _ _ _ NoFault _) as [[[]|err] d1] eqn:H1;
    [|by vm_compute in H1].
  destruct (filesystem.AtomicWriteFile _ _ _ _ FailRename _) as [[[]|err] d2] eqn:H2;
    [by vm_compute in H2|].
  destruct Hok as (-> & _). rewrite Hfail. split; [reflexivity|].
  f_equal. f_equal. vm_compute in H2. by injection H2 as <-.
Defined.

Section ReloadFacts.
Context `{External}.

(** The stored entries are read from the document outside the metadata
    block. *)
Lemma storedEntry_outside_metadata (sf1 sf2 : config.SecretFile) (k : string) :
  (forall k', k' <> config.MetadataKey ->
              config.RawData sf1 !! k' = config.RawData sf2 !! k') ->
  storedEntry sf1 k = storedEntry sf2 k.
Proof.
  intros Hraw. unfold storedEntry, secretsOf.
  rewrite (ensureSecretsMap_fst false sf1 sf2) by (by apply Hraw).
  destruct (match (config.ensureSecretsMap false sf2).1 with
            | Ok (Some secrets) => secrets
            | _ => ∅
            end !! k); [done|].
  destruct (config.reserved k) eqn:Hres; [done|].
  apply Hraw. by apply reserved_false.
Qed.

Lemma Unlock_RawData (identity : option X25519Identity) (sf : config.SecretFile) :
  config.RawData (snd (config.Unlock identity sf)) = config.RawData sf.
Proof.
  unfold config.Unlock. destruct identity as [id|]; [|done].
  destruct (config.RawData sf !! config.MetadataKey) as [mi|]; [|done].
  destruct (yaml_Metadata mi) as [| |meta]; try done.
  induction (Recipients meta) as [|r rest IH]; cbn; [done|].
  by destruct (crypto.DecryptDEK (Enc r) (Some id)).
Qed.

(** [Unlock] reads the metadata block through its decoding, and nothing
    else of the document. *)
Lemma Unlock_agree (identity : option X25519Identity) (sf1 sf2 : config.SecretFile) :
  yaml_Metadata <$> config.RawData sf1 !! config.MetadataKey
  = yaml_Metadata <$> config.RawData sf2 !! config.MetadataKey ->
  config.decryptedDEK sf1 = config.decryptedDEK sf2 ->
  fst (config.Unlock identity sf1) = fst (config.Unlock identity sf2) /\
  config.decryptedDEK (snd (config.Unlock identity sf1))
  = config.decryptedDEK (snd (config.Unlock identity sf2)).
Proof.
  intros Hmeta Hdek. unfold config.Unlock. destruct identity as [id|]; [|done].
  destruct (config.RawData sf1 !! config.MetadataKey) as [mi1|],
           (config.RawData sf2 !! config.MetadataKey) as [mi2|]; try done.
  injection Hmeta as ->.
  destruct (yaml_Metadata mi2) as [| |meta]; try done.
  induction (Recipients meta) as [|r rest IH]; cbn; [done|].
  by destruct (crypto.DecryptDEK (Enc r) (Some id)).
Qed.

(** [GetSecret] by the key held and the stored entries. *)
Lemma GetSecret_agree (key : string) (sf1 sf2 : config.SecretFile) :
  config.decryptedDEK sf1 = config.decryptedDEK sf2 ->
  (forall k, storedEntry sf1 k = storedEntry sf2 k) ->
  fst (config.GetSecret key sf1) = fst (config.GetSecret key sf2).
Proof.
  intros Hdek Hstored.
  destruct (config.decryptedDEK sf2) as [dek|] eqn:Hdek2.
  - destruct (decide (strings_TrimSpace key = "")) as [Hempty|Hempty].
    { unfold config.GetSecret. rewrite Hdek, Hdek2. by rewrite !decide_True. }
    destruct (config.reserved (strings_TrimSpace key)) eqn:Hres.
    { unfold config.GetSecret. rewrite Hdek, Hdek2.
      rewrite !decide_False by done. by rewrite Hres. }
    rewrite !GetSecret_storedEntry; try done;
      try (unfold config.IsUnlocked; by rewrite ?Hdek, ?Hdek2).
    rewrite Hstored. destruct (storedEntry sf2 _); [|done].
    apply decryptAnyLocked_same. by rewrite Hdek.
  - unfold config.GetSecret. by rewrite Hdek, Hdek2.
Qed.

End ReloadFacts.

(** X16. What [Save] writes, [LoadSecretFile] reads back, and the DEK is not
    part of it.  yaml is assumed to decode what it wrote for this document
    into a document [decoded] that has the entries of the saved one outside
    the metadata block, and a metadata block that decodes to the recipients
    the saved one decodes to (the saved block is a struct, the decoded one
    a mapping).  Then, after a successful [Save], [LoadSecretFile] of the
    same path returns a locked file with the stored entries of the saved
    vault; [Unlock] on it does what [Unlock] does on the saved vault once
    locked, for every identity; and after it [GetSecret] returns for every
    key what it returns on the saved vault.  [Save] of the locked vault
    does what [Save] of the unlocked one does.  The temporary name is not on
    the disk and is not the path. *)
Theorem Save_then_LoadSecretFile `{External} (sf : config.SecretFile)
    (decoded : gmap string any)
    (tmpName : string) (fault : io_fault) (disk disk' : gmap string file) :
  (forall data, yaml_Marshal (config.RawData sf) = Some data ->
                yaml_Unmarshal data = Some decoded) ->
  (forall k, k <> config.MetadataKey -> decoded !! k = config.RawData sf !! k) ->
  yaml_Metadata <$> decoded !! config.MetadataKey
  = yaml_Metadata <$> config.RawData sf !! config.MetadataKey ->
  disk !! tmpName = None -> tmpName <> config.path sf ->
  config.Save sf tmpName fault disk = (Ok tt, disk') ->
  config.Save (config.Lock sf) tmpName fault disk = (Ok tt, disk') /\
  exists loaded,
    config.LoadSecretFile (config.path sf) disk' = Ok loaded /\
    config.IsUnlocked loaded = false /\
    config.path loaded = config.path sf /\
    (forall k, storedEntry loaded k = storedEntry sf k) /\
    (forall identity,
       fst (config.Unlock identity loaded) = fst (config.Unlock identity (config.Lock sf)) /\
       forall key,
         fst (config.GetSecret key (snd (config.Unlock identity loaded)))
         = fst (config.GetSecret key (snd (config.Unlock identity (config.Lock sf))))).
Proof.
  intros Hyaml Hentries Hmeta Hfresh Hne Hsave. split; [exact Hsave|].
  unfold config.Save in Hsave.
  destruct (yaml_Marshal (config.RawData sf)) as [data|] eqn:Hmarshal; [|done].
  assert (disk' = <[config.path sf := File data]> disk) as ->.
  { destruct fault; try done; unfold filesystem.AtomicWriteFile in Hsave; cbn in Hsave;
      simplify_eq.
    rewrite insert_insert_eq, delete_insert_id by done.
    rewrite delete_insert_ne by done. by rewrite delete_id. }
  unfold config.LoadSecretFile, os_ReadFile. rewrite lookup_insert_eq.
  rewrite (Hyaml _ eq_refl).
  set (sf0 := {| config.RawData := decoded; config.decryptedDEK := None;
                 config.path := config.path sf |}).
  set (loaded := snd (config.ensureSecretsMap true sf0)).
  exists loaded. split; [done|].
  assert (config.decryptedDEK loaded = None) as Hdek
    by apply (ensureSecretsMap_DEK true sf0).
  assert (forall k, storedEntry loaded k = storedEntry sf k) as Hstored.
  { intros k. unfold loaded. rewrite storedEntry_ensureSecretsMap.
    by apply storedEntry_outside_metadata. }
  assert (config.RawData loaded !! config.MetadataKey = decoded !! config.MetadataKey)
    as Hblock.
  { unfold loaded, config.ensureSecretsMap. cbn.
    destruct (decoded !! config.SecretsKey) as [[| | | | |m|legacy|]|];
      try done; cbn; try (by rewrite lookup_insert_ne).
    destruct (config.convertLegacy legacy ∅); [|done]. cbn. by rewrite lookup_insert_ne. }
  split; [unfold config.IsUnlocked; by rewrite Hdek|].
  split.
  { unfold loaded, config.ensureSecretsMap. cbn.
    destruct (decoded !! config.SecretsKey) as [[| | | | |m|legacy|]|]; try done.
    by destruct (config.convertLegacy legacy ∅). }
  split; [done|]. intros identity.
  destruct (Unlock_agree identity loaded (config.Lock sf)) as [Hres Hkey].
  { by rewrite Hblock. }
  { by rewrite Hdek. }
  split; [done|]. intros key. apply GetSecret_agree; [done|].
  intros k.
  rewrite (storedEntry_same_raw _ loaded) by apply Unlock_RawData.
  rewrite (storedEntry_same_raw (snd (config.Unlock identity (config.Lock sf))) sf)
    by (etrans; [apply Unlock_RawData|done]).
  apply Hstored.
Qed.

Lemma Save_then_LoadSecretFile_witness :
  exists disk' loaded,
    @config.Save Sim_libs Sample.docOneSecret ".envseal-1.tmp" NoFault Sample.diskBefore
    = (Ok tt, disk') /\
    @config.LoadSecretFile Sim_libs "secrets.enc.yaml" disk' = Ok loaded /\
    config.IsUnlocked loaded = false /\
    config.RawData loaded !! "_envseal"
    = Some (AMapString {[ "recipients" :=
              ASlice [ AMapString {[ "arg" := AString (Arg (Sample.entryFor Sample.alice Sim.key0));
                                     "enc" := AString (Enc (Sample.entryFor Sample.alice Sim.key0)) ]} ] ]}) /\
    storedEntry loaded "K" = storedEntry Sample.docOneSecret "K" /\
    fst (@config.Unlock Sim_libs (Some Sample.alice) loaded) = Ok tt /\
    fst (@config.GetSecret Sim_libs "K"
           (snd (@config.Unlock Sim_libs (Some Sample.alice) loaded))) = Ok "v".
Proof.
  set (block := AMapString {[ "recipients" :=
         ASlice [ AMapString {[ "arg" := AString (Arg (Sample.entryFor Sample.alice Sim.key0));
                                "enc" := AString (Enc (Sample.entryFor Sample.alice Sim.key0)) ]} ] ]}).
  set (decoded := <["_envseal" := block]> (config.RawData Sample.docOneSecret)).
  destruct (@config.Save Sim_libs Sample.docOneSecret ".envseal-1.tmp" NoFault
              Sample.diskBefore) as [r disk'] eqn:Hsave.
  assert (r = Ok tt) as ->.
  { assert (fst (@config.Save Sim_libs Sample.docOneSecret ".envseal-1.tmp" NoFault
                   Sample.diskBefore) = Ok tt) as Hr by (vm_compute; reflexivity).
    by rewrite Hsave in Hr. }
  destruct (@Save_then_LoadSecretFile Sim_libs Sample.docOneSecret decoded
              ".envseal-1.tmp" NoFault Sample.diskBefore disk')
    as (_ & loaded & Hload & Hlocked & _ & Hstored & Hunlock).
  - intros data Hdata. vm_compute in Hdata. injection Hdata as <-.
    vm_compute. reflexivity.
  - intros k Hk. unfold decoded. by rewrite lookup_insert_ne.
  - vm_compute. reflexivity.
  - reflexivity.
  - vm_compute. discriminate.
  - exact Hsave.
  - exists disk', loaded. split; [done|]. split; [exact Hload|]. split; [done|].
    destruct (Hunlock (Some Sample.alice)) as [Hres Hget].
    split; [|split; [apply Hstored|split]].
    + assert (forall d, (Ok tt, d) = @config.Save Sim_libs Sample.docOneSecret
                          ".envseal-1.tmp" NoFault Sample.diskBefore ->
                        forall l, @config.LoadSecretFile Sim_libs "secrets.enc.yaml" d = Ok l ->
                        config.RawData l !! "_envseal" = Some block) as Hblock.
      { vm_compute. intros d [= ->]. vm_compute. by intros l [= <-]. }
      by apply (Hblock disk').
    + rewrite Hres. vm_compute. reflexivity.
    + rewrite Hget. vm_compute. reflexivity.
Defined.

(** ** The roster *)

Section RosterMore.
Context `{External}.

Lemma existsb_PublicKey (pubKey : string) (users : list manifest.User) :
  existsb (fun u => bool_decide (manifest.PublicKey u = pubKey)) users = true <->
  pubKey ∈ manifest.PublicKey <$> users.
Proof.
  induction users as [|u rest IH]; cbn.
  - split; [done|]. by intros ?%elem_of_nil.
  - rewrite orb_true_iff, IH, elem_of_cons, bool_decide_eq_true.
    split; (intros [Heq|Hin]; [left; by rewrite Heq | by right]).
Qed.

Lemma FindUser_loop_unique (users : list manifest.User) (u : manifest.User) :
  u ∈ users ->
  (forall u', u' ∈ users -> manifest.PublicKey u' = manifest.PublicKey u -> u' = u) ->
  manifest.FindUser_loop users (manifest.PublicKey u) = (u, true).
Proof.
  induction users as [|u0 rest IH]; intros Hin Huniq; [by apply elem_of_nil in Hin|].
  cbn. case_bool_decide as Hkey.
  - f_equal. apply Huniq; [apply elem_of_cons; by left | done].
  - apply IH.
    + apply elem_of_cons in Hin as [->|Hin]; [done|done].
    + intros u' Hu'. apply Huniq. apply elem_of_cons. by right.
Qed.

Lemma FindUser_loop_absent (users : list manifest.User) (pubKey : string) :
  pubKey ∉ manifest.PublicKey <$> users ->
  manifest.FindUser_loop users pubKey
  = ({| manifest.Name := ""; manifest.PublicKey := "" |}, false).
Proof.
  induction users as [|u rest IH]; cbn; [done|].
  intros Hnot. apply not_elem_of_cons in Hnot as [Hne Hrest].
  rewrite bool_decide_eq_false_2 by done. by apply IH.
Qed.

Lemma RemoveUser_loop_spec (users : list manifest.User) (identifier : string)
    (newUsers : list manifest.User) (found : bool) :
  let matches u := bool_decide (manifest.Name u = identifier)
                   || bool_decide (manifest.PublicKey u = identifier) in
  manifest.RemoveUser_loop users identifier newUsers found
  = (newUsers ++ filter (fun u => matches u = false) users,
     found || existsb matches users).
Proof.
  cbn zeta. revert newUsers found. induction users as [|u rest IH]; intros newUsers found.
  - cbn. by rewrite app_nil_r, orb_false_r.
  - cbn [manifest.RemoveUser_loop existsb]. rewrite filter_cons.
    destruct (bool_decide (manifest.Name u = identifier)
              || bool_decide (manifest.PublicKey u = identifier)) eqn:Hm; rewrite IH.
    + rewrite decide_False by done. cbn. by rewrite orb_true_r.
    + rewrite decide_True by done. by rewrite <- app_assoc.
Qed.

Lemma normalize_loop_spec (users : list manifest.User) (seen : gset string)
    (out : list manifest.User) :
  (forall k, k ∈ seen <-> k ∈ manifest.PublicKey <$> out) ->
  NoDup (manifest.PublicKey <$> out) ->
  let result := manifest.normalize_loop users seen out in
  NoDup (manifest.PublicKey <$> result) /\
  (forall u, u ∈ result <->
     u ∈ out \/
     (manifest.PublicKey u <> "" /\ (manifest.PublicKey u ∉ (manifest.PublicKey <$> out)) /\
      exists before u0 after,
        users = before ++ u0 :: after /\ u = trimmed u0 /\
        manifest.PublicKey u ∉ (manifest.PublicKey <$> (trimmed <$> before)))).
Proof.
  cbn zeta. revert seen out. induction users as [|u0 rest IH]; intros seen out Hseen Hnd.
  - cbn. split; [done|]. intros u. split; [by left|].
    intros [?|(_ & _ & before & u1 & after & Happ & _)]; [done|].
    by destruct before.
  - cbn [manifest.normalize_loop]. cbn [manifest.PublicKey manifest.Name].
    assert (forall u,
      (exists before u1 after, u0 :: rest = before ++ u1 :: after /\ u = trimmed u1 /\
         manifest.PublicKey u ∉ (manifest.PublicKey <$> (trimmed <$> before))) <->
      u = trimmed u0 \/
      (manifest.PublicKey u <> manifest.PublicKey (trimmed u0) /\
       exists before u1 after, rest = before ++ u1 :: after /\ u = trimmed u1 /\
         manifest.PublicKey u ∉ (manifest.PublicKey <$> (trimmed <$> before)))) as Hsplit.
    { intros u. split.
      - intros (before & u1 & after & Happ & Hu & Hnot).
        destruct before as [|b before]; cbn in Happ; simplify_eq; [by left|].
        right. cbn in Hnot. apply not_elem_of_cons in Hnot as [Hne Hnot].
        split; [done|]. by exists before, u1, after.
      - intros [->|(Hne & before & u1 & after & -> & Hu & Hnot)].
        + exists [], u0, rest. split; [done|]. split; [done|]. apply not_elem_of_nil.
        + exists (u0 :: before), u1, after. split; [done|]. split; [done|].
          cbn. by apply not_elem_of_cons. }
    case_decide as Hempty.
    { destruct (IH seen out Hseen Hnd) as [Hnd' Hmem]. split; [done|].
      intros u. rewrite Hmem, Hsplit. split.
      - intros [?|(Hne & Hout & Hex)]; [by left|]. right. split; [done|]. split; [done|].
        right. split; [|done]. cbn. congruence.
      - intros [?|(Hne & Hout & [->|[Hk Hex]])]; [by left| |by right].
        by destruct Hne. }
    case_decide as Hin.
    { destruct (IH seen out Hseen Hnd) as [Hnd' Hmem]. split; [done|].
      intros u. rewrite Hmem, Hsplit. apply Hseen in Hin. split.
      - intros [?|(Hne & Hout & Hex)]; [by left|]. right. split; [done|]. split; [done|].
        right. split; [|done]. cbn. intros Heq. by rewrite Heq in Hout.
      - intros [?|(Hne & Hout & [->|[Hk Hex]])]; [by left| |by right].
        by destruct Hout. }
    assert (strings_TrimSpace (manifest.PublicKey u0) ∉ manifest.PublicKey <$> out) as Hnew
      by (by rewrite <- Hseen).
    destruct (IH ({[strings_TrimSpace (manifest.PublicKey u0)]} ∪ seen)
                 (out ++ [trimmed u0])) as [Hnd' Hmem].
    { intros k. rewrite fmap_app, elem_of_app, elem_of_union, elem_of_singleton, Hseen.
      cbn. rewrite list_elem_of_singleton. tauto. }
    { rewrite fmap_app. apply NoDup_app. split; [done|]. split; [|apply NoDup_singleton].
      intros k Hk. cbn. rewrite list_elem_of_singleton. by intros ->. }
    split; [done|]. intros u. change {| manifest.Name := _; manifest.PublicKey := _ |}
      with (trimmed u0) in Hmem. rewrite Hmem, Hsplit.
    rewrite fmap_app, !elem_of_app. cbn. rewrite !list_elem_of_singleton.
    split.
    + intros [[?| ->]|(Hne & Hout & Hex)]; [by left| |].
      * right. split; [done|]. split; [done|]. by left.
      * right. split; [done|]. split; [intros ?; apply Hout; by left|].
        right. split; [|done]. intros ?. apply Hout. by right.
    + intros [?|(Hne & Hout & [->|[Hk Hex]])]; [by left; left|by left; right|].
      right. split; [done|]. split; [|done]. by intros [?|?].
Qed.

End RosterMore.

Section SortedFacts.
Context {A : Type} (less : A -> A -> bool).

(** A slice that is in order already is left as it is: every element stays
    where the loop finds it. *)
Lemma sort_Slice_in_order (l : list A) :
  isSortedBy less l = true -> sort_Slice less l = l.
Proof.
  unfold sort_Slice. intros Hsorted.
  assert (forall front,
            match front with
            | [] => isSortedBy less l = true
            | a :: _ => isSortedBy less (a :: l) = true
            end ->
            foldl (fun front x => sift less x front) front l = reverse l ++ front) as Hfold.
  { clear Hsorted. induction l as [|x l IH]; intros front Hfront; [done|].
    cbn [foldl]. rewrite reverse_cons, <- app_assoc. cbn [app].
    destruct front as [|a front].
    - cbn [sift]. apply IH. done.
    - cbn [sift]. change (negb (less x a) && isSortedBy less (x :: l) = true) in Hfront.
      apply andb_true_iff in Hfront as [Hxa Hrest].
      apply negb_true_iff in Hxa. rewrite Hxa. by apply IH. }
  rewrite (Hfold [] Hsorted), app_nil_r. apply reverse_involutive.
Qed.

End SortedFacts.

Section RosterNormal.
Context `{External}.

Lemma Manifest_eta (m : manifest.Manifest) :
  manifest.set_AccessControl (manifest.AccessControl m) m = m.
Proof. by destruct m. Qed.

Lemma normalize_loop_normal (users : list manifest.User) (seen : gset string)
    (out : list manifest.User) :
  (forall u, u ∈ users -> trimmed u = u /\ manifest.PublicKey u <> "" /\
                          manifest.PublicKey u ∉ seen) ->
  NoDup (manifest.PublicKey <$> users) ->
  manifest.normalize_loop users seen out = out ++ users.
Proof.
  revert seen out. induction users as [|u rest IH]; intros seen out Hall Hnd.
  - cbn. by rewrite app_nil_r.
  - cbn [manifest.normalize_loop]. cbn [manifest.PublicKey manifest.Name].
    destruct (Hall u) as (Htrim & Hne & Hseen); [apply elem_of_cons; by left|].
    change {| manifest.Name := _; manifest.PublicKey := _ |} with (trimmed u).
    assert (strings_TrimSpace (manifest.PublicKey u) = manifest.PublicKey u) as Hkey
      by (by rewrite <- Htrim at 2).
    rewrite Hkey, Htrim, decide_False, decide_False by done.
    cbn in Hnd. apply NoDup_cons in Hnd as [Hu Hnd].
    rewrite IH; [by rewrite <- app_assoc| |done].
    intros u' Hu'. destruct (Hall u') as (? & ? & ?); [apply elem_of_cons; by right|].
    split; [done|]. split; [done|].
    rewrite elem_of_union, elem_of_singleton. intros [Heq|?]; [|done].
    apply Hu. rewrite <- Heq. by apply list_elem_of_fmap_2.
Qed.

End RosterNormal.

(** X17. A user that [AddUser] accepts is the one [FindUserByPublicKey]
    then returns for that public key.  On success the name and the key kept
    are the trimmed ones and neither is empty, the roster is the old one and
    the new user, the project name is untouched, and a roster whose public
    keys were all different still has all different public keys. *)
Theorem AddUser_then_FindUserByPublicKey `{External} (name pubKey : string)
    (m m' : manifest.Manifest) :
  manifest.AddUser name pubKey m = (Ok tt, m') ->
  let added := {| manifest.Name := strings_TrimSpace name;
                  manifest.PublicKey := strings_TrimSpace pubKey |} in
  manifest.Name added <> "" /\ manifest.PublicKey added <> "" /\
  manifest.AccessControl m' ≡ₚ manifest.AccessControl m ++ [added] /\
  manifest.ProjectName m' = manifest.ProjectName m /\
  manifest.FindUserByPublicKey pubKey m' = (added, true) /\
  (NoDup (manifest.PublicKey <$> manifest.AccessControl m) ->
   NoDup (manifest.PublicKey <$> manifest.AccessControl m')).
Proof.
  intros Hadd added. pose proof (AddUser_Ok _ _ _ _ Hadd) as [Hperm _].
  fold added in Hperm. revert Hadd. unfold manifest.AddUser.
  case_decide as Hname; [done|]. case_decide as Hkey; [done|].
  destruct (existsb _ _) eqn:Hdup; [done|]. intros [= <-]. cbn [manifest.ProjectName].
  assert (strings_TrimSpace pubKey ∉ manifest.PublicKey <$> manifest.AccessControl m)
    as Hnew.
  { intros Hin. apply existsb_PublicKey in Hin. congruence. }
  split; [done|]. split; [done|]. split; [done|]. split; [done|]. split.
  - unfold manifest.FindUserByPublicKey.
    apply (FindUser_loop_unique _ added).
    + rewrite Hperm. apply elem_of_app. right. by apply list_elem_of_singleton.
    + intros u'. rewrite Hperm, elem_of_app, list_elem_of_singleton.
      intros [Hu'| ->]; [|done]. intros Heq. destruct Hnew.
      change (strings_TrimSpace pubKey) with (manifest.PublicKey added).
      rewrite <- Heq. by apply list_elem_of_fmap_2.
  - intros Hnd. rewrite Hperm, fmap_app. apply NoDup_app. split; [done|].
    split; [|apply NoDup_singleton].
    intros k Hk. cbn. rewrite list_elem_of_singleton. by intros ->.
Qed.

Lemma AddUser_then_FindUserByPublicKey_witness :
  exists m',
    @manifest.AddUser Sim_libs " carol " " age1mmm " Sample.rosterBob = (Ok tt, m') /\
    @manifest.FindUserByPublicKey Sim_libs "age1mmm" m'
    = ({| manifest.Name := "carol"; manifest.PublicKey := "age1mmm" |}, true).
Proof.
  destruct (@manifest.AddUser Sim_libs " carol " " age1mmm " Sample.rosterBob)
    as [r m'] eqn:Hadd.
  assert (r = Ok tt) as ->.
  { assert (fst (@manifest.AddUser Sim_libs " carol " " age1mmm " Sample.rosterBob) = Ok tt)
      as Hr by (vm_compute; reflexivity).
    by rewrite Hadd in Hr. }
  exists m'. split; [done|].
  destruct (@AddUser_then_FindUserByPublicKey Sim_libs _ _ _ _ Hadd)
    as (_ & _ & _ & _ & Hfind & _).
  exact Hfind.
Defined.

(** X18. What [AddUser] refuses, and that a refusal changes nothing.  The
    call fails exactly when the trimmed name is empty, the trimmed public
    key is empty, or a user of the roster has that public key already; the
    error is [ErrUserExists] exactly in the last case with the first two
    excluded; and whenever it fails the manifest is the one from before. *)
Theorem AddUser_refusals `{External} (name pubKey : string) (m : manifest.Manifest) :
  let keys := manifest.PublicKey <$> manifest.AccessControl m in
  (is_Err (manifest.AddUser name pubKey m).1 <->
     strings_TrimSpace name = "" \/ strings_TrimSpace pubKey = "" \/
     strings_TrimSpace pubKey ∈ keys) /\
  ((manifest.AddUser name pubKey m).1 = Err ErrUserExists <->
     strings_TrimSpace name <> "" /\ strings_TrimSpace pubKey <> "" /\
     strings_TrimSpace pubKey ∈ keys) /\
  (is_Err (manifest.AddUser name pubKey m).1 -> (manifest.AddUser name pubKey m).2 = m).
Proof.
  cbn zeta. unfold manifest.AddUser.
  pose proof (existsb_PublicKey (strings_TrimSpace pubKey) (manifest.AccessControl m))
    as Hex.
  case_decide as Hname; [|case_decide as Hkey; [|destruct (existsb _ _) eqn:Hdup]]; cbn.
  - split; [split; [by left|by eexists]|]. split; [|done].
    split; [done|]. by intros [? _].
  - split; [split; [by right; left|by eexists]|]. split; [|done].
    split; [done|]. by intros (_ & ? & _).
  - assert (strings_TrimSpace pubKey ∈ manifest.PublicKey <$> manifest.AccessControl m)
      as Hin by (by apply Hex).
    split; [split; [by right; right|by eexists]|]. split; [|done].
    split; [done|done].
  - assert (strings_TrimSpace pubKey ∉ manifest.PublicKey <$> manifest.AccessControl m)
      as Hnot by (intros Hin; apply Hex in Hin; congruence).
    split; [split; [by intros [? [=]]|by intros [?|[?|?]]]|].
    split; [|by intros [? [=]]]. split; [done|]. by intros (_ & _ & ?).
Qed.

(** X19. What [normalizeInPlace] keeps.  A user is in the normalized roster
    exactly when it is the trimmed form of an entry whose trimmed public key
    is not empty and is not the trimmed public key of an earlier entry (the
    first occurrence wins); no two users of the result share a public key;
    the result is in order of name, then public key; the project name is
    untouched. *)
Theorem normalizeInPlace_keeps_first_per_key `{External} (m : manifest.Manifest) :
  let users := manifest.AccessControl (manifest.normalizeInPlace m) in
  NoDup (manifest.PublicKey <$> users) /\
  (forall u, u ∈ users <->
     manifest.PublicKey u <> "" /\
     exists before u0 after,
       manifest.AccessControl m = before ++ u0 :: after /\ u = trimmed u0 /\
       manifest.PublicKey u ∉ (manifest.PublicKey <$> (trimmed <$> before))) /\
  isSortedBy manifest.lessByNameThenKey users = true /\
  manifest.ProjectName (manifest.normalizeInPlace m) = manifest.ProjectName m.
Proof.
  cbn zeta. unfold manifest.normalizeInPlace. cbn [manifest.AccessControl
    manifest.set_AccessControl manifest.ProjectName].
  destruct (normalize_loop_spec (manifest.AccessControl m) ∅ []) as [Hnd Hmem].
  { intros k. cbn. split; [by intros ?%elem_of_empty|by intros ?%elem_of_nil]. }
  { cbn. apply NoDup_nil_2. }
  pose proof (sort_Slice_Permutation manifest.lessByNameThenKey
                (manifest.normalize_loop (manifest.AccessControl m) ∅ [])) as Hperm.
  split; [by rewrite Hperm|]. split; [|split; [|done]].
  - intros u. rewrite Hperm, Hmem. cbn. split.
    + intros [?%elem_of_nil|(Hne & _ & Hex)]; [done|]. by split.
    + intros [Hne Hex]. right. split; [done|]. split; [apply not_elem_of_nil|done].
  - apply sort_Slice_sorted, lessByNameThenKey_asym.
Qed.

(** X20. [normalizeInPlace] leaves a normal roster as it is: when every
    user is trimmed and has a public key, no two users share a public key
    and the roster is in order of name then public key, the manifest after
    [normalizeInPlace] is the manifest from before. *)
Theorem normalizeInPlace_normal `{External} (m : manifest.Manifest) :
  (forall u, u ∈ manifest.AccessControl m -> trimmed u = u /\ manifest.PublicKey u <> "") ->
  NoDup (manifest.PublicKey <$> manifest.AccessControl m) ->
  isSortedBy manifest.lessByNameThenKey (manifest.AccessControl m) = true ->
  manifest.normalizeInPlace m = m.
Proof.
  intros Hall Hnd Hsorted. unfold manifest.normalizeInPlace. cbn zeta.
  rewrite normalize_loop_normal; [|intros u Hu|done].
  - cbn [app]. rewrite sort_Slice_in_order by done. apply Manifest_eta.
  - destruct (Hall u Hu) as [? ?]. split; [done|]. split; [done|]. apply not_elem_of_empty.
Qed.

Lemma normalizeInPlace_normal_witness :
  let m := {| manifest.ProjectName := "demo";
              manifest.AccessControl :=
                [ {| manifest.Name := "bob"; manifest.PublicKey := "age1aaa" |};
                  {| manifest.Name := "bob"; manifest.PublicKey := "age1zzz" |};
                  {| manifest.Name := "carol"; manifest.PublicKey := "age1mmm" |} ] |} in
  @manifest.normalizeInPlace Sim_libs m = m.
Proof.
  cbv zeta. apply (@normalizeInPlace_normal Sim_libs).
  - intros u Hu. cbn in Hu.
    repeat (apply elem_of_cons in Hu as [->|Hu]; [by vm_compute|]).
    by apply elem_of_nil in Hu.
  - cbn. repeat (apply NoDup_cons; split;
      [rewrite ?elem_of_cons, elem_of_nil; intros Hk; by repeat destruct Hk as [Hk|Hk]|]).
    apply NoDup_nil_2.
  - by vm_compute.
Defined.

(** X21. [RemoveUser] removes every user that matches, and only those.
    With [id] the trimmed identifier: the call reports a removal exactly
    when [id] is not empty and some user has it as name or as public key;
    when it reports none the manifest is the one from before; when [id] is
    not empty the roster left is the old one, in its order, without the
    users whose name or public key is [id], and [FindUserByPublicKey] of the
    identifier then finds nobody; the project name is untouched.
    [RemoveUserStrict] leaves the same manifest and fails, with
    [ErrUserNotFound], exactly when no removal is reported. *)
Theorem RemoveUser_removes_every_match `{External} (identifier : string)
    (m : manifest.Manifest) :
  let id := strings_TrimSpace identifier in
  let found := (manifest.RemoveUser identifier m).1 in
  let m' := (manifest.RemoveUser identifier m).2 in
  (found = true <->
     id <> "" /\
     exists u, u ∈ manifest.AccessControl m /\
               (manifest.Name u = id \/ manifest.PublicKey u = id)) /\
  (found = false -> m' = m) /\
  (id <> "" ->
     manifest.AccessControl m'
     = filter (fun u => manifest.Name u <> id /\ manifest.PublicKey u <> id)
         (manifest.AccessControl m)) /\
  (id <> "" -> (manifest.FindUserByPublicKey identifier m').2 = false) /\
  manifest.ProjectName m' = manifest.ProjectName m /\
  manifest.RemoveUserStrict identifier m
  = (if found then Ok tt else Err ErrUserNotFound, m').
Proof.
  cbn zeta. unfold manifest.RemoveUserStrict, manifest.RemoveUser.
  case_decide as Hid.
  { cbn. split; [split; [done|by intros [? _]]|]. repeat split; done. }
  rewrite RemoveUser_loop_spec. cbn [app orb].
  set (matches := fun u => bool_decide (manifest.Name u = strings_TrimSpace identifier)
                           || bool_decide (manifest.PublicKey u
                                           = strings_TrimSpace identifier)).
  assert (forall u, matches u = false <->
            manifest.Name u <> strings_TrimSpace identifier /\
            manifest.PublicKey u <> strings_TrimSpace identifier) as Hmatch.
  { intros u. unfold matches. rewrite orb_false_iff, !bool_decide_eq_false. done. }
  assert (filter (fun u => matches u = false) (manifest.AccessControl m)
          = filter (fun u => manifest.Name u <> strings_TrimSpace identifier /\
                             manifest.PublicKey u <> strings_TrimSpace identifier)
              (manifest.AccessControl m)) as Hfilter.
  { apply list_filter_iff. intros u. apply Hmatch. }
  assert (existsb matches (manifest.AccessControl m) = true <->
          exists u, u ∈ manifest.AccessControl m /\
                    (manifest.Name u = strings_TrimSpace identifier \/
                     manifest.PublicKey u = strings_TrimSpace identifier)) as Hex.
  { rewrite existsb_exists. split; intros (u & Hu & Hm); exists u.
    - split; [by apply list_elem_of_In|]. unfold matches in Hm.
      apply orb_true_iff in Hm. by rewrite !bool_decide_eq_true in Hm.
    - split; [by apply list_elem_of_In|]. unfold matches.
      apply orb_true_iff. by rewrite !bool_decide_eq_true. }
  assert (existsb matches (manifest.AccessControl m) = false ->
          filter (fun u => matches u = false) (manifest.AccessControl m)
          = manifest.AccessControl m) as Hnone.
  { clear. induction (manifest.AccessControl m) as [|u rest IH]; [done|].
    cbn [existsb]. intros [Hu Hrest]%orb_false_iff.
    rewrite filter_cons, decide_True by done. by rewrite IH. }
  destruct (existsb matches (manifest.AccessControl m)) eqn:Hfound;
    cbn [fst snd manifest.AccessControl manifest.ProjectName manifest.set_AccessControl].
  - split; [split; [intros _; split; [done|by apply Hex]|done]|].
    split; [done|]. split; [done|]. split; [|done].
    intros _. unfold manifest.FindUserByPublicKey. cbn [manifest.AccessControl].
    rewrite FindUser_loop_absent; [done|].
    intros (u & Hkey & Hu)%list_elem_of_fmap. apply list_elem_of_filter in Hu as [Hu _].
    apply Hmatch in Hu as [_ Hne]. by destruct Hne.
  - split; [split; [done|intros [_ Hsome]; by apply Hex in Hsome]|].
    split; [done|]. split; [intros _; by rewrite <- Hfilter, Hnone|]. split; [|done].
    intros _. unfold manifest.FindUserByPublicKey.
    rewrite FindUser_loop_absent; [done|].
    intros (u & Hkey & Hu)%list_elem_of_fmap.
    assert (false = true) as Habs; [|done].
    apply Hex. exists u. split; [done|]. by right.
Qed.

(** X22. The recipients of a loaded manifest.  Whatever the file holds,
    when [LoadManifest] returns a manifest, [GetPublicKeys] of it lists the
    public key of every user of its roster, in the order of the roster, no
    key twice and none empty; and the roster is in order of name, then
    public key. *)
Theorem LoadManifest_recipients `{External} (unmarshal : list byte -> option manifest.Manifest)
    (disk : gmap string file) (m : manifest.Manifest) :
  manifest.LoadManifest unmarshal disk = Ok m ->
  manifest.GetPublicKeys m = manifest.PublicKey <$> manifest.AccessControl m /\
  NoDup (manifest.GetPublicKeys m) /\
  ("" ∉ manifest.GetPublicKeys m) /\
  isSortedBy manifest.lessByNameThenKey (manifest.AccessControl m) = true.
Proof.
  unfold manifest.LoadManifest.
  assert (forall m0 : manifest.Manifest,
            (forall u, u ∈ manifest.AccessControl m0 -> manifest.PublicKey u <> "") ->
            manifest.GetPublicKeys m0 = manifest.PublicKey <$> manifest.AccessControl m0)
    as Hkeys.
  { intros m0 Hall. unfold manifest.GetPublicKeys. f_equal.
    induction (manifest.AccessControl m0) as [|u rest IH]; [done|].
    rewrite filter_cons, decide_True.
    - f_equal. apply IH. intros u' Hu'. apply Hall, elem_of_cons. by right.
    - apply Hall, elem_of_cons. by left. }
  destruct (os_ReadFile disk manifest.ManifestFileName) as [| |data]; [|done|].
  - intros [= <-]. cbn. split; [done|]. split; [apply NoDup_nil_2|].
    split; [apply not_elem_of_nil|done].
  - destruct (unmarshal data) as [m0|]; [|done]. intros [= <-].
    destruct (normalize_loop_spec (manifest.AccessControl m0) ∅ []) as [Hnd Hmem].
    { intros k. cbn. split; [by intros ?%elem_of_empty|by intros ?%elem_of_nil]. }
    { cbn. apply NoDup_nil_2. }
    pose proof (sort_Slice_Permutation manifest.lessByNameThenKey
                  (manifest.normalize_loop (manifest.AccessControl m0) ∅ [])) as Hperm.
    assert (forall u, u ∈ manifest.AccessControl (manifest.normalizeInPlace m0) ->
                      manifest.PublicKey u <> "") as Hall.
    { intros u. unfold manifest.normalizeInPlace. cbn. rewrite Hperm, Hmem.
      intros [?%elem_of_nil|[? _]]; done. }
    rewrite (Hkeys _ Hall). split; [done|]. split; [|split].
    + unfold manifest.normalizeInPlace. cbn. by rewrite Hperm.
    + intros (u & Hkey & Hu)%list_elem_of_fmap. by apply (Hall u).
    + apply normalizeInPlace_sorted.
Qed.

Lemma LoadManifest_recipients_witness :
  let listed := {| manifest.ProjectName := "demo";
                   manifest.AccessControl :=
                     [ {| manifest.Name := " dave "; manifest.PublicKey := "age1zzz" |};
                       {| manifest.Name := "erin"; manifest.PublicKey := "  " |};
                       {| manifest.Name := "bob"; manifest.PublicKey := " age1zzz" |};
                       {| manifest.Name := "carol"; manifest.PublicKey := "age1mmm" |} ] |} in
  let disk : gmap string file := {[ "envseal.yaml" := File [] ]} in
  exists m,
    @manifest.LoadManifest Sim_libs (fun _ => Some listed) disk = Ok m /\
    manifest.GetPublicKeys m = ["age1mmm"; "age1zzz"] /\
    NoDup (manifest.GetPublicKeys m).
Proof.
  intros listed disk. exists (@manifest.normalizeInPlace Sim_libs listed).
  assert (@manifest.LoadManifest Sim_libs (fun _ => Some listed) disk
          = Ok (@manifest.normalizeInPlace Sim_libs listed)) as Hload by reflexivity.
  split; [done|]. split; [by vm_compute|].
  exact (proj1 (proj2 (@LoadManifest_recipients Sim_libs _ _ _ Hload))).
Defined.

(** X23. What [Manifest.Save] writes, [LoadManifest] reads back
    normalized, and a failed [Save] writes nothing.  With a temporary name
    that is not on the disk and is not the manifest's file, and yaml
    decoding what it encoded for this manifest: after a successful [Save]
    [LoadManifest] returns the normalized manifest and every other file is
    as before; after a failed one the disk is the one from before. *)
Theorem Manifest_Save_then_LoadManifest `{External}
    (marshal : manifest.Manifest -> option (list byte))
    (unmarshal : list byte -> option manifest.Manifest)
    (m : manifest.Manifest) (tmpName : string) (fault : io_fault)
    (disk : gmap string file) :
  (forall data, marshal m = Some data -> unmarshal data = Some m) ->
  disk !! tmpName = None -> tmpName <> manifest.ManifestFileName ->
  match manifest.Save marshal m tmpName fault disk with
  | (Ok _, disk') =>
      manifest.LoadManifest unmarshal disk' = Ok (manifest.normalizeInPlace m) /\
      (forall p, p <> manifest.ManifestFileName -> disk' !! p = disk !! p)
  | (Err _, disk') => disk' = disk
  end.
Proof.
  intros Hyaml Hfresh Hne. unfold manifest.Save.
  destruct (marshal m) as [data|] eqn:Hdata; [|done].
  assert (match filesystem.AtomicWriteFile manifest.ManifestFileName data 384 tmpName
                  fault disk with
          | (Ok _, disk') =>
              manifest.LoadManifest unmarshal disk' = Ok (manifest.normalizeInPlace m) /\
              (forall p, p <> manifest.ManifestFileName -> disk' !! p = disk !! p)
          | (Err _, disk') => disk' = disk
          end) as Hwrite.
  { unfold filesystem.AtomicWriteFile.
    assert (delete tmpName (<[manifest.ManifestFileName := File data]>
              (delete tmpName (<[tmpName := File data]> (<[tmpName := File []]> disk))))
            = <[manifest.ManifestFileName := File data]> disk) as Hok.
    { rewrite insert_insert_eq, delete_insert_id by done.
      rewrite delete_insert_ne by done. by rewrite delete_id. }
    destruct fault; cbn zeta iota; rewrite ?Hok;
      try (rewrite ?insert_insert_eq; by rewrite ?delete_insert_id).
    all: split; [|intros p Hp; by rewrite lookup_insert_ne].
    all: unfold manifest.LoadManifest, os_ReadFile; rewrite lookup_insert_eq.
    all: by rewrite (Hyaml data eq_refl). }
  destruct fault; try done.
Qed.

Lemma Manifest_Save_then_LoadManifest_witness :
  exists disk',
    manifest.Save (fun _ => Some [x01]) Sample.rosterBob ".envseal-1.tmp"
      NoFault Sample.diskBefore = (Ok tt, disk') /\
    @manifest.LoadManifest Sim_libs (fun _ => Some Sample.rosterBob) disk'
    = Ok Sample.rosterBob /\
    disk' !! "secrets.enc.yaml" = Sample.diskBefore !! "secrets.enc.yaml".
Proof.
  pose proof (@Manifest_Save_then_LoadManifest Sim_libs (fun _ => Some [x01])
                (fun _ => Some Sample.rosterBob) Sample.rosterBob ".envseal-1.tmp"
                NoFault Sample.diskBefore (fun _ _ => eq_refl) eq_refl
                ltac:(vm_compute; discriminate)) as Hsave.
  destruct (manifest.Save _ _ _ NoFault _) as [[[]|err] disk'] eqn:Hres;
    [|by vm_compute in Hres].
  exists disk'. destruct Hsave as [Hload Hframe]. split; [done|]. split.
  - rewrite Hload. by vm_compute.
  - apply Hframe. vm_compute. discriminate.
Defined.

(** ** The commands *)

Section CommandFacts.
Context `{External}.

(** A successful [Unlock] installs a key and leaves the document alone. *)
Lemma Unlock_Ok_inv (identity : option X25519Identity) (sf sf1 : config.SecretFile) :
  config.Unlock identity sf = (Ok tt, sf1) ->
  config.IsUnlocked sf1 = true /\
  config.RawData sf1 = config.RawData sf /\
  config.path sf1 = config.path sf.
Proof.
  unfold config.Unlock. destruct identity as [id|]; [|done].
  destruct (config.RawData sf !! config.MetadataKey) as [mi|]; [|done].
  destruct (yaml_Metadata mi) as [| |meta]; try done.
  induction (Recipients meta) as [|r rest IH]; cbn; [done|].
  destruct (crypto.DecryptDEK (Enc r) (Some id)) as [dek|err]; [|done].
  by intros [= <-].
Qed.

Lemma Lock_IsUnlocked (sf : config.SecretFile) :
  config.IsUnlocked (config.Lock sf) = false.
Proof. done. Qed.

(** [GetSecret] of a name that a successful [SetSecret] did not write. *)
Lemma GetSecret_after_set_other (key value key' : string) (sf sf' : config.SecretFile)
    (e e' : Entropy) :
  config.SetSecret key value sf e = (Ok tt, sf', e') ->
  strings_TrimSpace key' <> strings_TrimSpace key ->
  fst (config.GetSecret key' sf') = fst (config.GetSecret key' sf).
Proof.
  intros Hset Hkey'.
  pose proof (SetSecret_Ok_inv _ _ _ _ _ _ Hset)
    as (Hunlocked & _ & Hres & sealed & _ & Hdek & _ & Hraw).
  assert (config.IsUnlocked sf' = true) as Hunlocked'
    by (unfold config.IsUnlocked in *; by rewrite Hdek).
  destruct (decide (strings_TrimSpace key' = "")) as [Hempty|Hempty].
  { unfold config.GetSecret, config.IsUnlocked in *. rewrite Hdek.
    destruct (config.decryptedDEK sf); [|done]. by rewrite !decide_True. }
  destruct (config.reserved (strings_TrimSpace key')) eqn:Hres'.
  { unfold config.GetSecret, config.IsUnlocked in *. rewrite Hdek.
    destruct (config.decryptedDEK sf); [|done].
    rewrite !decide_False by done. by rewrite Hres'. }
  rewrite !GetSecret_storedEntry by done.
  rewrite (storedEntry_after_set _ _ _ _ _ _ _ Hset Hkey').
  destruct (storedEntry sf _); [|done]. by apply decryptAnyLocked_same.
Qed.

(** The loop of [runSet] keeps the key and leaves alone what it does not
    name. *)
Lemma setAll_Ok_frame (pairs : list (string * string)) (sf sf' : config.SecretFile)
    (e e' : Entropy) :
  commands.setAll pairs sf e = (Ok tt, sf', e') ->
  config.decryptedDEK sf' = config.decryptedDEK sf /\
  forall key', (forall k v, (k, v) ∈ pairs -> strings_TrimSpace k <> strings_TrimSpace key') ->
               fst (config.GetSecret key' sf') = fst (config.GetSecret key' sf).
Proof.
  revert sf e. induction pairs as [|[k v] rest IH]; intros sf e; cbn.
  - by intros [= <- <-].
  - destruct (config.SetSecret k v sf e) as [[[[]|err] sf1] e1] eqn:Hset; [|done].
    intros Hrest. destruct (IH _ _ Hrest) as [Hdek Hget].
    pose proof (SetSecret_Ok_inv _ _ _ _ _ _ Hset) as (_ & _ & _ & sealed & _ & Hdek1 & _).
    split; [congruence|]. intros key' Hother. rewrite Hget.
    + apply (GetSecret_after_set_other _ _ _ _ _ _ _ Hset). intros Heq.
      apply (Hother k v); [apply elem_of_cons; by left|done].
    + intros k2 v2 Hin. apply (Hother k2 v2). apply elem_of_cons. by right.
Qed.

(** The last value given for a name is the one that is read back. *)
Lemma setAll_Ok_last (before after : list (string * string)) (k v : string)
    (sf sf' : config.SecretFile) (e e' : Entropy) :
  rand_exact -> base64_roundtrip ->
  aead_roundtrip crypto.dekSize crypto.NonceSize ->
  commands.setAll (before ++ (k, v) :: after) sf e = (Ok tt, sf', e') ->
  (forall k2 v2, (k2, v2) ∈ after -> strings_TrimSpace k2 <> strings_TrimSpace k) ->
  fst (config.GetSecret k sf') = Ok v.
Proof.
  intros Hrand Hb64 Haead. revert sf e.
  induction before as [|[k0 v0] before IH]; intros sf e; cbn.
  - destruct (config.SetSecret k v sf e) as [[[[]|err] sf1] e1] eqn:Hset; [|done].
    intros Hrest Hother. destruct (setAll_Ok_frame _ _ _ _ _ Hrest) as [_ Hget].
    rewrite Hget by done. by eapply GetSecret_SetSecret.
  - destruct (config.SetSecret k0 v0 sf e) as [[[[]|err] sf1] e1] eqn:Hset; [|done].
    apply IH.
Qed.

(** A failed [UnsetSecret] leaves the stored entries as they were. *)
Lemma UnsetSecret_Err_stored (key : string) (sf sf' : config.SecretFile) (err : error) :
  config.UnsetSecret key sf = (Err err, sf') ->
  forall k', storedEntry sf' k' = storedEntry sf k'.
Proof.
  unfold config.UnsetSecret. destruct (config.decryptedDEK sf); [|by intros [= _ <-]].
  case_decide; [by intros [= _ <-]|].
  destruct (config.reserved _); [by intros [= _ <-]|].
  destruct (config.ensureSecretsMap true sf) as [[[secrets|]|err1] sf1] eqn:Hensure.
  - apply ensureSecretsMap_true_Ok in Hensure as (_ & Hraw & _).
    destruct (secrets !! strings_TrimSpace key),
             (config.RawData sf1 !! strings_TrimSpace key); try done.
    intros [= _ <-] k'. by apply storedEntry_ensured.
  - done.
  - apply ensureSecretsMap_true_Err in Hensure as ->. by intros [= _ <-].
Qed.

(** With nothing stored under any of the keys, the loop of [runUnset]
    removes nothing. *)
Lemma unsetAll_none (keys : list string) (sf : config.SecretFile) (removed warned : nat) :
  (forall k, k ∈ keys -> storedEntry sf (strings_TrimSpace k) = None) ->
  exists sf',
    commands.unsetAll keys sf removed warned = (sf', removed, warned + length keys) /\
    forall k', storedEntry sf' k' = storedEntry sf k'.
Proof.
  revert sf warned. induction keys as [|key rest IH]; intros sf warned Hnone; cbn.
  - exists sf. by rewrite Nat.add_0_r.
  - destruct (config.UnsetSecret key sf) as [[[]|err] sf1] eqn:Hunset.
    + apply UnsetSecret_Ok_inv in Hunset as (_ & _ & _ & Hstored & _).
      destruct Hstored. apply Hnone. apply elem_of_cons. by left.
    + pose proof (UnsetSecret_Err_stored _ _ _ _ Hunset) as Hsame.
      destruct (IH sf1 (S warned)) as (sf' & Hloop & Hsame').
      { intros k Hk. rewrite Hsame. apply Hnone. apply elem_of_cons. by right. }
      exists sf'. rewrite Hloop. split; [f_equal; lia|].
      intros k'. by rewrite Hsame'.
Qed.

Lemma normalizeKeys_loop_spec (args : list string) (set : gset string)
    (out : list string) :
  (forall k, k ∈ set <-> k ∈ out) -> NoDup out ->
  exists added,
    commands.normalizeKeys_loop args set out = out ++ added /\
    NoDup (out ++ added) /\
    added `sublist_of` (strings_TrimSpace <$> args) /\
    forall k, k ∈ out ++ added <->
              k ∈ out \/ (k <> "" /\ k ∈ strings_TrimSpace <$> args).
Proof.
  revert set out. induction args as [|a rest IH]; intros set out Hset Hnd.
  - exists []. cbn. rewrite app_nil_r. split; [done|]. split; [done|]. split; [done|].
    intros k. split; [by left|]. intros [?|[_ ?%elem_of_nil]]; done.
  - cbn [commands.normalizeKeys_loop fmap list_fmap]. cbv zeta.
    case_decide as Hempty; [|case_decide as Hin].
    + destruct (IH set out Hset Hnd) as (added & -> & Hnd' & Hsub & Hmem).
      exists added. split; [done|]. split; [done|]. split; [by apply sublist_cons|].
      intros k. rewrite Hmem, elem_of_cons. split; [tauto|].
      intros [?|[Hne [->|?]]]; [by left|done|by right].
    + destruct (IH set out Hset Hnd) as (added & -> & Hnd' & Hsub & Hmem).
      exists added. split; [done|]. split; [done|]. split; [by apply sublist_cons|].
      intros k. rewrite Hmem, elem_of_cons. split; [tauto|].
      intros [?|[Hne [->|?]]]; [by left|left; by apply Hset|by right].
    + destruct (IH ({[strings_TrimSpace a]} ∪ set) (out ++ [strings_TrimSpace a]))
        as (added & -> & Hnd' & Hsub & Hmem).
      { intros k. rewrite elem_of_union, elem_of_singleton, elem_of_app,
          list_elem_of_singleton, Hset. tauto. }
      { apply NoDup_app. split; [done|]. split; [|apply NoDup_singleton].
        intros k Hk. rewrite list_elem_of_singleton. intros ->. by apply Hin, Hset. }
      exists (strings_TrimSpace a :: added). rewrite <- app_assoc in *. cbn [app] in *.
      split; [done|]. split; [done|]. split; [by apply sublist_skip|].
      intros k. rewrite Hmem, elem_of_app, list_elem_of_singleton, elem_of_cons.
      split; [|tauto]. intros [[?| ->]|[? ?]]; [by left| |tauto].
      right. split; [done|by left].
Qed.

(** A failed [Init] or [SetSecret] on the way to a new secrets file, or a
    failed [Save], leaves the disk alone. *)
Lemma Save_Ok_disk (sf : config.SecretFile) (tmpName : string) (fault : io_fault)
    (disk disk' : gmap string file) :
  disk !! tmpName = None -> tmpName <> config.path sf ->
  config.Save sf tmpName fault disk = (Ok tt, disk') ->
  exists data, yaml_Marshal (config.RawData sf) = Some data /\
               disk' = <[config.path sf := File data]> disk.
Proof.
  intros Hfresh Hne. unfold config.Save.
  destruct (yaml_Marshal (config.RawData sf)) as [data|]; [|done].
  intros Hwrite. exists data. split; [done|].
  assert (filesystem.AtomicWriteFile (config.path sf) data 384 tmpName fault disk
          = (Ok tt, disk')) as Hatomic by (by destruct fault).
  clear Hwrite. unfold filesystem.AtomicWriteFile in Hatomic.
  destruct fault; try done; injection Hatomic as <-;
    rewrite insert_insert_eq, delete_insert_id by done;
    rewrite delete_insert_ne by done; by rewrite delete_id.
Qed.

End CommandFacts.

Section CommandDiskFacts.
Context `{External}.

Lemma ensureSecretsMap_path (create : bool) (sf : config.SecretFile) :
  config.path (snd (config.ensureSecretsMap create sf)) = config.path sf.
Proof.
  unfold config.ensureSecretsMap.
  destruct (config.RawData sf !! config.SecretsKey) as [[| | | | |m|legacy|]|];
    try done; try (by destruct create).
  by destruct (config.convertLegacy legacy ∅).
Qed.

Lemma SetSecret_path (key value : string) (sf : config.SecretFile) (e : Entropy) :
  config.path (snd (fst (config.SetSecret key value sf e))) = config.path sf.
Proof.
  unfold config.SetSecret. destruct (config.decryptedDEK sf); [|done].
  case_decide; [done|]. destruct (config.reserved _); [done|].
  destruct (crypto.EncryptValue _ _ _) as [[sealed|err] e1]; [|done].
  pose proof (ensureSecretsMap_path true sf) as Hp.
  by destruct (config.ensureSecretsMap true sf) as [[[secrets|]|err] sf1].
Qed.

Lemma UnsetSecret_path (key : string) (sf : config.SecretFile) :
  config.path (snd (config.UnsetSecret key sf)) = config.path sf.
Proof.
  unfold config.UnsetSecret. destruct (config.decryptedDEK sf); [|done].
  case_decide; [done|]. destruct (config.reserved _); [done|].
  pose proof (ensureSecretsMap_path true sf) as Hp.
  destruct (config.ensureSecretsMap true sf) as [[[secrets|]|err] sf1]; try done.
  by destruct (secrets !! strings_TrimSpace key),
              (config.RawData sf1 !! strings_TrimSpace key).
Qed.

Lemma setAll_path (pairs : list (string * string)) (sf : config.SecretFile) (e : Entropy) :
  config.path (snd (fst (commands.setAll pairs sf e))) = config.path sf.
Proof.
  revert sf e. induction pairs as [|[k v] rest IH]; intros sf e; cbn; [done|].
  pose proof (SetSecret_path k v sf e) as Hp.
  destruct (config.SetSecret k v sf e) as [[[[]|err] sf1] e1]; cbn in *; [|done].
  by rewrite IH.
Qed.

Lemma unsetAll_path (keys : list string) (sf : config.SecretFile) (removed warned : nat) :
  config.path (fst (fst (commands.unsetAll keys sf removed warned))) = config.path sf.
Proof.
  revert sf removed warned. induction keys as [|key rest IH]; intros sf removed warned;
    cbn; [done|].
  pose proof (UnsetSecret_path key sf) as Hp.
  destruct (config.UnsetSecret key sf) as [[[]|err] sf1]; cbn in *; by rewrite IH.
Qed.

(** [Save] writes at the path of the vault and nowhere else. *)
Lemma Save_frame (sf : config.SecretFile) (tmpName : string) (fault : io_fault)
    (disk : gmap string file) (p : string) :
  disk !! tmpName = None -> p <> config.path sf ->
  snd (config.Save sf tmpName fault disk) !! p = disk !! p.
Proof.
  intros Hfresh Hp. unfold config.Save.
  destruct (yaml_Marshal (config.RawData sf)) as [data|]; [|done].
  unfold filesystem.AtomicWriteFile.
  destruct (decide (p = tmpName)) as [->|Hne].
  - destruct fault; cbn; rewrite ?lookup_delete_eq; done.
  - destruct fault; cbn; rewrite ?lookup_delete_ne by done;
      rewrite ?lookup_insert_ne by done; rewrite ?lookup_delete_ne by done;
      rewrite ?lookup_insert_ne by done; done.
Qed.

(** The pair [runSet] builds from one argument. *)
Lemma setPairs_app (before after : list string) (a : string) :
  commands.setPairs (before ++ a :: after)
  = commands.setPairs before ++
    (strings_TrimSpace (commands.strings_Cut_eq a).1.1, (commands.strings_Cut_eq a).1.2)
    :: commands.setPairs after.
Proof.
  unfold commands.setPairs. rewrite fmap_app, fmap_cons. f_equal. f_equal.
  by destruct (commands.strings_Cut_eq a) as [[k v] ok].
Qed.

Lemma elem_of_setPairs (args : list string) (k v : string) :
  (k, v) ∈ commands.setPairs args ->
  exists a, a ∈ args /\ k = strings_TrimSpace (commands.strings_Cut_eq a).1.1.
Proof.
  unfold commands.setPairs. intros (a & Heq & Ha)%list_elem_of_fmap.
  exists a. split; [done|].
  destruct (commands.strings_Cut_eq a) as [[k0 v0] ok]. by injection Heq as -> ->.
Qed.

(** [GetSecret] and the listing. *)
Lemma GetAllSecrets_lists (key plaintext : string) (sf : config.SecretFile)
    (out : gmap string string) (sf' : config.SecretFile) :
  config.GetAllSecrets sf = (Ok out, sf') ->
  fst (config.GetSecret key sf) = Ok plaintext ->
  out !! strings_TrimSpace key = Some plaintext.
Proof.
  intros Hlist Hget.
  assert (config.IsUnlocked sf = true) as Hunlocked.
  { unfold config.GetSecret, config.IsUnlocked in *.
    by destruct (config.decryptedDEK sf). }
  assert (strings_TrimSpace key <> "" /\ config.reserved (strings_TrimSpace key) = false)
    as [Hempty Hres].
  { unfold config.GetSecret, config.IsUnlocked in *.
    destruct (config.decryptedDEK sf); [|done].
    case_decide; [done|]. by destruct (config.reserved _). }
  rewrite GetSecret_storedEntry in Hget by done.
  destruct (GetAllSecrets_lookup sf Hunlocked) as (out' & Hall & Hout).
  rewrite Hall in Hlist. injection Hlist as <- _.
  rewrite Hout. unfold storedEntry in Hget.
  destruct (secretsOf sf !! strings_TrimSpace key) as [v|].
  - destruct v; try done. cbn in Hget |- *. unfold listed. by rewrite Hget.
  - rewrite Hres in Hget.
    destruct (config.RawData sf !! strings_TrimSpace key) as [v|]; [|done]. cbn.
    unfold legacyEntry. rewrite Hres. destruct v; try done.
    cbn in Hget. unfold listed. by rewrite Hget.
Qed.

End CommandDiskFacts.

(** X24. The loop of [runSet]: the last value given for a name wins, the
    value is taken as it stands after the first [=], and what is not named
    stays.  When every [SetSecret] of the loop succeeds, [GetSecret] of the
    name of an argument returns the value of that argument, unless a later
    argument has the same name; [GetSecret] of a name that no argument has
    returns what it returned before; the key of the vault is the same.  The
    AEAD, base64 and the entropy source are assumed to meet their
    contracts. *)
Theorem runSet_last_value_wins `{External} (args : list string)
    (sf sf' : config.SecretFile) (e e' : Entropy) :
  rand_exact -> base64_roundtrip ->
  aead_roundtrip crypto.dekSize crypto.NonceSize ->
  commands.setAll (commands.setPairs args) sf e = (Ok tt, sf', e') ->
  let name a := strings_TrimSpace (commands.strings_Cut_eq a).1.1 in
  let value a := (commands.strings_Cut_eq a).1.2 in
  (forall before a after,
     args = before ++ a :: after ->
     (forall a', a' ∈ after -> strings_TrimSpace (name a') <> strings_TrimSpace (name a)) ->
     fst (config.GetSecret (name a) sf') = Ok (value a)) /\
  (forall key,
     (forall a, a ∈ args -> strings_TrimSpace (name a) <> strings_TrimSpace key) ->
     fst (config.GetSecret key sf') = fst (config.GetSecret key sf)) /\
  config.decryptedDEK sf' = config.decryptedDEK sf.
Proof.
  intros Hrand Hb64 Haead Hloop. cbv zeta. split; [|split].
  - intros before a after ->. rewrite setPairs_app in Hloop. intros Hlater.
    eapply setAll_Ok_last; try done.
    intros k2 v2 (a' & Ha' & ->)%elem_of_setPairs. by apply Hlater.
  - intros key Hother. destruct (setAll_Ok_frame _ _ _ _ _ Hloop) as [_ Hget].
    apply Hget. intros k v (a & Ha & ->)%elem_of_setPairs. by apply Hother.
  - by destruct (setAll_Ok_frame _ _ _ _ _ Hloop).
Qed.

Lemma runSet_last_value_wins_witness :
  exists sf' e',
    @commands.setAll Sim_libs (@commands.setPairs Sim_libs ["A=1"; "URL=x=y "; " A =2"])
      Sample.docOneSecret (Sim.tape 36) = (Ok tt, sf', e') /\
    fst (@config.GetSecret Sim_libs "A" sf') = Ok "2" /\
    fst (@config.GetSecret Sim_libs "URL" sf') = Ok "x=y " /\
    fst (@config.GetSecret Sim_libs "K" sf') = Ok "v".
Proof.
  destruct (@commands.setAll Sim_libs
              (@commands.setPairs Sim_libs ["A=1"; "URL=x=y "; " A =2"])
              Sample.docOneSecret (Sim.tape 36)) as [[r sf'] e'] eqn:Hloop.
  assert (r = Ok tt) as ->.
  { assert (fst (fst (@commands.setAll Sim_libs
                        (@commands.setPairs Sim_libs ["A=1"; "URL=x=y "; " A =2"])
                        Sample.docOneSecret (Sim.tape 36))) = Ok tt) as Hr
      by (vm_compute; reflexivity).
    by rewrite Hloop in Hr. }
  exists sf', e'. split; [done|].
  destruct (@runSet_last_value_wins Sim_libs _ _ _ _ _
              Sim_rand_exact Sim_base64_roundtrip (Sim_aead_roundtrip _ _) Hloop)
    as (Hlast & Hframe & _).
  split; [|split].
  - apply (Hlast ["A=1"; "URL=x=y "] " A =2" []); [done|].
    by intros a' ?%elem_of_nil.
  - apply (Hlast ["A=1"] "URL=x=y " [" A =2"]); [done|].
    intros a' ->%list_elem_of_singleton. vm_compute. discriminate.
  - rewrite (Hframe "K"); [vm_compute; reflexivity|].
    intros a Ha.
    repeat (apply elem_of_cons in Ha as [->|Ha]; [vm_compute; discriminate|]).
    by apply elem_of_nil in Ha.
Defined.

(** X25. [runSet] writes once, at its end, and only the vault.  With a
    temporary name that is not on the disk: whenever the command returns an
    error, at whatever step, the disk is the one from before; in every case
    each file other than the vault that was loaded is as before; and when
    the secret file was unlocked, the object is locked when the command
    returns. *)
Theorem runSet_writes_last `{External} (args : list string) (deps : commands.Deps)
    (identityFilePath secretFilePath tmpName : string) (fault : io_fault)
    (disk : gmap string file) (e : Entropy) :
  disk !! tmpName = None ->
  let out := commands.runSet args deps identityFilePath secretFilePath
               tmpName fault disk e in
  (is_Err (commands.returned out) -> commands.onDisk out = disk) /\
  (forall sf p, commands.SecretsStore_Load deps secretFilePath = Ok sf ->
                p <> config.path sf -> commands.onDisk out !! p = disk !! p) /\
  (forall ident sf sf1,
     commands.IdentityManager_Load deps identityFilePath = Ok ident ->
     commands.SecretsStore_Load deps secretFilePath = Ok sf ->
     config.Unlock ident sf = (Ok tt, sf1) ->
     (config.IsUnlocked <$> commands.inMemory out) = Some false).
Proof.
  intros Hfresh. cbv zeta. unfold commands.runSet.
  destruct (commands.IdentityManager_Load _ _) as [ident|]; [|by repeat split].
  destruct (commands.SecretsStore_Load _ _) as [sf|]; [|by repeat split].
  destruct (config.Unlock ident sf) as [[[]|err] sf1] eqn:Hunlock;
    [|split; [done|split; [done|intros ? ? ? [= <-] [= <-]; by rewrite Hunlock]]].
  apply Unlock_Ok_inv in Hunlock as (_ & _ & Hpath1).
  pose proof (setAll_path (commands.setPairs args) sf1 e) as Hpath2.
  destruct (commands.setAll _ _ _) as [[[[]|err] sf2] e2]; [|by repeat split].
  cbn in Hpath2.
  pose proof (Save_frame sf2 tmpName fault disk) as Hframe.
  destruct (config.Save sf2 tmpName fault disk) as [[[]|err] disk'] eqn:Hsave; cbn.
  - split; [by intros [? [=]]|]. split; [|done].
    intros sf0 p [= <-] Hp. apply Hframe; [done|congruence].
  - split; [intros _; by eapply Save_Err|]. split; [|done].
    intros sf0 p [= <-] Hp. apply Hframe; [done|congruence].
Qed.

Lemma runSet_writes_last_witness :
  let out := @commands.runSet Sim_libs ["A=1"] Sample.depsBogusKey
               "identity" "secrets.enc.yaml" ".envseal-1.tmp" FailRename
               Sample.diskBefore (Sim.tape 12) in
  is_Err (commands.returned out) /\
  commands.onDisk out = Sample.diskBefore /\
  (config.IsUnlocked <$> commands.inMemory out) = Some false.
Proof.
  cbv zeta.
  destruct (@runSet_writes_last Sim_libs ["A=1"] Sample.depsBogusKey
              "identity" "secrets.enc.yaml" ".envseal-1.tmp" FailRename
              Sample.diskBefore (Sim.tape 12) eq_refl) as (Herr & _ & Hlocked).
  assert (is_Err (commands.returned
            (@commands.runSet Sim_libs ["A=1"] Sample.depsBogusKey
               "identity" "secrets.enc.yaml" ".envseal-1.tmp" FailRename
               Sample.diskBefore (Sim.tape 12)))) as Hfails
    by (eexists; vm_compute; reflexivity).
  split; [done|]. split; [by apply Herr|].
  apply (Hlocked (Some Sample.alice) (config.Lock Sample.docOneSecret)
           Sample.docOneSecret); [done|done|vm_compute; reflexivity].
Defined.

(** X26. [runUnset] writes only when it removed something.  With a
    temporary name that is not on the disk: whenever the command returns an
    error the disk is the one from before, and each file other than the
    vault that was loaded is as before in every case.  When the vault
    unlocks and nothing is stored under any of the names given, the command
    returns no error, the disk is the one from before, and the vault it
    leaves in memory, locked, has the stored entries of the loaded one. *)
Theorem runUnset_writes_only_removals `{External} (args : list string)
    (deps : commands.Deps) (identityFilePath secretFilePath tmpName : string)
    (fault : io_fault) (disk : gmap string file) (e : Entropy) :
  disk !! tmpName = None ->
  let out := commands.runUnset args deps identityFilePath secretFilePath
               tmpName fault disk e in
  (is_Err (commands.returned out) -> commands.onDisk out = disk) /\
  (forall sf p, commands.SecretsStore_Load deps secretFilePath = Ok sf ->
                p <> config.path sf -> commands.onDisk out !! p = disk !! p) /\
  (forall ident sf sf1,
     commands.IdentityManager_Load deps identityFilePath = Ok ident ->
     commands.SecretsStore_Load deps secretFilePath = Ok sf ->
     config.Unlock ident sf = (Ok tt, sf1) ->
     (forall a, a ∈ args ->
                storedEntry sf (strings_TrimSpace (strings_TrimSpace a)) = None) ->
     commands.returned out = Ok tt /\ commands.onDisk out = disk /\
     exists sf', commands.inMemory out = Some (config.Lock sf') /\
                 forall k, storedEntry sf' k = storedEntry sf k).
Proof.
  intros Hfresh. cbv zeta. unfold commands.runUnset.
  destruct (commands.IdentityManager_Load _ _) as [ident|]; [|by repeat split].
  destruct (commands.SecretsStore_Load _ _) as [sf|]; [|by repeat split].
  destruct (config.Unlock ident sf) as [[[]|err] sf1] eqn:Hunlock;
    [|split; [done|split; [done|intros ? ? ? [= <-] [= <-]; by rewrite Hunlock]]].
  apply Unlock_Ok_inv in Hunlock as (_ & Hraw1 & Hpath1).
  pose proof (unsetAll_path (commands.normalizeKeys args) sf1 0 0) as Hpath2.
  pose proof (unsetAll_none (commands.normalizeKeys args) sf1 0 0) as Hnone.
  destruct (commands.unsetAll _ _ _ _) as [[sf2 removed] warned]. cbn in Hpath2.
  assert ((forall a, a ∈ args ->
                     storedEntry sf (strings_TrimSpace (strings_TrimSpace a)) = None) ->
          removed = 0 /\ forall k, storedEntry sf2 k = storedEntry sf k) as Hzero.
  { intros Habsent. destruct Hnone as (sf' & [= <- <- _] & Hsame).
    - intros k Hk. rewrite (storedEntry_same_raw sf1 sf) by done.
      destruct (normalizeKeys_loop_spec args ∅ []) as (added & Hloop & _ & _ & Hmem).
      { intros k0. split; [by intros ?%elem_of_empty|by intros ?%elem_of_nil]. }
      { apply NoDup_nil_2. }
      unfold commands.normalizeKeys in Hk. rewrite Hloop in Hk.
      apply Hmem in Hk as [?%elem_of_nil|[_ (a & -> & Ha)%list_elem_of_fmap]]; [done|].
      by apply Habsent.
    - split; [done|]. intros k. rewrite Hsame. by apply storedEntry_same_raw. }
  destruct removed as [|removed].
  - cbn. split; [by intros [? [=]]|]. split; [done|].
    intros ident0 sf0 sf3 _ [= <-] _ Habsent. split; [done|]. split; [done|].
    exists sf2. split; [done|]. by apply Hzero.
  - pose proof (Save_frame sf2 tmpName fault disk) as Hframe.
    destruct (config.Save sf2 tmpName fault disk) as [[[]|err] disk'] eqn:Hsave; cbn.
    + split; [by intros [? [=]]|]. split.
      * intros sf0 p [= <-] Hp. apply Hframe; [done|congruence].
      * intros ident0 sf0 sf3 _ [= <-] _ Habsent. by destruct (Hzero Habsent).
    + split; [intros _; by eapply Save_Err|]. split.
      * intros sf0 p [= <-] Hp. apply Hframe; [done|congruence].
      * intros ident0 sf0 sf3 _ [= <-] _ Habsent. by destruct (Hzero Habsent).
Qed.

Lemma runUnset_writes_only_removals_witness :
  let out := @commands.runUnset Sim_libs ["NOPE"; " GONE "] Sample.depsBogusKey
               "identity" "secrets.enc.yaml" ".envseal-1.tmp" NoFault
               Sample.diskBefore (Sim.tape 0) in
  commands.returned out = Ok tt /\ commands.onDisk out = Sample.diskBefore.
Proof.
  cbv zeta.
  destruct (@runUnset_writes_only_removals Sim_libs ["NOPE"; " GONE "]
              Sample.depsBogusKey "identity" "secrets.enc.yaml" ".envseal-1.tmp"
              NoFault Sample.diskBefore (Sim.tape 0) eq_refl) as (_ & _ & Hnone).
  destruct (Hnone (Some Sample.alice) (config.Lock Sample.docOneSecret)
              Sample.docOneSecret) as (Hok & Hdisk & _); [done|done| | |done].
  - vm_compute. reflexivity.
  - intros a Ha.
    repeat (apply elem_of_cons in Ha as [->|Ha]; [vm_compute; reflexivity|]).
    by apply elem_of_nil in Ha.
Defined.

Section UnsetKeysFacts.
Context `{External}.

(** The loop of [normalizeKeys] from any state, by the loop from the empty
    state. *)
Lemma normalizeKeys_loop_filter (args : list string) (set : gset string)
    (out : list string) :
  commands.normalizeKeys_loop args set out
  = out ++ filter (fun k => k ∉ set) (commands.normalizeKeys_loop args ∅ []).
Proof.
  revert set out. induction args as [|a rest IH]; intros set out.
  - cbn. by rewrite app_nil_r.
  - cbn [commands.normalizeKeys_loop]. cbv zeta.
    case_decide as Hempty; [apply IH|].
    rewrite (decide_False (P := strings_TrimSpace a ∈ (∅ : gset string)))
      by apply not_elem_of_empty.
    rewrite (IH ({[strings_TrimSpace a]} ∪ ∅) ([] ++ [strings_TrimSpace a])).
    cbn [app]. rewrite filter_cons, list_filter_filter.
    case_decide as Hin.
    + rewrite decide_False by (intros Hnot; by apply Hnot).
      rewrite IH. f_equal. apply list_filter_iff. intros k. split; [|tauto].
      intros Hk. split; [done|]. intros Hu. apply elem_of_union in Hu as [Hu|Hu].
      * apply elem_of_singleton in Hu as ->. done.
      * by apply elem_of_empty in Hu.
    + rewrite decide_True by done. rewrite IH, <- app_assoc. cbn [app]. f_equal. f_equal.
      apply list_filter_iff. intros k. split.
      * intros Hk. split; intros Hu; apply Hk, elem_of_union; [by right|].
        apply elem_of_union in Hu as [Hu|Hu]; [by left|by apply elem_of_empty in Hu].
      * intros [Hk Hne] Hu. apply elem_of_union in Hu as [Hu|Hu]; [|done].
        apply Hne, elem_of_union. by left.
Qed.

End UnsetKeysFacts.

(** X27. [ensureSecretsFile] never overwrites.  With a temporary name that
    is not on the disk and is not the path of the secrets file: when the
    call reports no creation, the file was there and the disk is untouched;
    when it reports a creation, no file was there, the disk differs at that
    path only, and what was written is the document of a vault that is
    unlocked and reads [HELLO] as the example text; when it fails, for
    whatever reason, the disk is the one from before.  The AEAD, base64 and
    the entropy source are assumed to meet their contracts. *)
Theorem ensureSecretsFile_never_overwrites `{External} (statFails : bool)
    (secretFilePath pubKey tmpName : string) (fault : io_fault)
    (disk : gmap string file) (e : Entropy) :
  rand_exact -> base64_roundtrip ->
  aead_roundtrip crypto.dekSize crypto.NonceSize ->
  disk !! tmpName = None -> tmpName <> secretFilePath ->
  match commands.ensureSecretsFile statFails secretFilePath pubKey tmpName fault disk e with
  | (Ok created, disk', _) =>
      if created
      then disk !! secretFilePath = None /\
           exists sf data,
             disk' = <[secretFilePath := File data]> disk /\
             yaml_Marshal (config.RawData sf) = Some data /\
             fst (config.GetSecret "HELLO" sf) = Ok "World (Encrypted with EnvSeal)"
      else is_Some (disk !! secretFilePath) /\ disk' = disk
  | (Err _, disk', _) => disk' = disk
  end.
Proof.
  intros Hrand Hb64 Haead Hfresh Hne. unfold commands.ensureSecretsFile, commands.os_Stat.
  destruct statFails; [done|].
  destruct (disk !! secretFilePath) as [f|] eqn:Hthere; [by split|].
  destruct (config.Init [pubKey] (config.NewSecretFile secretFilePath) e)
    as [[[[]|err] sf1] e1] eqn:Hinit; [|done].
  destruct (config.SetSecret "HELLO" "World (Encrypted with EnvSeal)" sf1 e1)
    as [[[[]|err] sf2] e2] eqn:Hset; [|done].
  assert (config.path sf2 = secretFilePath) as Hpath.
  { pose proof (SetSecret_path "HELLO" "World (Encrypted with EnvSeal)" sf1 e1) as Hp2.
    rewrite Hset in Hp2. cbn in Hp2. rewrite Hp2.
    apply Init_Ok_inv in Hinit as (dek & e0 & rs & _ & _ & Hp1 & _).
    rewrite Hp1. by rewrite NewSecretFile_eq. }
  destruct (config.Save sf2 tmpName fault disk) as [[[]|err] disk'] eqn:Hsave.
  - split; [done|].
    apply Save_Ok_disk in Hsave as (data & Hdata & ->); [|done|by rewrite Hpath].
    exists sf2, data. rewrite Hpath. split; [done|]. split; [done|].
    by eapply GetSecret_SetSecret.
  - exact (Save_Err _ _ _ _ _ _ Hfresh Hsave).
Qed.

Lemma ensureSecretsFile_never_overwrites_witness :
  @commands.ensureSecretsFile Sim_libs false "secrets.enc.yaml" "age1alice"
    ".envseal-1.tmp" NoFault Sample.diskBefore (Sim.tape 44)
  = (Ok false, Sample.diskBefore, Sim.tape 44).
Proof.
  pose proof (@ensureSecretsFile_never_overwrites Sim_libs false "secrets.enc.yaml"
                "age1alice" ".envseal-1.tmp" NoFault Sample.diskBefore (Sim.tape 44)
                Sim_rand_exact Sim_base64_roundtrip (Sim_aead_roundtrip _ _)
                eq_refl ltac:(vm_compute; discriminate)) as Hensure.
  destruct (@commands.ensureSecretsFile Sim_libs false "secrets.enc.yaml" "age1alice"
              ".envseal-1.tmp" NoFault Sample.diskBefore (Sim.tape 44))
    as [[[created|err] disk'] e'] eqn:Hres; [|by vm_compute in Hres].
  destruct created; [by vm_compute in Hres|].
  destruct Hensure as [_ ->]. f_equal. vm_compute in Hres. by injection Hres as <-.
Defined.

(** X28. The names [runUnset] works on: [normalizeKeys] returns the trimmed
    arguments without the empty ones, each once, in the order of first
    appearance.  A name is in the result exactly when it is not empty and is
    the trimmed form of an argument; no name is there twice; and the result
    for an argument list is the trimmed first argument, when that is not
    empty, followed by the result for the rest without that name. *)
Theorem normalizeKeys_first_appearance `{External} (args : list string) :
  NoDup (commands.normalizeKeys args) /\
  (forall k, k ∈ commands.normalizeKeys args <->
             k <> "" /\ exists a, a ∈ args /\ strings_TrimSpace a = k) /\
  (forall a rest,
     args = a :: rest ->
     commands.normalizeKeys args
     = if decide (strings_TrimSpace a = "") then commands.normalizeKeys rest
       else strings_TrimSpace a ::
            filter (fun k => k <> strings_TrimSpace a) (commands.normalizeKeys rest)).
Proof.
  unfold commands.normalizeKeys.
  destruct (normalizeKeys_loop_spec args ∅ []) as (added & Hloop & Hnd & _ & Hmem).
  { intros k. split; [by intros ?%elem_of_empty|by intros ?%elem_of_nil]. }
  { apply NoDup_nil_2. }
  rewrite Hloop. split; [done|]. split.
  - intros k. rewrite Hmem. split.
    + intros [?%elem_of_nil|[Hne (a & -> & Ha)%list_elem_of_fmap]]; [done|].
      split; [done|]. by exists a.
    + intros [Hne (a & Ha & <-)]. right. split; [done|]. by apply list_elem_of_fmap_2.
  - intros a rest ->. rewrite <- Hloop. cbn [commands.normalizeKeys_loop]. cbv zeta.
    case_decide as Hempty; [done|].
    rewrite (decide_False (P := strings_TrimSpace a ∈ (∅ : gset string)))
      by apply not_elem_of_empty.
    rewrite normalizeKeys_loop_filter. cbn [app]. f_equal.
    apply list_filter_iff. intros k.
    rewrite elem_of_union, elem_of_singleton. split; [tauto|].
    intros Hne [->|?%elem_of_empty]; done.
Qed.

(** X29. [runPrint] lists every secret that can be read.  Once the vault
    is unlocked the command cannot fail: it prints one [NAME=VALUE] line per
    listed name, the names in increasing order and none twice; whenever
    [GetSecret] of the unlocked vault returns a plaintext for a key, the
    line of the trimmed key with that plaintext is printed; and the object
    is locked when the command returns. *)
Theorem runPrint_lists_every_secret `{External} (deps : commands.Deps)
    (identityFilePath secretFilePath : string) (ident : option X25519Identity)
    (sf sf1 : config.SecretFile) :
  commands.IdentityManager_Load deps identityFilePath = Ok ident ->
  commands.SecretsStore_Load deps secretFilePath = Ok sf ->
  config.Unlock ident sf = (Ok tt, sf1) ->
  exists plain names sf2,
    fst (config.GetAllSecrets sf1) = Ok plain /\
    commands.runPrint deps identityFilePath secretFilePath
    = (Ok ((fun k => k +:+ "=" +:+ default "" (plain !! k)) <$> names),
       Some (config.Lock sf2)) /\
    StronglySorted String.le names /\ NoDup names /\
    (forall k, k ∈ names <-> is_Some (plain !! k)) /\
    (forall key p,
       fst (config.GetSecret key sf1) = Ok p ->
       strings_TrimSpace key ∈ names /\
       strings_TrimSpace key +:+ "=" +:+ p
       ∈ (fun k => k +:+ "=" +:+ default "" (plain !! k)) <$> names).
Proof.
  intros Hident Hload Hunlock. unfold commands.runPrint.
  rewrite Hident, Hload, Hunlock.
  pose proof (Unlock_Ok_inv _ _ _ Hunlock) as (Hunlocked & _).
  destruct (GetAllSecrets_lookup sf1 Hunlocked) as (plain & Hall & Hout).
  rewrite Hall.
  exists plain, (sort_Strings (map_to_list plain).*1), (config.ensureSecretsMap false sf1).2.
  assert (forall k, k ∈ sort_Strings (map_to_list plain).*1 <-> is_Some (plain !! k))
    as Hnames.
  { intros k. unfold sort_Strings. rewrite merge_sort_Permutation.
    rewrite list_elem_of_fmap. split.
    - intros ([k0 v] & -> & Hkv). apply elem_of_map_to_list in Hkv. by exists v.
    - intros [v Hv]. exists (k, v). split; [done|]. by apply elem_of_map_to_list. }
  split; [done|]. split; [done|]. split; [|split; [|split; [done|]]].
  - apply StronglySorted_merge_sort; apply _.
  - unfold sort_Strings. rewrite merge_sort_Permutation. apply NoDup_fst_map_to_list.
  - intros key p Hget.
    pose proof (GetAllSecrets_lists _ _ _ _ _ Hall Hget) as Hlisted.
    assert (strings_TrimSpace key ∈ sort_Strings (map_to_list plain).*1) as Hin
      by (apply Hnames; by exists p).
    split; [done|]. apply list_elem_of_fmap. exists (strings_TrimSpace key).
    split; [|done]. by rewrite Hlisted.
Qed.

Lemma runPrint_lists_every_secret_witness :
  exists sf2,
    @commands.runPrint Sim_libs Sample.depsBogusKey "identity" "secrets.enc.yaml"
    = (Ok ["K=v"], Some sf2) /\ config.IsUnlocked sf2 = false.
Proof.
  destruct (@runPrint_lists_every_secret Sim_libs Sample.depsBogusKey
              "identity" "secrets.enc.yaml" (Some Sample.alice)
              (config.Lock Sample.docOneSecret) Sample.docOneSecret
              eq_refl eq_refl ltac:(vm_compute; reflexivity))
    as (plain & names & sf2 & _ & Hrun & _).
  exists (config.Lock sf2). split; [|done].
  rewrite Hrun. f_equal.
  assert (fst (@commands.runPrint Sim_libs Sample.depsBogusKey "identity"
                 "secrets.enc.yaml") = Ok ["K=v"]) as Hlines
    by (vm_compute; reflexivity).
  rewrite Hrun in Hlines. exact Hlines.
Defined.

Section ArgumentFacts.
Context `{External}.

(** [strings.Cut(s, "=")] finds a separator exactly when [s] is some [k],
    without [=], followed by [=] and some [v]; [k] and [v] are what it
    returns. *)
Lemma strings_Cut_eq_found (s k v : string) :
  commands.strings_Cut_eq s = (k, v, true) <->
  s = k +:+ "=" +:+ v /\ "="%char ∉ list_ascii_of_string k.
Proof.
  revert k. induction s as [|c rest IH]; intros k.
  - cbn. split; [done|]. intros [Hs _].
    destruct k; [by rewrite append_nil in Hs|by rewrite append_cons in Hs].
  - cbn [commands.strings_Cut_eq]. destruct (Ascii.eqb c "="%char) eqn:Hc.
    + apply Ascii.eqb_eq in Hc as ->. split.
      * intros [= <- <-]. rewrite append_nil. split; [done|]. cbn. apply not_elem_of_nil.
      * intros [Hs Hk]. destruct k as [|c' k'].
        -- rewrite append_nil in Hs. by injection Hs as ->.
        -- rewrite append_cons in Hs. injection Hs as <- _.
           destruct Hk. cbn. apply elem_of_cons. by left.
    + apply Ascii.eqb_neq in Hc.
      destruct (commands.strings_Cut_eq rest) as [[k0 v0] found] eqn:Hcut. split.
      * intros [= <- <- ->]. destruct (proj1 (IH k0) eq_refl) as [-> Hk0].
        rewrite append_cons. split; [done|]. cbn.
        apply not_elem_of_cons. split; [congruence|done].
      * intros [Hs Hk]. destruct k as [|c' k'].
        -- rewrite append_nil in Hs. injection Hs as -> _. done.
        -- rewrite append_cons in Hs. injection Hs as <- Hrest.
           cbn in Hk. apply not_elem_of_cons in Hk as [_ Hk'].
           pose proof (proj2 (IH k') (conj Hrest Hk')) as Hfound.
           by injection Hfound as -> -> ->.
Qed.

Lemma validateSetArgs_loop_None (args : list string) :
  commands.validateSetArgs_loop args = None <->
  forall a, a ∈ args ->
    exists k v, commands.strings_Cut_eq a = (k, v, true) /\ strings_TrimSpace k <> "".
Proof.
  induction args as [|a rest IH]; cbn.
  - split; [|done]. by intros _ a ?%elem_of_nil.
  - destruct (commands.strings_Cut_eq a) as [[k v] found] eqn:Hcut.
    destruct found; cbn.
    + case_decide as Hempty.
      * split; [done|]. intros Hall.
        destruct (Hall a) as (k' & v' & Hcut' & Hne); [apply elem_of_cons; by left|].
        rewrite Hcut in Hcut'. by injection Hcut' as <- <-.
      * rewrite IH. split.
        -- intros Hall a' [->|Ha']%elem_of_cons; [by exists k, v|by apply Hall].
        -- intros Hall a' Ha'. apply Hall. apply elem_of_cons. by right.
    + split; [done|]. intros Hall.
      destruct (Hall a) as (k' & v' & Hcut' & _); [apply elem_of_cons; by left|].
      by rewrite Hcut in Hcut'.
Qed.

Lemma validateUnsetArgs_loop_None (args : list string) :
  commands.validateUnsetArgs_loop args = None <->
  forall a, a ∈ args -> strings_TrimSpace a <> "".
Proof.
  induction args as [|a rest IH]; cbn.
  - split; [|done]. by intros _ a ?%elem_of_nil.
  - case_decide as Hempty.
    + split; [done|]. intros Hall. destruct (Hall a); [apply elem_of_cons; by left|done].
    + rewrite IH. split.
      * intros Hall a' [->|Ha']%elem_of_cons; [done|by apply Hall].
      * intros Hall a' Ha'. apply Hall. apply elem_of_cons. by right.
Qed.

End ArgumentFacts.

(** X30. What the argument checks of [set] and [unset] let through.
    [validateSetArgs] accepts exactly the non-empty argument lists in which
    every argument is a name without [=], not blank, followed by [=] and a
    value; for such a list the pairs [runSet] stores are the trimmed name
    and the value as it stands, whatever [=] or blanks the value holds.
    [validateUnsetArgs] accepts exactly the non-empty lists without a blank
    argument, and [normalizeKeys] of such a list is not empty. *)
Theorem argument_checks `{External} (args : list string) :
  (commands.validateSetArgs args = None <->
     args <> [] /\
     forall a, a ∈ args ->
       exists k v, a = k +:+ "=" +:+ v /\ ("="%char ∉ list_ascii_of_string k) /\
                   strings_TrimSpace k <> "") /\
  (forall before k v after,
     args = before ++ (k +:+ "=" +:+ v) :: after ->
     "="%char ∉ list_ascii_of_string k ->
     commands.setPairs args
     = commands.setPairs before ++ (strings_TrimSpace k, v) :: commands.setPairs after) /\
  (commands.validateUnsetArgs args = None <->
     args <> [] /\ forall a, a ∈ args -> strings_TrimSpace a <> "") /\
  (commands.validateUnsetArgs args = None -> commands.normalizeKeys args <> []).
Proof.
  split; [|split; [|split]].
  - unfold commands.validateSetArgs. destruct args as [|a0 rest].
    + split; [done|]. by intros [? _].
    + rewrite validateSetArgs_loop_None. split.
      * intros Hall. split; [done|]. intros a Ha.
        destruct (Hall a Ha) as (k & v & Hcut & Hne).
        apply strings_Cut_eq_found in Hcut as [-> Hk]. by exists k, v.
      * intros [_ Hall] a Ha. destruct (Hall a Ha) as (k & v & -> & Hk & Hne).
        exists k, v. split; [|done]. by apply strings_Cut_eq_found.
  - intros before k v after -> Hk. rewrite setPairs_app.
    by rewrite (proj2 (strings_Cut_eq_found (k +:+ "=" +:+ v) k v) (conj eq_refl Hk)).
  - unfold commands.validateUnsetArgs. destruct args as [|a0 rest].
    + split; [done|]. by intros [? _].
    + rewrite validateUnsetArgs_loop_None. split; [by split|by intros [_ ?]].
  - unfold commands.validateUnsetArgs. destruct args as [|a0 rest]; [done|].
    intros Hloop0 Hnil.
    pose proof (proj1 (validateUnsetArgs_loop_None _) Hloop0) as Hall.
    destruct (normalizeKeys_loop_spec (a0 :: rest) ∅ []) as (added & Hloop & _ & _ & Hmem).
    { intros k. split; [by intros ?%elem_of_empty|by intros ?%elem_of_nil]. }
    { apply NoDup_nil_2. }
    unfold commands.normalizeKeys in Hnil. rewrite Hloop in Hnil.
    assert (strings_TrimSpace a0 ∈ [] ++ added) as Hin.
    { apply Hmem. right. split; [apply Hall; apply elem_of_cons; by left|].
      apply list_elem_of_fmap_2. apply elem_of_cons. by left. }
    rewrite Hnil in Hin. by apply elem_of_nil in Hin.
Qed.
